(** * sqlite-backport-module.c: the SQLite binding of the host runtime

    A shallow embedding of [src/sqlite-backport-module.c].  The C functions
    run in a small state monad over a [world]: the pending non-local exit of
    the host environment, the malloc'ed handle structs, the static
    [db_count], and the log of calls made to the native engine.  The native
    engine and the host services the module calls through [funcall] are
    parameters: an engine is any function from the history of calls made so
    far to the result of the next call. *)

From Stdlib Require Import ZArith List String Ascii Bool Lia.
From Stdlib Require Import DecimalString DecimalZ.
Import ListNotations.
Local Open Scope string_scope.
Local Open Scope list_scope.
Local Open Scope Z_scope.

(** ** Constants of sqlite3.h *)

Module Sqlite.
Definition SQLITE_OK : Z := 0.
Definition SQLITE_ERROR : Z := 1.
Definition SQLITE_BUSY : Z := 5.
Definition SQLITE_LOCKED : Z := 6.
Definition SQLITE_MISMATCH : Z := 20.
Definition SQLITE_MISUSE : Z := 21.
Definition SQLITE_ROW : Z := 100.
Definition SQLITE_DONE : Z := 101.

Definition SQLITE_INTEGER : Z := 1.
Definition SQLITE_FLOAT : Z := 2.
Definition SQLITE_TEXT : Z := 3.
Definition SQLITE_BLOB : Z := 4.
Definition SQLITE_NULL : Z := 5.

Definition SQLITE_OPEN_READWRITE : Z := 2.
Definition SQLITE_OPEN_CREATE : Z := 4.
Definition SQLITE_OPEN_URI : Z := 64.
Definition SQLITE_OPEN_MEMORY : Z := 128.
Definition SQLITE_OPEN_FULLMUTEX : Z := 65536.
End Sqlite.
Import Sqlite.

(** ** C integers *)

Definition INT_MAX : Z := 2147483647.

(** Conversion of a wider integer to [int] (two's complement wrap). *)
Definition to_int (z : Z) : Z := (z + 2147483648) mod 4294967296 - 2147483648.

Definition INTMAX_MIN : Z := - 9223372036854775808.
Definition INTMAX_MAX : Z := 9223372036854775807.

(** ** Host values

    C buffers and string contents are Coq strings, one [ascii] per byte. *)

(** A host string: what [length] returns, the bytes [copy_string_contents]
    delivers (UTF-8 for a multibyte string, the raw bytes for a unibyte
    one), and the [coding-system] text property at position 0 (a symbol
    name, [None] for nil). *)
Record lisp_string := mk_string {
  schars : Z;
  sdata : string;
  coding_system : option string
}.

(** The two finalizers of the module, which tell its handles apart, and
    those of other modules. *)
Inductive finalizer :=
| lisp_sqlite_free
| lisp_statement_free
| foreign_free (id : nat).

Definition emacs_finalizer := option finalizer.

Definition finalizer_eqb (a b : emacs_finalizer) : bool :=
  match a, b with
  | Some lisp_sqlite_free, Some lisp_sqlite_free => true
  | Some lisp_statement_free, Some lisp_statement_free => true
  | Some (foreign_free x), Some (foreign_free y) => Nat.eqb x y
  | None, None => true
  | _, _ => false
  end.

#[warnings="-register-all"]
Inductive emacs_value :=
| Symbol (name : string)
| Integer (n : Z)
| Float (bits : Z)                (* a double, as its IEEE-754 bit pattern *)
| Str (s : lisp_string)
| Cons (car cdr : emacs_value)
| Vector (elts : list emacs_value)
| User_ptr (fin : emacs_finalizer) (ptr : nat).

(** [Q(name)]: the interned symbol. *)
Definition Q (name : string) : emacs_value := Symbol name.
Definition Qnil : emacs_value := Q "nil".
Definition Qt : emacs_value := Q "t".

(** A non-local exit: the error symbol and its data list. *)
Definition signal : Type := string * list emacs_value.

(** ** The native engine *)

Definition pointer := option nat.   (* NULL is None *)

Inductive native_call :=
| Sqlite3_open_v2 (filename : string) (flags : Z)
| Sqlite3_close (db : pointer)
| Sqlite3_prepare_v2 (db : pointer) (sql : string) (nByte : Z)
| Sqlite3_finalize (stmt : pointer)
| Sqlite3_reset (stmt : pointer)
| Sqlite3_bind_blob (stmt : pointer) (i : Z) (data : option string) (n : Z)
| Sqlite3_bind_text (stmt : pointer) (i : Z) (data : option string) (n : Z)
| Sqlite3_bind_int64 (stmt : pointer) (i : Z) (v : Z)
| Sqlite3_bind_double (stmt : pointer) (i : Z) (bits : Z)
| Sqlite3_bind_null (stmt : pointer) (i : Z)
| Sqlite3_bind_int (stmt : pointer) (i : Z) (v : Z)
| Sqlite3_step (stmt : pointer)
| Sqlite3_exec (db : pointer) (sql : string)
| Sqlite3_changes (db : pointer)
| Sqlite3_errmsg (db : pointer)
| Sqlite3_column_count (stmt : pointer)
| Sqlite3_column_type (stmt : pointer) (i : Z)
| Sqlite3_column_int64 (stmt : pointer) (i : Z)
| Sqlite3_column_double (stmt : pointer) (i : Z)
| Sqlite3_column_blob (stmt : pointer) (i : Z)
| Sqlite3_column_bytes (stmt : pointer) (i : Z)
| Sqlite3_column_text (stmt : pointer) (i : Z)
| Sqlite3_column_name (stmt : pointer) (i : Z).

(** The calls that read the engine without changing it. *)
Definition is_observer (c : native_call) : bool :=
  match c with
  | Sqlite3_changes _ | Sqlite3_errmsg _ | Sqlite3_column_count _ | Sqlite3_column_type _ _
  | Sqlite3_column_int64 _ _ | Sqlite3_column_double _ _ | Sqlite3_column_blob _ _
  | Sqlite3_column_bytes _ _ | Sqlite3_column_text _ _ | Sqlite3_column_name _ _ => true
  | _ => false
  end.

(** What the engine has been asked to do so far: the log without the
    observers. *)
Definition effects (log : list native_call) : list native_call :=
  filter (fun c => negb (is_observer c)) log.

(** An engine answers a call from the effects before it: a status, an out
    pointer ([sqlite3_open_v2], [sqlite3_prepare_v2]), an integer, or a
    buffer. *)
Record sqlite3 := {
  result_code : list native_call -> native_call -> Z;
  result_ptr : list native_call -> native_call -> pointer;
  result_int : list native_call -> native_call -> Z;
  result_text : list native_call -> native_call -> string
}.

(** ** The world *)

Record Lisp_Sqlite := { sq_db : pointer }.

Record Lisp_Statement := {
  st_db : pointer;
  st_stmt : pointer;
  st_eof : bool
}.

Record world := {
  pending : option signal;            (* the env's pending non-local exit *)
  sqlites : list Lisp_Sqlite;         (* struct Lisp_Sqlite, by address *)
  statements : list Lisp_Statement;   (* struct Lisp_Statement, by address *)
  db_count : Z;
  trace : list native_call            (* oldest call first *)
}.

Definition set_pending (s : option signal) (w : world) : world :=
  {| pending := s; sqlites := sqlites w; statements := statements w;
     db_count := db_count w; trace := trace w |}.

Definition set_sqlites (l : list Lisp_Sqlite) (w : world) : world :=
  {| pending := pending w; sqlites := l; statements := statements w;
     db_count := db_count w; trace := trace w |}.

Definition set_statements (l : list Lisp_Statement) (w : world) : world :=
  {| pending := pending w; sqlites := sqlites w; statements := l;
     db_count := db_count w; trace := trace w |}.

Definition set_db_count (n : Z) (w : world) : world :=
  {| pending := pending w; sqlites := sqlites w; statements := statements w;
     db_count := n; trace := trace w |}.

Definition log (c : native_call) (w : world) : world :=
  {| pending := pending w; sqlites := sqlites w; statements := statements w;
     db_count := db_count w; trace := trace w ++ [c] |}.

(** ** The monad

    [Fault]: undefined behaviour (a NULL or wild pointer dereferenced, an
    uninitialised buffer read, signed overflow).  [Hang]: a loop ran out of
    fuel. *)
Inductive outcome (A : Type) :=
| Ret (a : A) (w : world)
| Fault (w : world)
| Hang (w : world).
Arguments Ret {A}.
Arguments Fault {A}.
Arguments Hang {A}.

Definition M (A : Type) : Type := world -> outcome A.

Definition ret {A} (a : A) : M A := fun w => Ret a w.

Definition bind {A B} (m : M A) (k : A -> M B) : M B :=
  fun w => match m w with
           | Ret a w' => k a w'
           | Fault w' => Fault w'
           | Hang w' => Hang w'
           end.

Definition fault {A} : M A := fun w => Fault w.

Notation "x <- m ;; k" := (bind m (fun x => k))
  (at level 61, m at next level, right associativity).
Notation "m ;;; k" := (bind m (fun _ => k))
  (at level 61, right associativity).
Notation "' ( x , y ) <- m ;; k" := (bind m (fun p => let '(x, y) := p in k))
  (at level 61, x name, y name, m at next level, right associativity).

(** ** Host services

    The services the module reaches through [funcall] and that it only
    passes values through, and [sqlite_prepare_errdata], which
    [Fsqlite_select] calls but the file does not define. *)
Record host := {
  expand_file_name : emacs_value -> emacs_value -> signal + emacs_value;
  encode_coding_string : emacs_value -> emacs_value -> signal + emacs_value;
  concat : emacs_value -> emacs_value -> signal + emacs_value;
  sqlite_prepare_errdata : Z -> list native_call -> string
}.

(** ** The environment functions of emacs-module.h

    While a non-local exit is pending every environment function returns
    its failure value without looking at its arguments and changes nothing.
    The failure value of the functions that return an [emacs_value] is the
    C NULL; no environment function can tell it from another value while
    the exit is pending, and the model writes [Qnil] for it. *)

Definition NULL_value : emacs_value := Qnil.

Definition env_fn {A} (failure : A) (r : signal + A) : M A :=
  fun w =>
    match pending w with
    | Some _ => Ret failure w
    | None =>
        match r with
        | inr a => Ret a w
        | inl s => Ret failure (set_pending (Some s) w)
        end
    end.

Definition non_local_exit_signal (symbol : emacs_value) (data : list emacs_value)
  : M unit :=
  fun w =>
    match pending w with
    | Some _ => Ret tt w
    | None =>
        match symbol with
        | Symbol name => Ret tt (set_pending (Some (name, data)) w)
        | _ => Ret tt (set_pending (Some ("error", data)) w)
        end
    end.

Definition type_name (v : emacs_value) : string :=
  match v with
  | Symbol _ => "symbol"
  | Integer _ => "integer"
  | Float _ => "float"
  | Str _ => "string"
  | Cons _ _ => "cons"
  | Vector _ => "vector"
  | User_ptr _ _ => "user-ptr"
  end.

Definition type_of (v : emacs_value) : M emacs_value :=
  env_fn NULL_value (inr (Q (type_name v))).

(** [eq] on symbols and fixnums; the module only compares against interned
    symbols. *)
Definition eq_value (a b : emacs_value) : bool :=
  match a, b with
  | Symbol x, Symbol y => String.eqb x y
  | Integer x, Integer y => Z.eqb x y
  | _, _ => false
  end.

Definition eq (a b : emacs_value) : M bool := env_fn false (inr (eq_value a b)).

Definition is_not_nil (v : emacs_value) : M bool :=
  env_fn false (inr (negb (eq_value v Qnil))).

Definition wrong_type (predicate : string) (v : emacs_value) : signal :=
  ("wrong-type-argument", [Q predicate; v]).

Definition extract_integer (v : emacs_value) : M Z :=
  env_fn 0 match v with
           | Integer n =>
               if (INTMAX_MIN <=? n) && (n <=? INTMAX_MAX) then inr n
               else inl ("overflow-error", [v])
           | _ => inl (wrong_type "integerp" v)
           end.

Definition extract_float (v : emacs_value) : M Z :=
  env_fn 0 match v with
           | Float bits => inr bits
           | _ => inl (wrong_type "floatp" v)
           end.

Definition make_integer (n : Z) : M emacs_value :=
  env_fn NULL_value (inr (Integer n)).

Definition make_float (bits : Z) : M emacs_value :=
  env_fn NULL_value (inr (Float bits)).

Definition NUL : string := String Ascii.zero EmptyString.

(** The first [n] bytes of a buffer. *)
Definition bytes_prefix (n : Z) (buf : string) : string :=
  substring 0 (Z.to_nat n) buf.

(** The C string in a buffer: the bytes before the first NUL. *)
Fixpoint c_string (buf : string) : string :=
  match buf with
  | EmptyString => EmptyString
  | String c rest =>
      if Ascii.eqb c Ascii.zero then EmptyString else String c (c_string rest)
  end.

Definition strlen (buf : string) : Z := Z.of_nat (String.length (c_string buf)).

(** Characters of a UTF-8 byte sequence: the bytes that are not
    continuation bytes (10xxxxxx). *)
Definition is_continuation (c : ascii) : bool :=
  let n := N_of_ascii c in (128 <=? n)%N && (n <? 192)%N.

Fixpoint utf8_chars (s : string) : Z :=
  match s with
  | EmptyString => 0
  | String c rest =>
      (if is_continuation c then 0 else 1) + utf8_chars rest
  end.

Definition make_string (data : string) (len : Z) : M emacs_value :=
  env_fn NULL_value
    (if len <? 0 then inl ("overflow-error", [])
     else let bytes := bytes_prefix len data in
          inr (Str (mk_string (utf8_chars bytes) bytes None))).

Definition make_unibyte_string (data : string) (len : Z) : M emacs_value :=
  env_fn NULL_value
    (if len <? 0 then inl ("overflow-error", [])
     else let bytes := bytes_prefix len data in
          inr (Str (mk_string (Z.of_nat (String.length bytes)) bytes None))).

(** [build_string(s)] is [make_string(env, s, strlen(s))]. *)
Definition build_string (s : string) : M emacs_value := make_string s (strlen s).

Definition make_int (n : Z) : M emacs_value := make_integer n.

(** [copy_string_contents(env, value, buf, &len)]: the buffer after the call
    ([None] while nothing has been written to it) and [*len] after the
    call.  [buf] says whether the buffer argument is non-NULL. *)
Definition copy_string_contents (value : emacs_value) (buf : bool) (len : Z)
  : M (option string * Z) :=
  fun w =>
    match pending w with
    | Some _ => Ret (None, len) w
    | None =>
        match value with
        | Str s =>
            let required := Z.of_nat (String.length (sdata s)) + 1 in
            if buf then
              if len <? required then
                Ret (None, required)
                    (set_pending
                       (Some ("args-out-of-range", [Integer len; Integer required])) w)
              else Ret (Some (sdata s ++ NUL)%string, required) w
            else Ret (None, required) w
        | _ => Ret (None, len) (set_pending (Some (wrong_type "stringp" value)) w)
        end
    end.

(** Reading a malloc'ed buffer that was never written is a fault. *)
Definition initialised (buf : option string) : M string :=
  match buf with
  | Some s => ret s
  | None => fault
  end.

Definition vec_size (v : emacs_value) : M Z :=
  env_fn 0 match v with
           | Vector l => inr (Z.of_nat (List.length l))
           | _ => inl (wrong_type "vectorp" v)
           end.

Definition vec_get (v : emacs_value) (i : Z) : M emacs_value :=
  env_fn NULL_value
    match v with
    | Vector l =>
        if i <? 0 then inl ("args-out-of-range", [Integer i])
        else match nth_error l (Z.to_nat i) with
             | Some x => inr x
             | None => inl ("args-out-of-range", [Integer i])
             end
    | _ => inl (wrong_type "vectorp" v)
    end.

Definition get_user_finalizer (v : emacs_value) : M emacs_finalizer :=
  env_fn None match v with
              | User_ptr fin _ => inr fin
              | _ => inl (wrong_type "user-ptrp" v)
              end.

Definition get_user_ptr (v : emacs_value) : M pointer :=
  env_fn None match v with
              | User_ptr _ p => inr (Some p)
              | _ => inl (wrong_type "user-ptrp" v)
              end.

Definition make_user_ptr (fin : finalizer) (p : nat) : M emacs_value :=
  env_fn NULL_value (inr (User_ptr (Some fin) p)).

(** ** Host functions reached through [call(name, ...)] *)

Fixpoint list_of_value (v : emacs_value) : option (list emacs_value) :=
  match v with
  | Symbol s => if String.eqb s "nil" then Some [] else None
  | Cons a d =>
      match list_of_value d with
      | Some l => Some (a :: l)
      | None => None
      end
  | _ => None
  end.

Definition value_of_list (l : list emacs_value) : emacs_value :=
  fold_right Cons Qnil l.

Definition call_length (v : emacs_value) : M emacs_value :=
  env_fn NULL_value
    match v with
    | Vector l => inr (Integer (Z.of_nat (List.length l)))
    | Str s => inr (Integer (schars s))
    | _ => match list_of_value v with
           | Some l => inr (Integer (Z.of_nat (List.length l)))
           | None => inl (wrong_type "sequencep" v)
           end
    end.

Definition call_car (v : emacs_value) : M emacs_value :=
  env_fn NULL_value
    match v with
    | Cons a _ => inr a
    | _ => if eq_value v Qnil then inr Qnil else inl (wrong_type "listp" v)
    end.

Definition call_cdr (v : emacs_value) : M emacs_value :=
  env_fn NULL_value
    match v with
    | Cons _ d => inr d
    | _ => if eq_value v Qnil then inr Qnil else inl (wrong_type "listp" v)
    end.

Definition call_cons (a d : emacs_value) : M emacs_value :=
  env_fn NULL_value (inr (Cons a d)).

Definition call_nreverse (v : emacs_value) : M emacs_value :=
  env_fn NULL_value
    match list_of_value v with
    | Some l => inr (value_of_list (rev l))
    | None => inl (wrong_type "sequencep" v)
    end.

(** [get-text-property] at position 0 of a string; an empty string has no
    text properties. *)
Definition call_get_text_property (pos : emacs_value) (prop : emacs_value)
    (object : emacs_value) : M emacs_value :=
  env_fn NULL_value
    match object with
    | Str s =>
        if eq_value prop (Q "coding-system") && negb (schars s =? 0) then
          match coding_system s with
          | Some cs => inr (Q cs)
          | None => inr Qnil
          end
        else inr Qnil
    | _ => inl (wrong_type "buffer-or-string-p" object)
    end.

(** [%d] of an integer. *)
Definition decimal (n : Z) : string := NilZero.string_of_int (Z.to_int n).

(** [format] with the one directive the module uses. *)
Fixpoint format_d (fmt : string) (n : Z) : string :=
  match fmt with
  | String "%" (String "d" rest) => (decimal n ++ rest)%string
  | String c rest => String c (format_d rest n)
  | EmptyString => EmptyString
  end.

Definition call_format (fmt : emacs_value) (arg : emacs_value) : M emacs_value :=
  env_fn NULL_value
    match fmt, arg with
    | Str f, Integer n =>
        let s := format_d (sdata f) n in
        inr (Str (mk_string (utf8_chars s) s None))
    | Str f, _ => inl ("error", [])
    | _, _ => inl (wrong_type "stringp" fmt)
    end.

(** [xsignal(symbol, ...)]: the data is the list of the arguments. *)
Definition xsignal (symbol : string) (data : list emacs_value) : M unit :=
  non_local_exit_signal (Q symbol) data.

Definition TYPE_OF (v : emacs_value) : M emacs_value := type_of v.
Definition EQ (a b : emacs_value) : M bool := eq a b.
Definition TYPEP (v : emacs_value) (type : string) : M bool :=
  t <- TYPE_OF v ;; EQ t (Q type).
Definition NILP (v : emacs_value) : M bool :=
  b <- is_not_nil v ;; ret (negb b).
Definition XFIXNUM (v : emacs_value) : M Z := extract_integer v.

Section Module.

Variable E : sqlite3.
Variable H : host.

(** ** Calls to the native engine: answered by [E], and logged *)

Definition native_code (c : native_call) : M Z :=
  fun w => Ret (result_code E (effects (trace w)) c) (log c w).

Definition native_alloc (c : native_call) : M (Z * pointer) :=
  fun w => Ret (result_code E (effects (trace w)) c,
                result_ptr E (effects (trace w)) c) (log c w).

Definition native_int (c : native_call) : M Z :=
  fun w => Ret (result_int E (effects (trace w)) c) (log c w).

Definition native_text (c : native_call) : M string :=
  fun w => Ret (result_text E (effects (trace w)) c) (log c w).

Definition sqlite3_open_v2 filename flags := native_alloc (Sqlite3_open_v2 filename flags).
Definition sqlite3_close db := native_code (Sqlite3_close db).
Definition sqlite3_prepare_v2 db sql nByte := native_alloc (Sqlite3_prepare_v2 db sql nByte).
Definition sqlite3_finalize stmt := native_code (Sqlite3_finalize stmt).
Definition sqlite3_reset stmt := native_code (Sqlite3_reset stmt).
Definition sqlite3_bind_blob stmt i data n := native_code (Sqlite3_bind_blob stmt i data n).
Definition sqlite3_bind_text stmt i data n := native_code (Sqlite3_bind_text stmt i data n).
Definition sqlite3_bind_int64 stmt i v := native_code (Sqlite3_bind_int64 stmt i v).
Definition sqlite3_bind_double stmt i d := native_code (Sqlite3_bind_double stmt i d).
Definition sqlite3_bind_null stmt i := native_code (Sqlite3_bind_null stmt i).
Definition sqlite3_bind_int stmt i v := native_code (Sqlite3_bind_int stmt i v).
Definition sqlite3_step stmt := native_code (Sqlite3_step stmt).
Definition sqlite3_exec db sql := native_code (Sqlite3_exec db sql).
Definition sqlite3_changes db := native_int (Sqlite3_changes db).
Definition sqlite3_errmsg db := native_text (Sqlite3_errmsg db).
Definition sqlite3_column_count stmt := native_int (Sqlite3_column_count stmt).
Definition sqlite3_column_type stmt i := native_int (Sqlite3_column_type stmt i).
Definition sqlite3_column_int64 stmt i := native_int (Sqlite3_column_int64 stmt i).
Definition sqlite3_column_double stmt i := native_int (Sqlite3_column_double stmt i).
Definition sqlite3_column_bytes stmt i := native_int (Sqlite3_column_bytes stmt i).
Definition sqlite3_column_blob stmt i := native_text (Sqlite3_column_blob stmt i).
Definition sqlite3_column_text stmt i := native_text (Sqlite3_column_text stmt i).
Definition sqlite3_column_name stmt i := native_text (Sqlite3_column_name stmt i).

(** ** Host services of [H] *)

Definition call_expand_file_name (name dir : emacs_value) : M emacs_value :=
  env_fn NULL_value (expand_file_name H name dir).

Definition call_encode_coding_string (value cs : emacs_value) : M emacs_value :=
  env_fn NULL_value (encode_coding_string H value cs).

Definition call_concat (a b : emacs_value) : M emacs_value :=
  env_fn NULL_value (concat H a b).

(** ** The handle structs *)

Definition load_sqlite (ptr : pointer) : M Lisp_Sqlite :=
  fun w =>
    match ptr with
    | None => Fault w
    | Some a => match nth_error (sqlites w) a with
                | Some s => Ret s w
                | None => Fault w
                end
    end.

Definition load_statement (ptr : pointer) : M Lisp_Statement :=
  fun w =>
    match ptr with
    | None => Fault w
    | Some a => match nth_error (statements w) a with
                | Some s => Ret s w
                | None => Fault w
                end
    end.

Fixpoint update {A} (l : list A) (a : nat) (x : A) : list A :=
  match l, a with
  | [], _ => []
  | _ :: t, O => x :: t
  | h :: t, S a' => h :: update t a' x
  end.

(** [ptr->db = db] *)
Definition store_sq_db (ptr : pointer) (db : pointer) : M unit :=
  fun w =>
    match ptr with
    | None => Fault w
    | Some a =>
        match nth_error (sqlites w) a with
        | Some s => Ret tt (set_sqlites (update (sqlites w) a {| sq_db := db |}) w)
        | None => Fault w
        end
    end.

(** [ptr->stmt = stmt] *)
Definition store_st_stmt (ptr : pointer) (stmt : pointer) : M unit :=
  fun w =>
    match ptr with
    | None => Fault w
    | Some a =>
        match nth_error (statements w) a with
        | Some s =>
            Ret tt (set_statements
                      (update (statements w) a
                         {| st_db := st_db s; st_stmt := stmt; st_eof := st_eof s |}) w)
        | None => Fault w
        end
    end.

(** [ptr->eof = eof] *)
Definition store_st_eof (ptr : pointer) (eof : bool) : M unit :=
  fun w =>
    match ptr with
    | None => Fault w
    | Some a =>
        match nth_error (statements w) a with
        | Some s =>
            Ret tt (set_statements
                      (update (statements w) a
                         {| st_db := st_db s; st_stmt := st_stmt s; st_eof := eof |}) w)
        | None => Fault w
        end
    end.

Definition malloc_sqlite (s : Lisp_Sqlite) : M nat :=
  fun w => Ret (List.length (sqlites w)) (set_sqlites (sqlites w ++ [s]) w).

Definition malloc_statement (s : Lisp_Statement) : M nat :=
  fun w => Ret (List.length (statements w)) (set_statements (statements w ++ [s]) w).

(** ** The module *)

Definition CHECK_STRING (value : emacs_value) : M bool :=
  b <- TYPEP value "string" ;;
  if b then ret true
  else xsignal "wrong-type-argument" [Q "stringp"; value] ;;; ret false.

Definition user_ptr_check (value : emacs_value) : M emacs_finalizer :=
  b <- TYPEP value "user-ptr" ;;
  if b then get_user_finalizer value else ret None.

Definition lisp_sqlite_make (db : pointer) : M emacs_value :=
  ptr <- malloc_sqlite {| sq_db := db |} ;;
  make_user_ptr lisp_sqlite_free ptr.

Definition lisp_statement_make (db stmt : pointer) : M emacs_value :=
  ptr <- malloc_statement {| st_db := db; st_stmt := stmt; st_eof := false |} ;;
  make_user_ptr lisp_statement_free ptr.

Definition is_null (p : pointer) : bool :=
  match p with
  | None => true
  | Some _ => false
  end.

(** The result is the [struct Lisp_Sqlite *], NULL after a signal. *)
Definition lisp_sqlite_check (db : emacs_value) : M pointer :=
  finalizer <- user_ptr_check db ;;
  if finalizer_eqb finalizer (Some lisp_sqlite_free) then
    ptr <- get_user_ptr db ;;
    s <- load_sqlite ptr ;;
    if negb (is_null (sq_db s)) then ret ptr
    else
      msg <- build_string "Database closed" ;;
      xsignal "error" [msg] ;;; ret None
  else if finalizer_eqb finalizer (Some lisp_statement_free) then
    msg <- build_string "Invalid database object" ;;
    xsignal "error" [msg] ;;; ret None
  else
    xsignal "wrong-type-argument" [Q "sqlitep"; db] ;;; ret None.

Definition lisp_statement_check (stmt : emacs_value) : M pointer :=
  finalizer <- user_ptr_check stmt ;;
  if finalizer_eqb finalizer (Some lisp_statement_free) then
    ptr <- get_user_ptr stmt ;;
    s <- load_statement ptr ;;
    if negb (is_null (st_stmt s)) then ret ptr
    else
      msg <- build_string "Statement closed" ;;
      xsignal "error" [msg] ;;; ret None
  else if finalizer_eqb finalizer (Some lisp_sqlite_free) then
    msg <- build_string "Invalid set object" ;;
    xsignal "error" [msg] ;;; ret None
  else
    xsignal "wrong-type-argument" [Q "sqlitep"; stmt] ;;; ret None.

(** [args[i]]; the host checks [nargs] against the arities registered in
    [emacs_module_init] before it enters a function. *)
Definition arg (args : list emacs_value) (i : nat) : emacs_value := nth i args NULL_value.

Definition nargs (args : list emacs_value) : Z := Z.of_nat (List.length args).

(** [++db_count]; overflow of the signed counter is undefined. *)
Definition incr_db_count : M Z :=
  fun w =>
    if db_count w <? INT_MAX
    then Ret (db_count w + 1) (set_db_count (db_count w + 1) w)
    else Fault w.

Definition open_flags : Z :=
  Z.lor (Z.lor (Z.lor SQLITE_OPEN_CREATE SQLITE_OPEN_READWRITE) SQLITE_OPEN_FULLMUTEX)
        SQLITE_OPEN_URI.

Definition Fsqlite_open (args : list emacs_value) : M emacs_value :=
  named <- (if nargs args >? 0 then n <- NILP (arg args 0) ;; ret (negb n)
            else ret false) ;;
  '(name, flags) <-
    (if named : bool then
       name <- call_expand_file_name (arg args 0) (Q "nil") ;;
       ret (name, open_flags)
     else
       fmt <- build_string ":memory:%d" ;;
       n <- incr_db_count ;;
       i <- make_int n ;;
       name <- call_format fmt i ;;
       ret (name, Z.lor open_flags SQLITE_OPEN_MEMORY)) ;;
  '(_, size) <- copy_string_contents name false 0 ;;
  '(encoded, _) <- copy_string_contents name true size ;;
  filename <- initialised encoded ;;
  '(rc, sdb) <- sqlite3_open_v2 (c_string filename) flags ;;
  if negb (rc =? SQLITE_OK) then ret (Q "nil")
  else lisp_sqlite_make sdb.

Definition Fsqlite_close (args : list emacs_value) : M emacs_value :=
  ptr <- lisp_sqlite_check (arg args 0) ;;
  if is_null ptr then ret (Q "nil")
  else
    s <- load_sqlite ptr ;;
    sqlite3_close (sq_db s) ;;;
    store_sq_db ptr None ;;;
    ret (Q "t").

(** One turn of the loop of [bind_values] on [value], for parameter
    [i + 1].  [inl err]: the function returns [err] before the status test;
    [inr rc]: the status of the bind call. *)
Definition bind_string (stmt : pointer) (i : Z) (value : emacs_value) : M (string + Z) :=
  zero <- make_int 0 ;;
  coding_system <- call_get_text_property zero (Q "coding-system") value ;;
  untagged <- NILP coding_system ;;
  '(blob, value) <-
    (if negb untagged then
       binary <- EQ coding_system (Q "binary") ;;
       if binary : bool then ret (true, value)
       else
         encoded <- call_encode_coding_string value coding_system ;;
         ret (false, encoded)
     else ret (false, value)) ;;
  '(_, size) <- copy_string_contents value false 0 ;;
  if blob : bool then
    if negb (size =? 0) then
      len <- call_length value ;;
      len <- XFIXNUM len ;;
      if negb (size =? len + 1) then
        msg <- build_string "BLOB values must be unibyte" ;;
        xsignal "error" [msg] ;;;
        ret (inl "")
      else
        '(encoded, size) <- copy_string_contents value true size ;;
        data <- initialised encoded ;;
        rc <- sqlite3_bind_blob stmt (i + 1) (Some data) (to_int (size - 1)) ;;
        ret (inr rc)
    else
      rc <- sqlite3_bind_blob stmt (i + 1) None 0 ;;
      ret (inr rc)
  else
    if negb (size =? 0) then
      '(encoded, size) <- copy_string_contents value true size ;;
      data <- initialised encoded ;;
      rc <- sqlite3_bind_text stmt (i + 1) (Some data) (to_int (size - 1)) ;;
      ret (inr rc)
    else
      rc <- sqlite3_bind_text stmt (i + 1) None 0 ;;
      ret (inr rc).

(** The end of a turn of the loop: [inl err] returns [err]; [inr rc] returns
    the engine's message unless [rc] is [SQLITE_OK]. *)
Definition bind_status_test (db : pointer) (r : string + Z) : M (option string) :=
  match r with
  | inl err => ret (Some err)
  | inr rc =>
      if negb (rc =? SQLITE_OK) then
        msg <- sqlite3_errmsg db ;;
        ret (Some msg)
      else ret None
  end.

Definition bind_value (db stmt : pointer) (i : Z) (value : emacs_value)
  : M (option string) :=
  type <- TYPE_OF value ;;
  is_string <- EQ type (Q "string") ;;
  r <- (if is_string : bool then bind_string stmt i value
        else
          is_integer <- EQ type (Q "integer") ;;
          if is_integer : bool then
            n <- XFIXNUM value ;;
            rc <- sqlite3_bind_int64 stmt (i + 1) n ;;
            ret (inr rc)
          else
            is_float <- EQ type (Q "float") ;;
            if is_float : bool then
              d <- extract_float value ;;
              rc <- sqlite3_bind_double stmt (i + 1) d ;;
              ret (inr rc)
            else
              is_nil <- NILP value ;;
              if is_nil : bool then
                rc <- sqlite3_bind_null stmt (i + 1) ;;
                ret (inr rc)
              else
                is_t <- EQ value (Q "t") ;;
                if is_t : bool then
                  rc <- sqlite3_bind_int stmt (i + 1) 1 ;;
                  ret (inr rc)
                else
                  is_false <- EQ value (Q "false") ;;
                  if is_false : bool then
                    rc <- sqlite3_bind_int stmt (i + 1) 0 ;;
                    ret (inr rc)
                  else ret (inl "invalid argument")) ;;
  bind_status_test db r.

(** The [for] loop of [bind_values], with [n] turns left. *)
Fixpoint bind_values_loop (n : nat) (db stmt : pointer) (is_vector : bool)
    (i : Z) (values : emacs_value) : M (option string) :=
  match n with
  | O => ret None
  | S n' =>
      '(value, values) <-
        (if is_vector then
           value <- vec_get values i ;;
           ret (value, values)
         else
           value <- call_car values ;;
           rest <- call_cdr values ;;
           ret (value, rest)) ;;
      err <- bind_value db stmt i value ;;
      match err with
      | Some e => ret (Some e)
      | None => bind_values_loop n' db stmt is_vector (i + 1) values
      end
  end.

(** The result is the error text, [None] for NULL. *)
Definition bind_values (db stmt : pointer) (values : emacs_value) : M (option string) :=
  sqlite3_reset stmt ;;;
  is_vector <- TYPEP values "vector" ;;
  len <- (if is_vector : bool then vec_size values
          else len <- call_length values ;; XFIXNUM len) ;;
  bind_values_loop (Z.to_nat (to_int len)) db stmt is_vector 0 values.

(** The [exit:] label of [Fsqlite_execute]. *)
Definition execute_exit (rc : Z) (errmsg : string) : M emacs_value :=
  (if (rc =? SQLITE_LOCKED) || (rc =? SQLITE_BUSY) then
     msg <- build_string errmsg ;;
     xsignal "sqlite_locked_error" [msg]
   else
     msg <- build_string errmsg ;;
     xsignal "error" [msg]) ;;;
  ret (Q "nil").

Definition Fsqlite_execute (args : list emacs_value) : M emacs_value :=
  ptr <- lisp_sqlite_check (arg args 0) ;;
  if is_null ptr then ret (Q "nil")
  else
    is_string <- CHECK_STRING (arg args 1) ;;
    if negb is_string then ret (Q "nil")
    else
      bad_values <-
        (if nargs args >? 2 then
           type <- TYPE_OF (arg args 2) ;;
           is_nil <- NILP (arg args 2) ;;
           is_cons <- EQ type (Q "cons") ;;
           is_vector <- EQ type (Q "vector") ;;
           ret (negb (is_nil || is_cons || is_vector))
         else ret false) ;;
      if bad_values : bool then
        msg <- build_string "VALUES must be a list or a vector" ;;
        xsignal "error" [msg] ;;;
        ret (Q "nil")
      else
        '(_, size) <- copy_string_contents (arg args 1) false 0 ;;
        '(encoded, _) <- copy_string_contents (arg args 1) true size ;;
        sql <- initialised encoded ;;
        s <- load_sqlite ptr ;;
        '(rc, stmt) <- sqlite3_prepare_v2 (sq_db s) (c_string sql) (-1) ;;
        if negb (rc =? SQLITE_OK) then
          (if negb (is_null stmt) then
             sqlite3_finalize stmt ;;; sqlite3_reset stmt ;;; ret tt
           else ret tt) ;;;
          errmsg <- sqlite3_errmsg (sq_db s) ;;
          execute_exit rc errmsg
        else
          with_values <- (if nargs args >? 2 then
                            is_nil <- NILP (arg args 2) ;; ret (negb is_nil)
                          else ret false) ;;
          err <- (if with_values : bool then bind_values (sq_db s) stmt (arg args 2)
                  else ret None) ;;
          match err with
          | Some e => execute_exit rc e
          | None =>
              rc <- sqlite3_step stmt ;;
              sqlite3_finalize stmt ;;;
              if negb (rc =? SQLITE_OK) && negb (rc =? SQLITE_DONE) then
                errmsg <- sqlite3_errmsg (sq_db s) ;;
                execute_exit rc errmsg
              else
                n <- sqlite3_changes (sq_db s) ;;
                make_int n
          end.

(** The [switch] of [row_to_value]: the value of column [i]. *)
Definition column_value (stmt : pointer) (i : Z) : M emacs_value :=
  type <- sqlite3_column_type stmt i ;;
  if type =? SQLITE_INTEGER then
    x <- sqlite3_column_int64 stmt i ;;
    make_int x
  else if type =? SQLITE_FLOAT then
    d <- sqlite3_column_double stmt i ;;
    make_float d
  else if type =? SQLITE_BLOB then
    data <- sqlite3_column_blob stmt i ;;
    bytes <- sqlite3_column_bytes stmt i ;;
    make_unibyte_string data bytes
  else if type =? SQLITE_TEXT then
    data <- sqlite3_column_text stmt i ;;
    bytes <- sqlite3_column_bytes stmt i ;;
    make_string data bytes
  else ret (Q "nil").

(** The [for] loop of [row_to_value], with [n] turns left. *)
Fixpoint row_to_value_loop (n : nat) (stmt : pointer) (i : Z) (values : emacs_value)
  : M emacs_value :=
  match n with
  | O => ret values
  | S n' =>
      v <- column_value stmt i ;;
      values <- call_cons v values ;;
      row_to_value_loop n' stmt (i + 1) values
  end.

Definition row_to_value (stmt : pointer) : M emacs_value :=
  len <- sqlite3_column_count stmt ;;
  values <- row_to_value_loop (Z.to_nat len) stmt 0 (Q "nil") ;;
  call_nreverse values.

Fixpoint column_names_loop (n : nat) (stmt : pointer) (i : Z) (columns : emacs_value)
  : M emacs_value :=
  match n with
  | O => ret columns
  | S n' =>
      name <- sqlite3_column_name stmt i ;;
      name <- build_string name ;;
      columns <- call_cons name columns ;;
      column_names_loop n' stmt (i + 1) columns
  end.

Definition column_names (stmt : pointer) : M emacs_value :=
  count <- sqlite3_column_count stmt ;;
  columns <- column_names_loop (Z.to_nat count) stmt 0 (Q "nil") ;;
  call_nreverse columns.

(** The [while] loop of [Fsqlite_select]: the status that ended it and the
    rows consed so far. *)
Fixpoint select_loop (fuel : nat) (stmt : pointer) (retval : emacs_value)
  : M (Z * emacs_value) :=
  match fuel with
  | O => fun w => Hang w
  | S fuel' =>
      rc <- sqlite3_step stmt ;;
      if rc =? SQLITE_ROW then
        row <- row_to_value stmt ;;
        retval <- call_cons row retval ;;
        select_loop fuel' stmt retval
      else ret (rc, retval)
  end.

(** The [exit:] label of [Fsqlite_select]. *)
Definition select_exit (errmsg : string) : M emacs_value :=
  msg <- build_string errmsg ;;
  xsignal "error" [msg] ;;;
  ret (Q "nil").

Definition Fsqlite_select (fuel : nat) (args : list emacs_value) : M emacs_value :=
  ptr <- lisp_sqlite_check (arg args 0) ;;
  if is_null ptr then ret (Q "nil")
  else
    is_string <- CHECK_STRING (arg args 1) ;;
    if negb is_string then ret (Q "nil")
    else
      '(_, size) <- copy_string_contents (arg args 1) false 0 ;;
      '(encoded, size) <- copy_string_contents (arg args 1) true size ;;
      sql <- initialised encoded ;;
      s <- load_sqlite ptr ;;
      '(rc, stmt) <- sqlite3_prepare_v2 (sq_db s) sql (to_int size) ;;
      if negb (rc =? SQLITE_OK) then
        (if negb (is_null stmt) then sqlite3_finalize stmt ;;; ret tt else ret tt) ;;;
        errmsg <- (fun w => Ret (sqlite_prepare_errdata H rc (effects (trace w))) w) ;;
        select_exit errmsg
      else
        with_values <- (if nargs args >? 2 then
                          is_nil <- NILP (arg args 2) ;; ret (negb is_nil)
                        else ret false) ;;
        err <- (if with_values : bool then
                  err <- bind_values (sq_db s) stmt (arg args 2) ;;
                  match err with
                  | Some e => sqlite3_finalize stmt ;;; ret (Some e)
                  | None => ret None
                  end
                else ret None) ;;
        match err with
        | Some e => select_exit e
        | None =>
            set <- (if nargs args >? 3 then EQ (arg args 3) (Q "set") else ret false) ;;
            if set : bool then lisp_statement_make (sq_db s) stmt
            else
              '(_, retval) <- select_loop fuel stmt (Q "nil") ;;
              retval <- call_nreverse retval ;;
              full <- (if nargs args >? 3 then EQ (arg args 3) (Q "full")
                       else ret false) ;;
              retval <- (if full : bool then
                           columns <- column_names stmt ;;
                           call_cons columns retval
                         else ret retval) ;;
              sqlite3_finalize stmt ;;;
              ret retval
        end.

Definition Fsqlite_transaction (args : list emacs_value) : M emacs_value :=
  ptr <- lisp_sqlite_check (arg args 0) ;;
  s <- load_sqlite ptr ;;
  rc <- sqlite3_exec (sq_db s) "begin" ;;
  if negb (rc =? SQLITE_OK) then ret (Q "nil") else ret (Q "t").

Definition Fsqlite_commit (args : list emacs_value) : M emacs_value :=
  ptr <- lisp_sqlite_check (arg args 0) ;;
  if is_null ptr then ret (Q "nil")
  else
    s <- load_sqlite ptr ;;
    rc <- sqlite3_exec (sq_db s) "commit" ;;
    if negb (rc =? SQLITE_OK) then ret (Q "nil") else ret (Q "t").

Definition Fsqlite_rollback (args : list emacs_value) : M emacs_value :=
  ptr <- lisp_sqlite_check (arg args 0) ;;
  if is_null ptr then ret (Q "nil")
  else
    s <- load_sqlite ptr ;;
    rc <- sqlite3_exec (sq_db s) "rollback" ;;
    if negb (rc =? SQLITE_OK) then ret (Q "nil") else ret (Q "t").

Definition Fsqlite_pragma (args : list emacs_value) : M emacs_value :=
  ptr <- lisp_sqlite_check (arg args 0) ;;
  if is_null ptr then ret (Q "nil")
  else
    prefix <- build_string "PRAGMA " ;;
    pragma <- call_concat prefix (arg args 1) ;;
    '(_, size) <- copy_string_contents pragma false 0 ;;
    '(encoded, _) <- copy_string_contents pragma true size ;;
    sql <- initialised encoded ;;
    s <- load_sqlite ptr ;;
    rc <- sqlite3_exec (sq_db s) (c_string sql) ;;
    if negb (rc =? SQLITE_OK) then ret (Q "nil") else ret (Q "t").

Definition Fsqlite_next (args : list emacs_value) : M emacs_value :=
  ptr <- lisp_statement_check (arg args 0) ;;
  if is_null ptr then ret (Q "nil")
  else
    s <- load_statement ptr ;;
    rc <- sqlite3_step (st_stmt s) ;;
    if negb (rc =? SQLITE_ROW) && negb (rc =? SQLITE_OK) && negb (rc =? SQLITE_DONE) then
      errmsg <- sqlite3_errmsg (st_db s) ;;
      msg <- build_string errmsg ;;
      xsignal "error" [msg] ;;;
      ret (Q "nil")
    else if rc =? SQLITE_DONE then
      store_st_eof ptr true ;;;
      ret (Q "nil")
    else row_to_value (st_stmt s).

Definition Fsqlite_columns (args : list emacs_value) : M emacs_value :=
  ptr <- lisp_statement_check (arg args 0) ;;
  if is_null ptr then ret (Q "nil")
  else
    s <- load_statement ptr ;;
    column_names (st_stmt s).

Definition Fsqlite_more_p (args : list emacs_value) : M emacs_value :=
  ptr <- lisp_statement_check (arg args 0) ;;
  if is_null ptr then ret (Q "nil")
  else
    s <- load_statement ptr ;;
    if negb (st_eof s) then ret (Q "t") else ret (Q "nil").

Definition Fsqlite_finalize (args : list emacs_value) : M emacs_value :=
  ptr <- lisp_statement_check (arg args 0) ;;
  if is_null ptr then ret (Q "nil")
  else
    s <- load_statement ptr ;;
    sqlite3_finalize (st_stmt s) ;;;
    store_st_stmt ptr None ;;;
    ret (Q "t").

Definition Fsqlitep (args : list emacs_value) : M emacs_value :=
  finalizer <- user_ptr_check (arg args 0) ;;
  if finalizer_eqb finalizer (Some lisp_sqlite_free) then ret (Q "t")
  else if finalizer_eqb finalizer (Some lisp_statement_free) then ret (Q "t")
  else ret (Q "nil").

Definition Fsqlite_available_p (args : list emacs_value) : M emacs_value :=
  ret (Q "t").

End Module.

(** ** The functions registered by [emacs_module_init] *)

Inductive subr :=
| sqlite_open | sqlite_close | sqlite_execute | sqlite_select
| sqlite_transaction | sqlite_commit | sqlite_rollback | sqlite_pragma
| sqlite_next | sqlite_columns | sqlite_more_p | sqlite_finalize
| sqlitep | sqlite_available_p.

Definition min_arity (f : subr) : nat :=
  match f with
  | sqlite_open | sqlite_available_p => 0
  | sqlite_execute | sqlite_select | sqlite_pragma => 2
  | _ => 1
  end.

Definition max_arity (f : subr) : nat :=
  match f with
  | sqlite_available_p => 0
  | sqlite_open => 1
  | sqlite_execute => 3
  | sqlite_select => 4
  | sqlite_pragma => 2
  | _ => 1
  end.

Definition subr_function (E : sqlite3) (H : host) (fuel : nat) (f : subr)
  : list emacs_value -> M emacs_value :=
  match f with
  | sqlite_open => Fsqlite_open E H
  | sqlite_close => Fsqlite_close E
  | sqlite_execute => Fsqlite_execute E H
  | sqlite_select => Fsqlite_select E H fuel
  | sqlite_transaction => Fsqlite_transaction E
  | sqlite_commit => Fsqlite_commit E
  | sqlite_rollback => Fsqlite_rollback E
  | sqlite_pragma => Fsqlite_pragma E H
  | sqlite_next => Fsqlite_next E
  | sqlite_columns => Fsqlite_columns E
  | sqlite_more_p => Fsqlite_more_p
  | sqlite_finalize => Fsqlite_finalize E
  | sqlitep => Fsqlitep
  | sqlite_available_p => Fsqlite_available_p
  end.

(** What the Lisp caller gets: the value, or the signal if a non-local exit
    is pending when the function returns. *)
Inductive result :=
| Returned (v : emacs_value)
| Raised (s : signal).

(** A call from Lisp: the arity is checked, the function is entered with no
    exit pending, and the exit it leaves is delivered to the caller. *)
Definition funcall (E : sqlite3) (H : host) (fuel : nat) (f : subr)
    (args : list emacs_value) : M result :=
  fun w =>
    if (min_arity f <=? List.length args)%nat && (List.length args <=? max_arity f)%nat
    then
      match subr_function E H fuel f args (set_pending None w) with
      | Ret v w' =>
          match pending w' with
          | Some s => Ret (Raised s) (set_pending None w')
          | None => Ret (Returned v) w'
          end
      | Fault w' => Fault w'
      | Hang w' => Hang w'
      end
    else Ret (Raised ("wrong-number-of-arguments", [Integer (nargs args)])) w.

(** A sequence of calls from Lisp, with the result of each. *)
Fixpoint run (E : sqlite3) (H : host) (fuel : nat)
    (calls : list (subr * list emacs_value)) : M (list result) :=
  match calls with
  | [] => ret []
  | (f, args) :: rest =>
      r <- funcall E H fuel f args ;;
      rs <- run E H fuel rest ;;
      ret (r :: rs)
  end.

(** The world when the module is loaded. *)
Definition initial_world : world :=
  {| pending := None; sqlites := []; statements := []; db_count := 0; trace := [] |}.

(** ** What the engine holds for a bound parameter

    The storage classes of the sqlite3 documentation: a bind call sets the
    parameter to a NULL, an integer, a float, a text or a blob of the first
    [n] bytes of the buffer. *)
Inductive cell :=
| Cell_null
| Cell_integer (n : Z)
| Cell_float (bits : Z)
| Cell_text (bytes : string)
| Cell_blob (bytes : string).

Definition bound_cell (c : native_call) : option cell :=
  match c with
  | Sqlite3_bind_int64 _ _ v | Sqlite3_bind_int _ _ v => Some (Cell_integer v)
  | Sqlite3_bind_double _ _ bits => Some (Cell_float bits)
  | Sqlite3_bind_null _ _ => Some Cell_null
  | Sqlite3_bind_text _ _ (Some data) n => Some (Cell_text (bytes_prefix n data))
  | Sqlite3_bind_blob _ _ (Some data) n => Some (Cell_blob (bytes_prefix n data))
  | Sqlite3_bind_text _ _ None _ | Sqlite3_bind_blob _ _ None _ => Some Cell_null
  | _ => None
  end.

Definition byte_length (s : string) : Z := Z.of_nat (String.length s).

(** Column [i] of the current row of [stmt] reads as the cell [c] after the
    effects [h]. *)
Definition column_is (E : sqlite3) (h : list native_call) (stmt : pointer) (i : Z)
    (c : cell) : Prop :=
  match c with
  | Cell_null => result_int E h (Sqlite3_column_type stmt i) = SQLITE_NULL
  | Cell_integer n =>
      result_int E h (Sqlite3_column_type stmt i) = SQLITE_INTEGER /\
      result_int E h (Sqlite3_column_int64 stmt i) = n
  | Cell_float bits =>
      result_int E h (Sqlite3_column_type stmt i) = SQLITE_FLOAT /\
      result_int E h (Sqlite3_column_double stmt i) = bits
  | Cell_text bytes =>
      result_int E h (Sqlite3_column_type stmt i) = SQLITE_TEXT /\
      result_text E h (Sqlite3_column_text stmt i) = bytes /\
      result_int E h (Sqlite3_column_bytes stmt i) = byte_length bytes
  | Cell_blob bytes =>
      result_int E h (Sqlite3_column_type stmt i) = SQLITE_BLOB /\
      result_text E h (Sqlite3_column_blob stmt i) = bytes /\
      result_int E h (Sqlite3_column_bytes stmt i) = byte_length bytes
  end.

(** ** A scripted engine, for running the module

    Statuses come from a script; the columns of a row echo the parameters
    bound last, as for [select ?, ?, ...]. *)
Record script := {
  open_status : Z;
  prepare_status : Z;
  prepare_stmt : pointer;
  bind_status : Z;
  step_statuses : list Z;     (* of the first, second, ... step; then SQLITE_DONE *)
  exec_status : Z;
  message : string;           (* sqlite3_errmsg *)
  changed : Z;                (* sqlite3_changes *)
  column_labels : list string
}.

Definition is_step (c : native_call) : bool :=
  match c with
  | Sqlite3_step _ => true
  | _ => false
  end.

Definition binds_parameter (i : Z) (c : native_call) : bool :=
  match c with
  | Sqlite3_bind_blob _ j _ _ | Sqlite3_bind_text _ j _ _
  | Sqlite3_bind_int64 _ j _ | Sqlite3_bind_double _ j _
  | Sqlite3_bind_null _ j | Sqlite3_bind_int _ j _ => j =? i
  | _ => false
  end.

(** The cell of the last bind of parameter [i]. *)
Definition parameter (h : list native_call) (i : Z) : cell :=
  match find (binds_parameter i) (rev h) with
  | Some c => match bound_cell c with
              | Some x => x
              | None => Cell_null
              end
  | None => Cell_null
  end.

Definition cell_type (c : cell) : Z :=
  match c with
  | Cell_null => SQLITE_NULL
  | Cell_integer _ => SQLITE_INTEGER
  | Cell_float _ => SQLITE_FLOAT
  | Cell_text _ => SQLITE_TEXT
  | Cell_blob _ => SQLITE_BLOB
  end.

Definition scripted (s : script) : sqlite3 :=
  {| result_code := fun h c =>
       match c with
       | Sqlite3_open_v2 _ _ => open_status s
       | Sqlite3_prepare_v2 _ _ _ => prepare_status s
       | Sqlite3_step _ =>
           nth (List.length (filter is_step h)) (step_statuses s) SQLITE_DONE
       | Sqlite3_exec _ _ => exec_status s
       | Sqlite3_bind_blob _ _ _ _ | Sqlite3_bind_text _ _ _ _
       | Sqlite3_bind_int64 _ _ _ | Sqlite3_bind_double _ _ _
       | Sqlite3_bind_null _ _ | Sqlite3_bind_int _ _ _ => bind_status s
       | _ => SQLITE_OK
       end;
     result_ptr := fun h c =>
       match c with
       | Sqlite3_open_v2 _ _ => Some (List.length h)
       | Sqlite3_prepare_v2 _ _ _ => prepare_stmt s
       | _ => None
       end;
     result_int := fun h c =>
       match c with
       | Sqlite3_changes _ => changed s
       | Sqlite3_column_count _ => Z.of_nat (List.length (column_labels s))
       | Sqlite3_column_type _ i => cell_type (parameter h (i + 1))
       | Sqlite3_column_int64 _ i =>
           match parameter h (i + 1) with Cell_integer n => n | _ => 0 end
       | Sqlite3_column_double _ i =>
           match parameter h (i + 1) with Cell_float d => d | _ => 0 end
       | Sqlite3_column_bytes _ i =>
           match parameter h (i + 1) with
           | Cell_text b | Cell_blob b => byte_length b
           | _ => 0
           end
       | _ => 0
       end;
     result_text := fun h c =>
       match c with
       | Sqlite3_errmsg _ => message s
       | Sqlite3_column_blob _ i | Sqlite3_column_text _ i =>
           match parameter h (i + 1) with
           | Cell_text b | Cell_blob b => b
           | _ => ""
           end
       | Sqlite3_column_name _ i =>
           if i <? 0 then "" else nth (Z.to_nat i) (column_labels s) ""
       | _ => ""
       end |}.

(** Host services that pass their argument through. *)
Definition plain_host : host :=
  {| expand_file_name := fun name _ =>
       match name with
       | Str _ => inr name
       | _ => inl (wrong_type "stringp" name)
       end;
     encode_coding_string := fun value _ =>
       match value with
       | Str s => inr (Str (mk_string (byte_length (sdata s)) (sdata s) None))
       | _ => inl (wrong_type "stringp" value)
       end;
     concat := fun a b =>
       match a, b with
       | Str x, Str y =>
           inr (Str (mk_string (schars x + schars y) (sdata x ++ sdata y)%string None))
       | _, _ => inl (wrong_type "sequencep" b)
       end;
     sqlite_prepare_errdata := fun _ _ => "prepare failed" |}.

Definition quiet : script :=
  {| open_status := SQLITE_OK; prepare_status := SQLITE_OK; prepare_stmt := Some 1%nat;
     bind_status := SQLITE_OK; step_statuses := []; exec_status := SQLITE_OK;
     message := "not an error"; changed := 1; column_labels := [] |}.

(** A string without text properties. *)
Definition text (s : string) : emacs_value := Str (mk_string (utf8_chars s) s None).

(** * Definitions used by the properties *)

(** ** Signals of the module *)

Definition error_signal (msg : string) : signal := ("error", [text msg]).

Definition raise (s : signal) (w : world) : world := set_pending (Some s) w.

(** What [lisp_sqlite_check] does with a value, by cases on the value.  The
    module makes a handle only with its struct allocated; a handle without
    one would be a wild pointer. *)
Definition sqlite_validation (v : emacs_value) (w : world) : outcome pointer :=
  match v with
  | User_ptr (Some lisp_sqlite_free) p =>
      match nth_error (sqlites w) p with
      | Some {| sq_db := Some _ |} => Ret (Some p) w
      | Some {| sq_db := None |} => Ret None (raise (error_signal "Database closed") w)
      | None => Fault w
      end
  | User_ptr (Some lisp_statement_free) _ =>
      Ret None (raise (error_signal "Invalid database object") w)
  | _ => Ret None (raise (wrong_type "sqlitep" v) w)
  end.

Definition statement_validation (v : emacs_value) (w : world) : outcome pointer :=
  match v with
  | User_ptr (Some lisp_statement_free) p =>
      match nth_error (statements w) p with
      | Some {| st_stmt := Some _ |} => Ret (Some p) w
      | Some {| st_stmt := None |} => Ret None (raise (error_signal "Statement closed") w)
      | None => Fault w
      end
  | User_ptr (Some lisp_sqlite_free) _ =>
      Ret None (raise (error_signal "Invalid set object") w)
  | _ => Ret None (raise (wrong_type "sqlitep" v) w)
  end.

Definition world_of {A} (o : outcome A) : world :=
  match o with
  | Ret _ w | Fault w | Hang w => w
  end.

Definition any_call (c : native_call) : bool := true.

(** The calls of [bind_values]. *)
Definition binding_call (c : native_call) : bool :=
  match c with
  | Sqlite3_reset _ | Sqlite3_errmsg _
  | Sqlite3_bind_blob _ _ _ _ | Sqlite3_bind_text _ _ _ _
  | Sqlite3_bind_int64 _ _ _ | Sqlite3_bind_double _ _ _
  | Sqlite3_bind_null _ _ | Sqlite3_bind_int _ _ _ => true
  | _ => false
  end.

Definition sqlite_handle (a : nat) : emacs_value := User_ptr (Some lisp_sqlite_free) a.

Definition statement_handle (a : nat) : emacs_value := User_ptr (Some lisp_statement_free) a.

Definition closed_connection (w : world) (a : nat) : Prop :=
  nth_error (sqlites w) a = Some {| sq_db := None |}.

(** The world after one anonymous open and the close of its handle. *)
Definition closed_world : world :=
  {| pending := None; sqlites := [{| sq_db := None |}]; statements := [];
     db_count := 1;
     trace := [Sqlite3_open_v2 ":memory:1" 65734; Sqlite3_close (Some 0%nat)] |}.

(** The world [w'] comes after [w]: what the functions of the module keep.
    The counter never decreases, a statement struct stays allocated and its
    end-of-data flag stays set, a closed connection struct stays closed, and
    the log only grows, by calls of the class [P]. *)
Record evolves (P : native_call -> bool) (w w' : world) : Prop := {
  ev_db_count : db_count w <= db_count w';
  ev_eof : forall a s, nth_error (statements w) a = Some s ->
                       exists s', nth_error (statements w') a = Some s' /\
                                  (st_eof s = true -> st_eof s' = true);
  ev_closed : forall a, nth_error (sqlites w) a = Some {| sq_db := None |} ->
                        nth_error (sqlites w') a = Some {| sq_db := None |};
  ev_trace : exists l, trace w' = trace w ++ l /\ forallb P l = true
}.

Definition preserves {A} (P : native_call -> bool) (m : M A) : Prop :=
  forall w, evolves P w (world_of (m w)).

Definition open_connection (w : world) (a : nat) (d : nat) : Prop :=
  nth_error (sqlites w) a = Some {| sq_db := Some d |}.

(** An open without a storage target: no argument, or nil. *)
Definition anonymous (args : list emacs_value) : bool :=
  match args with
  | [] => true
  | [v] => eq_value v Qnil
  | _ => false
  end.

(** The name and the flags of an anonymous in-memory open. *)
Definition memory_name (n : Z) : string := (":memory:" ++ decimal n)%string.
Definition memory_flags : Z := Z.lor open_flags SQLITE_OPEN_MEMORY.

(** The cursor world: an anonymous open, a select in [set] mode and a
    [sqlite-next] that met the end of the data. *)
Definition exhausted_cursor_world : world :=
  world_of (run (scripted quiet) plain_host 1
              [(sqlite_open, []);
               (sqlite_select, [sqlite_handle 0; text "select 1"; Qnil; Q "set"]);
               (sqlite_next, [statement_handle 0])]
              initial_world).

(** ** The parts of [Fsqlite_execute] *)

(** The test of VALUES: absent, nil, a cons or a vector. *)
Definition acceptable_values (rest : list emacs_value) : bool :=
  match rest with
  | [] => true
  | v :: _ =>
      eq_value v Qnil || String.eqb (type_name v) "cons"
      || String.eqb (type_name v) "vector"
  end.

(** "Bind ? values": [bind_values] when VALUES is there and not nil. *)
Definition bind_parameters (E : sqlite3) (H : host) (db stmt : pointer)
    (rest : list emacs_value) : M (option string) :=
  match rest with
  | [] => ret None
  | v :: _ => if eq_value v Qnil then ret None else bind_values E H db stmt v
  end.

(** The step, the finalize and the return of [Fsqlite_execute]. *)
Definition execute_step (E : sqlite3) (db stmt : pointer) : M emacs_value :=
  rc <- sqlite3_step E stmt ;;
  sqlite3_finalize E stmt ;;;
  if negb (rc =? SQLITE_OK) && negb (rc =? SQLITE_DONE) then
    errmsg <- sqlite3_errmsg E db ;;
    execute_exit rc errmsg
  else
    n <- sqlite3_changes E db ;;
    make_int n.

(** [Fsqlite_execute] after a prepare that returned [SQLITE_OK]. *)
Definition execute_statement (E : sqlite3) (H : host) (db stmt : pointer)
    (rest : list emacs_value) : M emacs_value :=
  err <- bind_parameters E H db stmt rest ;;
  match err with
  | Some e => execute_exit SQLITE_OK e
  | None => execute_step E db stmt
  end.

(** [Fsqlite_execute] after a prepare that returned [rc], not [SQLITE_OK]. *)
Definition execute_prepare_failed (E : sqlite3) (db stmt : pointer) (rc : Z)
  : M emacs_value :=
  (if negb (is_null stmt) then
     sqlite3_finalize E stmt ;;; sqlite3_reset E stmt ;;; ret tt
   else ret tt) ;;;
  errmsg <- sqlite3_errmsg E db ;;
  execute_exit rc errmsg.

(** The prepare call of [Fsqlite_execute] for the SQL string [sql]. *)
Definition execute_prepare (db : pointer) (sql : lisp_string) : native_call :=
  Sqlite3_prepare_v2 db (c_string (sdata sql ++ NUL)) (-1).

(** The failure [Fsqlite_execute] raises at its [exit:] label for the status
    [rc] and the message [msg]. *)
Definition execute_failure (rc : Z) (msg : string) : signal :=
  (if (rc =? SQLITE_LOCKED) || (rc =? SQLITE_BUSY) then "sqlite_locked_error"
   else "error",
   [text (c_string msg)]).

(** The world after one anonymous open on the scripted engine. *)
Definition open_world : world :=
  world_of (run (scripted quiet) plain_host 1 [(sqlite_open, [])] initial_world).

(** The insert of the example: one row of two parameters. *)
Definition insert_args : list emacs_value :=
  [sqlite_handle 0; text "insert into t values (?, ?)"; Vector [Integer 1; text "x"]].

(** Scripts of an engine that is busy at prepare time, and at step time. *)
Definition busy_at_prepare : script :=
  {| open_status := SQLITE_OK; prepare_status := SQLITE_BUSY; prepare_stmt := None;
     bind_status := SQLITE_OK; step_statuses := []; exec_status := SQLITE_OK;
     message := "database is locked"; changed := 0; column_labels := [] |}.

Definition busy_at_step : script :=
  {| open_status := SQLITE_OK; prepare_status := SQLITE_OK; prepare_stmt := Some 1%nat;
     bind_status := SQLITE_OK; step_statuses := [SQLITE_BUSY]; exec_status := SQLITE_OK;
     message := "database is locked"; changed := 0; column_labels := [] |}.

(** The message the engine holds for [db] in the world [w]. *)
Definition current_message (E : sqlite3) (db : pointer) (w : world) : string :=
  result_text E (effects (trace w)) (Sqlite3_errmsg db).

(** ** The parts of [Fsqlite_select] *)

(** The prepare call of [Fsqlite_select] for the SQL string [sql]. *)
Definition select_prepare (db : pointer) (sql : lisp_string) : native_call :=
  Sqlite3_prepare_v2 db (sdata sql ++ NUL) (to_int (byte_length (sdata sql) + 1)).

(** "Query with parameters": a failed [bind_values] finalizes the statement. *)
Definition select_bind (E : sqlite3) (H : host) (db stmt : pointer)
    (rest : list emacs_value) : M (option string) :=
  err <- bind_parameters E H db stmt rest ;;
  match err with
  | Some e => sqlite3_finalize E stmt ;;; ret (Some e)
  | None => ret None
  end.

(** [Fsqlite_select] after its parameters are bound. *)
Definition select_rows (E : sqlite3) (fuel : nat) (db stmt : pointer)
    (args : list emacs_value) : M emacs_value :=
  set <- (if nargs args >? 3 then EQ (arg args 3) (Q "set") else ret false) ;;
  if set : bool then lisp_statement_make db stmt
  else
    '(_, retval) <- select_loop E fuel stmt (Q "nil") ;;
    retval <- call_nreverse retval ;;
    full <- (if nargs args >? 3 then EQ (arg args 3) (Q "full") else ret false) ;;
    retval <- (if full : bool then
                 columns <- column_names E stmt ;;
                 call_cons columns retval
               else ret retval) ;;
    sqlite3_finalize E stmt ;;;
    ret retval.

(** [Fsqlite_select] after a prepare that returned [SQLITE_OK]. *)
Definition select_statement (E : sqlite3) (H : host) (fuel : nat) (db stmt : pointer)
    (args : list emacs_value) : M emacs_value :=
  err <- select_bind E H db stmt (skipn 2 args) ;;
  match err with
  | Some e => select_exit e
  | None => select_rows E fuel db stmt args
  end.

(** [Fsqlite_select] after a prepare that returned [rc], not [SQLITE_OK]. *)
Definition select_prepare_failed (E : sqlite3) (H : host) (stmt : pointer) (rc : Z)
  : M emacs_value :=
  (if negb (is_null stmt) then sqlite3_finalize E stmt ;;; ret tt else ret tt) ;;;
  errmsg <- (fun w => Ret (sqlite_prepare_errdata H rc (effects (trace w))) w) ;;
  select_exit errmsg.

(** A parameter the codec rejects: a symbol other than nil, t and false. *)
Definition bad_insert_args : list emacs_value :=
  [sqlite_handle 0; text "insert into t values (?)"; Vector [Q "foo"]].

(** ** The codec *)

(** A bind call followed by the status test of the loop of [bind_values]. *)
Definition bound (E : sqlite3) (db : pointer) (c : native_call) : M (option string) :=
  rc <- native_code E c ;;
  bind_status_test E db (inr rc).

(** The Bound Values of the codec. *)
Inductive bound_value :=
| Null
| Int (n : Z)
| Real (bits : Z)
| Text (bytes : string)
| Blob (bytes : string)
| Boolean (b : bool).

(** The host value that binds as a Bound Value: a string without text
    properties for a Text, a unibyte string tagged [binary] for a Blob, [t]
    and [false] for the Booleans. *)
Definition to_bind (b : bound_value) : emacs_value :=
  match b with
  | Null => Qnil
  | Int n => Integer n
  | Real bits => Float bits
  | Text bytes => text bytes
  | Blob bytes => Str (mk_string (byte_length bytes) bytes (Some "binary"))
  | Boolean true => Q "t"
  | Boolean false => Q "false"
  end.

(** Integers are 64-bit; the byte count of a bind call is an [int]; the tag
    of a Blob is a text property, which an empty string cannot carry. *)
Definition bindable (b : bound_value) : Prop :=
  match b with
  | Int n => INTMAX_MIN <= n <= INTMAX_MAX
  | Text bytes => byte_length bytes <= INT_MAX
  | Blob bytes => 0 < byte_length bytes <= INT_MAX
  | _ => True
  end.

(** The bind call of [bind_values] for a Bound Value as parameter [i + 1]. *)
Definition bind_call (stmt : pointer) (i : Z) (b : bound_value) : native_call :=
  match b with
  | Null => Sqlite3_bind_null stmt (i + 1)
  | Int n => Sqlite3_bind_int64 stmt (i + 1) n
  | Real bits => Sqlite3_bind_double stmt (i + 1) bits
  | Text bytes =>
      Sqlite3_bind_text stmt (i + 1) (Some (bytes ++ NUL)%string) (byte_length bytes)
  | Blob bytes =>
      Sqlite3_bind_blob stmt (i + 1) (Some (bytes ++ NUL)%string) (byte_length bytes)
  | Boolean true => Sqlite3_bind_int stmt (i + 1) 1
  | Boolean false => Sqlite3_bind_int stmt (i + 1) 0
  end.

(** What comes back: a Boolean comes back as the Integer 1 or 0. *)
Definition decoded (b : bound_value) : bound_value :=
  match b with
  | Boolean true => Int 1
  | Boolean false => Int 0
  | _ => b
  end.

(** The cell of the engine for a Bound Value. *)
Definition cell_of (b : bound_value) : cell :=
  match decoded b with
  | Null | Boolean _ => Cell_null
  | Int n => Cell_integer n
  | Real bits => Cell_float bits
  | Text bytes => Cell_text bytes
  | Blob bytes => Cell_blob bytes
  end.

(** The host's [equal]: strings are compared by their characters and bytes,
    text properties are ignored. *)
Definition string_equal (a b : lisp_string) : bool :=
  (schars a =? schars b) && String.eqb (sdata a) (sdata b).

Fixpoint lisp_equal (a b : emacs_value) : bool :=
  match a, b with
  | Symbol x, Symbol y => String.eqb x y
  | Integer x, Integer y => x =? y
  | Float x, Float y => x =? y
  | Str x, Str y => string_equal x y
  | Cons a1 d1, Cons a2 d2 => lisp_equal a1 a2 && lisp_equal d1 d2
  | Vector l1, Vector l2 =>
      (fix all2 (l1 l2 : list emacs_value) : bool :=
         match l1, l2 with
         | [], [] => true
         | x :: l1', y :: l2' => lisp_equal x y && all2 l1' l2'
         | _, _ => false
         end) l1 l2
  | User_ptr f p, User_ptr g q => finalizer_eqb f g && Nat.eqb p q
  | _, _ => false
  end.

(** The signal of a Blob that is not unibyte. *)
Definition blob_error : signal := error_signal "BLOB values must be unibyte".

(** The host value [row_to_value] makes of a cell. *)
Definition value_of_cell (c : cell) : emacs_value :=
  match c with
  | Cell_null => Q "nil"
  | Cell_integer n => Integer n
  | Cell_float bits => Float bits
  | Cell_text bytes => text bytes
  | Cell_blob bytes => Str (mk_string (byte_length bytes) bytes None)
  end.

(** A one-character string of two bytes (U+00E9 in UTF-8), tagged [binary]. *)
Definition multibyte_blob : lisp_string :=
  mk_string 1 (String (ascii_of_nat 195) (String (ascii_of_nat 169) EmptyString))
    (Some "binary").

(** Bind [v] as parameter [i + 1] and read column [i] back. *)
Definition round_trip (E : sqlite3) (H : host) (db stmt : pointer) (i : Z)
    (v : emacs_value) : M emacs_value :=
  bind_value E H db stmt i v ;;;
  column_value E stmt i.

(** [encode-coding-string] for [latin-1], on the UTF-8 bytes of characters
    below U+0100: C2 xx is xx, C3 xx is xx + 64. *)
Fixpoint latin1_bytes (s : string) : string :=
  match s with
  | EmptyString => EmptyString
  | String a t =>
      match t with
      | String b rest =>
          if (N_of_ascii a =? 194)%N then String b (latin1_bytes rest)
          else if (N_of_ascii a =? 195)%N
               then String (ascii_of_N (N_of_ascii b + 64)) (latin1_bytes rest)
               else String a (latin1_bytes t)
      | EmptyString => String a EmptyString
      end
  end.

(** A host that encodes [latin-1], and passes other strings through. *)
Definition latin1_host : host :=
  {| expand_file_name := expand_file_name plain_host;
     encode_coding_string := fun value cs =>
       match value with
       | Str s =>
           if eq_value cs (Q "latin-1")
           then inr (Str (mk_string (schars s) (latin1_bytes (sdata s)) None))
           else encode_coding_string plain_host value cs
       | _ => inl (wrong_type "stringp" value)
       end;
     concat := concat plain_host;
     sqlite_prepare_errdata := sqlite_prepare_errdata plain_host |}.

(** The one-character string of [multibyte_blob], tagged [latin-1]. *)
Definition latin1_text : lisp_string :=
  mk_string 1 (String (ascii_of_nat 195) (String (ascii_of_nat 169) EmptyString))
    (Some "latin-1").

(** * Definitions used by the further properties *)

(** ** The finalizers

    [free(ptr)]: the storage of the struct is given back.  The store of the
    model never hands out an address twice ([malloc_sqlite] and
    [malloc_statement] take the next one), so the entry is kept; the host
    runs a finalizer once, when no handle refers to the struct any more. *)
Definition free (ptr : pointer) : M unit := ret tt.

Module Finalizer.

Definition lisp_sqlite_free (E : sqlite3) (arg : pointer) : M unit :=
  s <- load_sqlite arg ;;
  (if negb (is_null (sq_db s)) then sqlite3_close E (sq_db s) ;;; ret tt
   else ret tt) ;;;
  free arg.

Definition lisp_statement_free (E : sqlite3) (arg : pointer) : M unit :=
  s <- load_statement arg ;;
  (if negb (is_null (st_stmt s)) then sqlite3_finalize E (st_stmt s) ;;; ret tt
   else ret tt) ;;;
  free arg.

End Finalizer.

(** The collector on a value that has become unreachable: the finalizer of
    a user pointer is called on the pointer. *)
Definition collect (E : sqlite3) (v : emacs_value) : M unit :=
  match v with
  | User_ptr (Some lisp_sqlite_free) p => Finalizer.lisp_sqlite_free E (Some p)
  | User_ptr (Some lisp_statement_free) p => Finalizer.lisp_statement_free E (Some p)
  | _ => ret tt
  end.

(** ** Relations between the world before and after *)

Definition respects {A} (R : world -> world -> Prop) (m : M A) : Prop :=
  forall w, R w (world_of (m w)).

(** A struct keeps the native object it was made for until the handle is
    closed, and is closed from then on. *)
Record stable (w w' : world) : Prop := {
  stable_sqlite : forall a s,
    nth_error (sqlites w) a = Some s ->
    nth_error (sqlites w') a = Some s \/
    nth_error (sqlites w') a = Some {| sq_db := None |};
  stable_statement : forall a s,
    nth_error (statements w) a = Some s ->
    exists s', nth_error (statements w') a = Some s' /\
               st_db s' = st_db s /\
               (st_stmt s' = st_stmt s \/ st_stmt s' = None)
}.

(** The structs and the counter are as they were. *)
Definition same_handles (w w' : world) : Prop :=
  sqlites w' = sqlites w /\ statements w' = statements w /\ db_count w' = db_count w.

Definition same_count (w w' : world) : Prop := db_count w' = db_count w.

Definition closed_statement (w : world) (a : nat) : Prop :=
  exists s, nth_error (statements w) a = Some s /\ st_stmt s = None.

Definition open_statement (w : world) (a : nat) (db : pointer) (p : nat) (eof : bool)
  : Prop :=
  nth_error (statements w) a = Some {| st_db := db; st_stmt := Some p; st_eof := eof |}.

(** The anonymous opens among the calls that pass the arity check. *)
Fixpoint anonymous_opens (calls : list (subr * list emacs_value)) : Z :=
  match calls with
  | [] => 0
  | (sqlite_open, args) :: rest =>
      (if anonymous args then 1 else 0) + anonymous_opens rest
  | _ :: rest => anonymous_opens rest
  end.

(** [Fsqlite_open] once the name and the flags are chosen. *)
Definition open_file (E : sqlite3) (name : emacs_value) (flags : Z) : M emacs_value :=
  '(_, size) <- copy_string_contents name false 0 ;;
  '(encoded, _) <- copy_string_contents name true size ;;
  filename <- initialised encoded ;;
  '(rc, sdb) <- sqlite3_open_v2 E (c_string filename) flags ;;
  if negb (rc =? SQLITE_OK) then ret (Q "nil")
  else lisp_sqlite_make sdb.

(** The functions that allocate a struct or write to one. *)
Definition writes_handles (f : subr) : bool :=
  match f with
  | sqlite_open | sqlite_close | sqlite_select | sqlite_next | sqlite_finalize => true
  | _ => false
  end.

(** The world after an anonymous open and a select in [set] mode. *)
Definition cursor_world : world :=
  world_of (run (scripted quiet) plain_host 1
              [(sqlite_open, []);
               (sqlite_select, [sqlite_handle 0; text "select 1"; Qnil; Q "set"])]
              initial_world).

(** The end of [Fsqlite_open] for the call [c] of [sqlite3_open_v2]: a
    handle at the next address on [SQLITE_OK], nil otherwise. *)
Definition opened (E : sqlite3) (c : native_call) (w : world) : outcome emacs_value :=
  if result_code E (effects (trace w)) c =? SQLITE_OK
  then Ret (sqlite_handle (List.length (sqlites w)))
           (set_sqlites (sqlites w ++ [{| sq_db := result_ptr E (effects (trace w)) c |}])
                        (log c w))
  else Ret (Q "nil") (log c w).

(** One [sqlite3_exec] of [sql], and [t] or nil for its status. *)
Definition executed (E : sqlite3) (db : pointer) (sql : string) (w : world)
  : outcome emacs_value :=
  Ret (if result_code E (effects (trace w)) (Sqlite3_exec db sql) =? SQLITE_OK
       then Q "t" else Q "nil")
      (log (Sqlite3_exec db sql) w).

(** The handles of the module: user pointers with one of its finalizers. *)
Definition module_handle (v : emacs_value) : bool :=
  match v with
  | User_ptr (Some lisp_sqlite_free) _ | User_ptr (Some lisp_statement_free) _ => true
  | _ => false
  end.

(** The struct of a connection after [Fsqlite_close]. *)
Definition close_struct (a : nat) (w : world) : world :=
  set_sqlites (update (sqlites w) a {| sq_db := None |}) w.

(** The values [length] accepts at a glance: nil, a cons, a vector, a
    string. *)
Definition sequence (v : emacs_value) : bool :=
  eq_value v Qnil || String.eqb (type_name v) "cons"
  || String.eqb (type_name v) "vector" || String.eqb (type_name v) "string".

(** The struct of a cursor that [lisp_statement_make] allocates. *)
Definition new_cursor (db stmt : pointer) (w : world) : world :=
  set_statements (statements w ++ [{| st_db := db; st_stmt := stmt; st_eof := false |}]) w.

(** ** Rows and tables of the engine *)

(** The current row of [stmt] reads as [cells] after the effects [h]. *)
Definition row_is (E : sqlite3) (h : list native_call) (stmt : pointer)
    (cells : list cell) : Prop :=
  result_int E h (Sqlite3_column_count stmt) = Z.of_nat (List.length cells) /\
  forall i c, nth_error cells i = Some c -> column_is E h stmt (Z.of_nat i) c.

(** The columns of [stmt] are named [names] after the effects [h]. *)
Definition names_are (E : sqlite3) (h : list native_call) (stmt : pointer)
    (names : list string) : Prop :=
  result_int E h (Sqlite3_column_count stmt) = Z.of_nat (List.length names) /\
  forall i n, nth_error names i = Some n ->
              result_text E h (Sqlite3_column_name stmt (Z.of_nat i)) = n.

(** The list that [row_to_value] makes of a row, and the list of strings
    that [column_names] makes of the names. *)
Definition row_value (cells : list cell) : emacs_value :=
  value_of_list (map value_of_cell cells).

Definition names_value (names : list string) : emacs_value :=
  value_of_list (map (fun n => text (c_string n)) names).

(** From the effects [h] on, stepping [stmt] yields the rows of [table], one
    at each step, and then a status that is not [SQLITE_ROW]. *)
Fixpoint yields (E : sqlite3) (stmt : pointer) (h : list native_call)
    (table : list (list cell)) : Prop :=
  match table with
  | [] => result_code E h (Sqlite3_step stmt) <> SQLITE_ROW
  | row :: rest =>
      result_code E h (Sqlite3_step stmt) = SQLITE_ROW /\
      row_is E (h ++ [Sqlite3_step stmt]) stmt row /\
      yields E stmt (h ++ [Sqlite3_step stmt]) rest
  end.

(** A script of two columns: the first step of the engine ends an insert,
    the next two yield a row each. *)
Definition two_rows : script :=
  {| open_status := SQLITE_OK; prepare_status := SQLITE_OK; prepare_stmt := Some 1%nat;
     bind_status := SQLITE_OK; step_statuses := [SQLITE_DONE; SQLITE_ROW; SQLITE_ROW];
     exec_status := SQLITE_OK; message := "not an error"; changed := 1;
     column_labels := ["id"; "name"] |}.

(** The world after an anonymous open and an insert of the row (7, "x"). *)
Definition inserted_world : world :=
  world_of (run (scripted two_rows) plain_host 1
              [(sqlite_open, []);
               (sqlite_execute,
                [sqlite_handle 0; text "insert into t values (?, ?)";
                 Vector [Integer 7; text "x"]])]
              initial_world).

(** ** The calls of [bind_values] *)

(** The bind calls for the Bound Values [bs] as the parameters [i + 1],
    [i + 2], ... *)
Fixpoint bind_calls (stmt : pointer) (i : Z) (bs : list bound_value) : list native_call :=
  match bs with
  | [] => []
  | b :: rest => bind_call stmt i b :: bind_calls stmt (i + 1) rest
  end.

(** [n] calls of [sqlite3_bind_null], for the parameters [i + 1], ... *)
Fixpoint bind_nulls (stmt : pointer) (i : Z) (n : nat) : list native_call :=
  match n with
  | O => []
  | S n' => Sqlite3_bind_null stmt (i + 1) :: bind_nulls stmt (i + 1) n'
  end.

(** The world after the calls [cs] were logged. *)
Fixpoint logs (cs : list native_call) (w : world) : world :=
  match cs with
  | [] => w
  | c :: rest => logs rest (log c w)
  end.

(** From the effects [h] on, the engine returns [SQLITE_OK] for each of the
    calls. *)
Fixpoint accepted (E : sqlite3) (h : list native_call) (calls : list native_call) : Prop :=
  match calls with
  | [] => True
  | c :: rest => result_code E h c = SQLITE_OK /\ accepted E (h ++ [c]) rest
  end.

(** The calls one after the other, each with the status test of the loop,
    up to the first that fails it. *)
Fixpoint bind_all (E : sqlite3) (db : pointer) (calls : list native_call)
  : M (option string) :=
  match calls with
  | [] => ret None
  | c :: rest =>
      err <- bound E db c ;;
      match err with
      | Some e => ret (Some e)
      | None => bind_all E db rest
      end
  end.

(** The values that the loop of [bind_values] has a case for. *)
Definition supported (v : emacs_value) : bool :=
  match v with
  | Str _ | Integer _ | Float _ => true
  | Symbol name => String.eqb name "nil" || String.eqb name "t" || String.eqb name "false"
  | _ => false
  end.

(** The signal of [extract_integer] for an integer outside [intmax_t]. *)
Definition overflow (n : Z) : signal := ("overflow-error", [Integer n]).

(** ** Calls that do not fault *)

(** [m] has no undefined behaviour from the world [w]. *)
Definition safe_at {A} (m : M A) (w : world) : Prop := forall w', m w <> Fault w'.

Definition safe {A} (m : M A) : Prop := forall w, safe_at m w.

(** A handle of the module refers to a struct that has been allocated (the
    host makes such a value only by [lisp_sqlite_make] and
    [lisp_statement_make]). *)
Definition allocated (w : world) (v : emacs_value) : Prop :=
  match v with
  | User_ptr (Some lisp_sqlite_free) p => (p < List.length (sqlites w))%nat
  | User_ptr (Some lisp_statement_free) p => (p < List.length (statements w))%nat
  | _ => True
  end.

(** The length of every string in a value fits [intmax_t]. *)
Fixpoint sane (v : emacs_value) : Prop :=
  match v with
  | Str s => INTMAX_MIN <= schars s <= INTMAX_MAX
  | Cons a d => sane a /\ sane d
  | Vector l => (fix all (l : list emacs_value) : Prop :=
                   match l with
                   | [] => True
                   | x :: l' => sane x /\ all l'
                   end) l
  | _ => True
  end.

(** What a call needs, besides the arity, to have no undefined behaviour. *)
Definition valid_call (H : host) (f : subr) (args : list emacs_value) (w : world)
  : Prop :=
  match f with
  | sqlite_open =>
      if anonymous args then db_count w < INT_MAX
      else exists s, expand_file_name H (arg args 0) (Q "nil") = inr (Str s)
  | sqlite_transaction =>
      exists a d, arg args 0 = sqlite_handle a /\ open_connection w a d
  | sqlite_pragma =>
      allocated w (arg args 0) /\
      exists s, concat H (text "PRAGMA ") (arg args 1) = inr (Str s)
  | sqlite_execute | sqlite_select => allocated w (arg args 0) /\ sane (arg args 2)
  | sqlitep | sqlite_available_p => True
  | _ => allocated w (arg args 0)
  end.
(** * Properties *)

Lemma lisp_sqlite_check_cases (v : emacs_value) (w : world) :
  pending w = None -> lisp_sqlite_check v w = sqlite_validation v w.
Proof.
  destruct w as [p sq st dc tr]; simpl; intros ->.
  destruct v as [name|n|bits|s|a d|l|[[| |id]|] ptr]; try reflexivity.
  - cbv -[nth_error]. destruct (nth_error sq ptr) as [[[d|]]|]; reflexivity.
Qed.

Lemma lisp_statement_check_cases (v : emacs_value) (w : world) :
  pending w = None -> lisp_statement_check v w = statement_validation v w.
Proof.
  destruct w as [p sq st dc tr]; simpl; intros ->.
  destruct v as [name|n|bits|s|a d|l|[[| |id]|] ptr]; try reflexivity.
  - cbv -[nth_error]. destruct (nth_error st ptr) as [[sdb [d|] e]|]; reflexivity.
Qed.

(** ** How the world evolves *)

Section Evolution.

Variable P : native_call -> bool.

Local Abbreviation evolves := (evolves P).
Local Abbreviation preserves := (preserves P).

Lemma evolves_refl w : evolves w w.
Proof.
  split; [lia | eauto | auto | exists []; now rewrite app_nil_r].
Qed.

Lemma evolves_trans a b c : evolves a b -> evolves b c -> evolves a c.
Proof.
  intros [d1 e1 c1 (l1 & t1 & p1)] [d2 e2 c2 (l2 & t2 & p2)]; split.
  - lia.
  - intros x s Hs. destruct (e1 x s Hs) as (s1 & H1 & K1).
    destruct (e2 x s1 H1) as (s2 & H2 & K2). eauto.
  - auto.
  - exists (l1 ++ l2). rewrite t2, t1, app_assoc, forallb_app, p1, p2. auto.
Qed.

Lemma evolves_set_pending s w : evolves w (set_pending s w).
Proof.
  split; simpl; [lia | eauto | auto | exists []; now rewrite app_nil_r].
Qed.

Lemma evolves_log c w : P c = true -> evolves w (log c w).
Proof.
  intros Hc. split; simpl; [lia | eauto | auto |].
  exists [c]; simpl. now rewrite Hc.
Qed.

Lemma evolves_malloc_sqlite s w : evolves w (set_sqlites (sqlites w ++ [s]) w).
Proof.
  split; simpl; [lia | eauto | | exists []; now rewrite app_nil_r].
  intros a Ha. rewrite nth_error_app1; auto.
  apply nth_error_Some. congruence.
Qed.

Lemma evolves_malloc_statement s w : evolves w (set_statements (statements w ++ [s]) w).
Proof.
  split; simpl; [lia | | auto | exists []; now rewrite app_nil_r].
  intros a x Ha. exists x; split; auto. rewrite nth_error_app1; auto.
  apply nth_error_Some. congruence.
Qed.

Lemma nth_error_update_same {A} (l : list A) a x y :
  nth_error l a = Some y -> nth_error (update l a x) a = Some x.
Proof.
  revert a; induction l as [|h t IH]; intros [|a]; simpl; try discriminate; auto.
Qed.

Lemma nth_error_update_other {A} (l : list A) a b x :
  a <> b -> nth_error (update l a x) b = nth_error l b.
Proof.
  revert a b; induction l as [|h t IH]; intros [|a] [|b]; simpl; auto; try congruence.
Qed.

Lemma evolves_close a s w :
  nth_error (sqlites w) a = Some s ->
  evolves w (set_sqlites (update (sqlites w) a {| sq_db := None |}) w).
Proof.
  intros Hs; split; simpl; [lia | eauto | | exists []; now rewrite app_nil_r].
  intros b Hb. destruct (Nat.eq_dec a b) as [<-|Hab].
  - eapply nth_error_update_same; eauto.
  - rewrite nth_error_update_other; auto.
Qed.

Lemma evolves_store_statement a s stmt eof w :
  nth_error (statements w) a = Some s ->
  (st_eof s = true -> eof = true) ->
  evolves w (set_statements
               (update (statements w) a
                  {| st_db := st_db s; st_stmt := stmt; st_eof := eof |}) w).
Proof.
  intros Hs He; split; simpl; [lia | | auto | exists []; now rewrite app_nil_r].
  intros b x Hb. destruct (Nat.eq_dec a b) as [<-|Hab].
  - erewrite nth_error_update_same by eauto. eexists; split; eauto.
    simpl. intros Hx. apply He. congruence.
  - rewrite nth_error_update_other by auto. eauto.
Qed.

Lemma evolves_incr w : evolves w (set_db_count (db_count w + 1) w).
Proof.
  split; simpl; [lia | eauto | auto | exists []; now rewrite app_nil_r].
Qed.

Lemma preserves_ret {A} (a : A) : preserves (ret a).
Proof. intros w. apply evolves_refl. Qed.

Lemma preserves_fault {A} : preserves (@fault A).
Proof. intros w. apply evolves_refl. Qed.

Lemma preserves_hang {A} : preserves (fun w => @Hang A w).
Proof. intros w. apply evolves_refl. Qed.

Lemma preserves_bind {A B} (m : M A) (k : A -> M B) :
  preserves m -> (forall a, preserves (k a)) -> preserves (bind m k).
Proof.
  intros Hm Hk w. unfold bind. specialize (Hm w).
  destruct (m w) as [a w'| |]; simpl in *; auto.
  eapply evolves_trans; [exact Hm | apply Hk].
Qed.

Lemma preserves_env_fn {A} (failure : A) r : preserves (env_fn failure r).
Proof.
  intros w. unfold env_fn. destruct (pending w); [apply evolves_refl|].
  destruct r; simpl; [apply evolves_set_pending | apply evolves_refl].
Qed.

Lemma preserves_signal symbol data : preserves (non_local_exit_signal symbol data).
Proof.
  intros w. unfold non_local_exit_signal.
  destruct (pending w); [apply evolves_refl|].
  destruct symbol; simpl; apply evolves_set_pending.
Qed.

Lemma preserves_copy_string_contents value buf len :
  preserves (copy_string_contents value buf len).
Proof.
  intros w. unfold copy_string_contents.
  destruct (pending w); [apply evolves_refl|].
  destruct value; simpl; try apply evolves_set_pending.
  destruct buf; [|apply evolves_refl].
  destruct (_ <? _); simpl; [apply evolves_set_pending | apply evolves_refl].
Qed.

Lemma preserves_initialised buf : preserves (initialised buf).
Proof. destruct buf; [apply preserves_ret | apply preserves_fault]. Qed.

Lemma preserves_native_code E c : P c = true -> preserves (native_code E c).
Proof. intros Hc w. now apply evolves_log. Qed.

Lemma preserves_native_alloc E c : P c = true -> preserves (native_alloc E c).
Proof. intros Hc w. now apply evolves_log. Qed.

Lemma preserves_native_int E c : P c = true -> preserves (native_int E c).
Proof. intros Hc w. now apply evolves_log. Qed.

Lemma preserves_native_text E c : P c = true -> preserves (native_text E c).
Proof. intros Hc w. now apply evolves_log. Qed.

Lemma preserves_load_sqlite ptr : preserves (load_sqlite ptr).
Proof.
  intros w. unfold load_sqlite. destruct ptr; [|apply evolves_refl].
  destruct (nth_error _ _); apply evolves_refl.
Qed.

Lemma preserves_load_statement ptr : preserves (load_statement ptr).
Proof.
  intros w. unfold load_statement. destruct ptr; [|apply evolves_refl].
  destruct (nth_error _ _); apply evolves_refl.
Qed.

Lemma preserves_close_db ptr : preserves (store_sq_db ptr None).
Proof.
  intros w. unfold store_sq_db. destruct ptr; [|apply evolves_refl].
  destruct (nth_error _ _) eqn:Hs; [|apply evolves_refl].
  eapply evolves_close; eauto.
Qed.

Lemma preserves_store_st_stmt ptr stmt : preserves (store_st_stmt ptr stmt).
Proof.
  intros w. unfold store_st_stmt. destruct ptr; [|apply evolves_refl].
  destruct (nth_error _ _) eqn:Hs; [|apply evolves_refl].
  apply evolves_store_statement; auto.
Qed.

Lemma preserves_set_eof ptr : preserves (store_st_eof ptr true).
Proof.
  intros w. unfold store_st_eof. destruct ptr; [|apply evolves_refl].
  destruct (nth_error _ _) eqn:Hs; [|apply evolves_refl].
  apply evolves_store_statement; auto.
Qed.

Lemma preserves_malloc_sqlite s : preserves (malloc_sqlite s).
Proof. intros w. apply evolves_malloc_sqlite. Qed.

Lemma preserves_malloc_statement s : preserves (malloc_statement s).
Proof. intros w. apply evolves_malloc_statement. Qed.

Lemma preserves_incr_db_count : preserves incr_db_count.
Proof.
  intros w. unfold incr_db_count.
  destruct (_ <? _); [apply evolves_incr | apply evolves_refl].
Qed.

End Evolution.

Lemma evolves_weaken (P P' : native_call -> bool) w w' :
  (forall c, P c = true -> P' c = true) -> evolves P w w' -> evolves P' w w'.
Proof.
  intros HP [d e c (l & t & p)]; split; auto.
  exists l; split; auto.
  rewrite forallb_forall in *. auto.
Qed.

Lemma preserves_any {A} (P : native_call -> bool) (m : M A) :
  preserves P m -> preserves any_call m.
Proof.
  intros Hm w. eapply evolves_weaken; [|apply Hm]. reflexivity.
Qed.

Create HintDb preserve.

#[export] Hint Resolve preserves_ret preserves_fault preserves_env_fn preserves_signal
  preserves_copy_string_contents preserves_initialised preserves_native_code
  preserves_native_alloc preserves_native_int preserves_native_text
  preserves_load_sqlite preserves_load_statement preserves_close_db
  preserves_store_st_stmt preserves_set_eof preserves_malloc_sqlite
  preserves_malloc_statement preserves_incr_db_count preserves_hang : preserve.

#[export] Hint Extern 0 (_ = true) => reflexivity : preserve.

(** The wrappers that only name an environment function or a native call. *)
Ltac unfold_wrappers :=
  unfold TYPEP, NILP, XFIXNUM, TYPE_OF, EQ, xsignal, make_int, build_string,
    type_of, eq, is_not_nil, extract_integer, extract_float, make_integer,
    make_float, make_string, make_unibyte_string, vec_size, vec_get,
    get_user_finalizer, get_user_ptr, make_user_ptr, call_length, call_car,
    call_cdr, call_cons, call_nreverse, call_get_text_property, call_format,
    call_expand_file_name, call_encode_coding_string, call_concat,
    sqlite3_open_v2, sqlite3_close, sqlite3_prepare_v2, sqlite3_finalize,
    sqlite3_reset, sqlite3_bind_blob, sqlite3_bind_text, sqlite3_bind_int64,
    sqlite3_bind_double, sqlite3_bind_null, sqlite3_bind_int, sqlite3_step,
    sqlite3_exec, sqlite3_changes, sqlite3_errmsg, sqlite3_column_count,
    sqlite3_column_type, sqlite3_column_int64, sqlite3_column_double,
    sqlite3_column_bytes, sqlite3_column_blob, sqlite3_column_text,
    sqlite3_column_name.

(** Preservation follows the structure of the code. *)
Ltac preserve :=
  unfold_wrappers;
  repeat match goal with
    | |- preserves _ (bind _ _) => apply preserves_bind; [| intros ?]
    | |- preserves _ (if ?b then _ else _) => destruct b
    | |- preserves _ (let '(_, _) := ?p in _) => destruct p
    | |- preserves _ (match ?x with _ => _ end) => destruct x
    | |- preserves _ _ => solve [auto with preserve]
    end.

Section Preservation.

Variable E : sqlite3.
Variable H : host.

Lemma preserves_CHECK_STRING P v : preserves P (CHECK_STRING v).
Proof. unfold CHECK_STRING. preserve. Qed.

Lemma preserves_user_ptr_check P v : preserves P (user_ptr_check v).
Proof. unfold user_ptr_check. preserve. Qed.

Lemma preserves_lisp_sqlite_check P v : preserves P (lisp_sqlite_check v).
Proof. pose proof preserves_user_ptr_check. unfold lisp_sqlite_check. preserve. Qed.

Lemma preserves_lisp_statement_check P v : preserves P (lisp_statement_check v).
Proof. pose proof preserves_user_ptr_check. unfold lisp_statement_check. preserve. Qed.

Lemma preserves_lisp_sqlite_make P db : preserves P (lisp_sqlite_make db).
Proof. unfold lisp_sqlite_make. preserve. Qed.

Lemma preserves_lisp_statement_make P db stmt : preserves P (lisp_statement_make db stmt).
Proof. unfold lisp_statement_make. preserve. Qed.

Lemma preserves_bind_string stmt i v :
  preserves binding_call (bind_string E H stmt i v).
Proof. unfold bind_string. preserve. Qed.

Lemma preserves_bind_status_test db r :
  preserves binding_call (bind_status_test E db r).
Proof. unfold bind_status_test. preserve. Qed.

Lemma preserves_bind_value db stmt i v :
  preserves binding_call (bind_value E H db stmt i v).
Proof.
  unfold bind_value. pose proof preserves_bind_string.
  pose proof preserves_bind_status_test. preserve.
Qed.

Lemma preserves_bind_values_loop n db stmt is_vector :
  forall i values,
    preserves binding_call (bind_values_loop E H n db stmt is_vector i values).
Proof.
  pose proof preserves_bind_value.
  induction n as [|n IH]; intros i values; simpl; preserve.
Qed.

Lemma preserves_bind_values db stmt values :
  preserves binding_call (bind_values E H db stmt values).
Proof.
  unfold bind_values. pose proof preserves_bind_values_loop. preserve.
Qed.

Lemma preserves_execute_exit P rc errmsg : preserves P (execute_exit rc errmsg).
Proof. unfold execute_exit. preserve. Qed.

Lemma preserves_select_exit P errmsg : preserves P (select_exit errmsg).
Proof. unfold select_exit. preserve. Qed.

Lemma preserves_column_value stmt i : preserves any_call (column_value E stmt i).
Proof. unfold column_value. preserve. Qed.

Lemma preserves_row_to_value_loop n stmt :
  forall i values, preserves any_call (row_to_value_loop E n stmt i values).
Proof.
  pose proof preserves_column_value.
  induction n as [|n IH]; intros i values; simpl; preserve.
Qed.

Lemma preserves_row_to_value stmt : preserves any_call (row_to_value E stmt).
Proof.
  unfold row_to_value. pose proof preserves_row_to_value_loop. preserve.
Qed.

Lemma preserves_column_names_loop n stmt :
  forall i columns, preserves any_call (column_names_loop E n stmt i columns).
Proof.
  induction n as [|n IH]; intros i columns; simpl; preserve.
Qed.

Lemma preserves_column_names stmt : preserves any_call (column_names E stmt).
Proof.
  unfold column_names. pose proof preserves_column_names_loop. preserve.
Qed.

Lemma preserves_select_loop fuel stmt :
  forall retval, preserves any_call (select_loop E fuel stmt retval).
Proof.
  pose proof preserves_row_to_value.
  induction fuel as [|fuel IH]; intros retval; simpl; preserve.
Qed.

Lemma preserves_subr fuel f args : preserves any_call (subr_function E H fuel f args).
Proof.
  pose proof (fun db stmt values =>
                preserves_any _ _ (preserves_bind_values db stmt values)).
  pose proof preserves_execute_exit. pose proof preserves_select_exit.
  pose proof preserves_row_to_value. pose proof preserves_column_names.
  pose proof preserves_select_loop. pose proof preserves_CHECK_STRING.
  pose proof preserves_user_ptr_check. pose proof preserves_lisp_sqlite_check.
  pose proof preserves_lisp_statement_check. pose proof preserves_lisp_sqlite_make.
  pose proof preserves_lisp_statement_make.
  destruct f; simpl;
    unfold Fsqlite_open, Fsqlite_close, Fsqlite_execute, Fsqlite_select,
      Fsqlite_transaction, Fsqlite_commit, Fsqlite_rollback, Fsqlite_pragma,
      Fsqlite_next, Fsqlite_columns, Fsqlite_more_p, Fsqlite_finalize, Fsqlitep,
      Fsqlite_available_p;
    preserve.
  intros w; apply evolves_refl.
Qed.

Lemma preserves_funcall fuel f args : preserves any_call (funcall E H fuel f args).
Proof.
  intros w. unfold funcall.
  destruct (_ && _); [|apply evolves_refl].
  pose proof (preserves_subr fuel f args (set_pending None w)) as Hs.
  destruct (subr_function _ _ _ _ _ _) as [v w'| |]; simpl in *.
  - destruct (pending w'); simpl;
      (eapply evolves_trans; [apply evolves_set_pending|]);
      (eapply evolves_trans; [exact Hs|]);
      [apply evolves_set_pending | apply evolves_refl].
  - eapply evolves_trans; [apply evolves_set_pending | exact Hs].
  - eapply evolves_trans; [apply evolves_set_pending | exact Hs].
Qed.

Lemma preserves_run fuel calls : preserves any_call (run E H fuel calls).
Proof.
  pose proof preserves_funcall.
  induction calls as [|[f args] rest IH]; simpl; preserve.
Qed.

End Preservation.

(** ** Handle validation *)

(** C4: handle validation has four outcomes.  For the expected kind and an
    open struct it returns the struct that wraps the native resource; for
    the expected kind and a closed struct it signals the closed error; for
    the other kind of handle it signals the invalid-object error, an [error]
    and not a [wrong-type-argument]; for every other value it signals
    [wrong-type-argument].  The three signals differ. *)
Theorem handle_validation_four_outcomes (v : emacs_value) (w : world) :
  pending w = None ->
  lisp_sqlite_check v w = sqlite_validation v w /\
  lisp_statement_check v w = statement_validation v w /\
  error_signal "Database closed" <> error_signal "Invalid database object" /\
  error_signal "Statement closed" <> error_signal "Invalid set object" /\
  (forall msg, error_signal msg <> wrong_type "sqlitep" v).
Proof.
  intros Hp. repeat split.
  - now apply lisp_sqlite_check_cases.
  - now apply lisp_statement_check_cases.
  - discriminate.
  - discriminate.
  - discriminate.
Qed.

(** A cursor passed where a connection is expected, and a connection passed
    where a cursor is expected. *)
Lemma handle_validation_witness :
  lisp_sqlite_check (statement_handle 0) initial_world
  = Ret None (raise (error_signal "Invalid database object") initial_world) /\
  lisp_statement_check (sqlite_handle 0) initial_world
  = Ret None (raise (error_signal "Invalid set object") initial_world).
Proof.
  destruct (handle_validation_four_outcomes (statement_handle 0) initial_world eq_refl)
    as (H1 & _).
  destruct (handle_validation_four_outcomes (sqlite_handle 0) initial_world eq_refl)
    as (_ & H2 & _).
  split; [exact H1 | exact H2].
Defined.

(** ** Operations on a closed connection *)

Lemma lisp_sqlite_check_closed w a :
  pending w = None -> closed_connection w a ->
  lisp_sqlite_check (sqlite_handle a) w
  = Ret None (raise (error_signal "Database closed") w).
Proof.
  intros Hp Hc. rewrite lisp_sqlite_check_cases by assumption.
  unfold sqlite_validation, sqlite_handle. now rewrite Hc.
Qed.

(** C3: on a closed connection, close, execute, select, commit, rollback and
    pragma signal the closed error and return with the log unchanged, and
    the connection stays closed after every sequence of calls;
    [Fsqlite_transaction] signals the closed error too, but then
    dereferences the NULL that the validation returned. *)
Theorem closed_connection_operations (E : sqlite3) (H : host) (fuel : nat)
    (w : world) (a : nat) (rest : list emacs_value) :
  pending w = None -> closed_connection w a ->
  let args := sqlite_handle a :: rest in
  let closed := raise (error_signal "Database closed") w in
  Fsqlite_close E args w = Ret (Q "nil") closed /\
  Fsqlite_execute E H args w = Ret (Q "nil") closed /\
  Fsqlite_select E H fuel args w = Ret (Q "nil") closed /\
  Fsqlite_commit E args w = Ret (Q "nil") closed /\
  Fsqlite_rollback E args w = Ret (Q "nil") closed /\
  Fsqlite_pragma E H args w = Ret (Q "nil") closed /\
  trace closed = trace w /\
  (forall calls, closed_connection (world_of (run E H fuel calls w)) a) /\
  Fsqlite_transaction E args w = Fault closed.
Proof.
  intros Hp Hc args closed.
  pose proof (lisp_sqlite_check_closed w a Hp Hc) as Hv.
  assert (Hstay : forall calls, closed_connection (world_of (run E H fuel calls w)) a).
  { intros calls. now apply (ev_closed _ _ _ (preserves_run E H fuel calls w)). }
  unfold Fsqlite_close, Fsqlite_execute, Fsqlite_select, Fsqlite_commit,
    Fsqlite_rollback, Fsqlite_pragma, Fsqlite_transaction, bind, args.
  change (arg (sqlite_handle a :: rest) 0) with (sqlite_handle a).
  rewrite Hv. simpl. repeat split. exact Hstay.
Qed.

(** open, close, then commit and transaction on the closed handle. *)
Lemma closed_connection_witness :
  let E := scripted quiet in
  let h := sqlite_handle 0 in
  run E plain_host 1 [(sqlite_open, []); (sqlite_close, [h])] initial_world
  = Ret [Returned h; Returned (Q "t")] closed_world /\
  Fsqlite_commit E [h] closed_world
  = Ret (Q "nil") (raise (error_signal "Database closed") closed_world) /\
  Fsqlite_transaction E [h] closed_world
  = Fault (raise (error_signal "Database closed") closed_world).
Proof.
  intros E h. split; [vm_compute; reflexivity|].
  pose proof (closed_connection_operations E plain_host 1 closed_world 0%nat []
                eq_refl eq_refl) as Hops.
  split; [apply Hops | apply Hops].
Defined.

(** ** Running the code by hand

    With no exit pending an environment function returns its value and
    leaves the world as it is. *)

Lemma env_fn_value {A} (failure a : A) w :
  pending w = None -> env_fn failure (inr a) w = Ret a w.
Proof. intros Hp. unfold env_fn. now rewrite Hp. Qed.

Lemma env_fn_signal {A} (failure : A) s w :
  pending w = None -> env_fn failure (inl s) w = Ret failure (raise s w).
Proof. intros Hp. unfold env_fn. now rewrite Hp. Qed.

Lemma env_fn_pending {A} (failure : A) r s w :
  pending w = Some s -> env_fn failure r w = Ret failure w.
Proof. intros Hp. unfold env_fn. now rewrite Hp. Qed.

Lemma TYPE_OF_value v w :
  pending w = None -> TYPE_OF v w = Ret (Q (type_name v)) w.
Proof. apply env_fn_value. Qed.

Lemma EQ_value a b w : pending w = None -> EQ a b w = Ret (eq_value a b) w.
Proof. apply env_fn_value. Qed.

Lemma TYPEP_value v type w :
  pending w = None -> TYPEP v type w = Ret (String.eqb (type_name v) type) w.
Proof.
  intros Hp. unfold TYPEP, bind. rewrite TYPE_OF_value by assumption.
  now rewrite EQ_value by assumption.
Qed.

Lemma NILP_value v w : pending w = None -> NILP v w = Ret (eq_value v Qnil) w.
Proof.
  intros Hp. unfold NILP, bind, is_not_nil. rewrite env_fn_value by assumption.
  unfold ret. now rewrite negb_involutive.
Qed.

Lemma make_int_value n w : pending w = None -> make_int n w = Ret (Integer n) w.
Proof. apply env_fn_value. Qed.

Lemma make_float_value d w : pending w = None -> make_float d w = Ret (Float d) w.
Proof. apply env_fn_value. Qed.

Lemma XFIXNUM_value n w :
  pending w = None -> INTMAX_MIN <= n <= INTMAX_MAX ->
  XFIXNUM (Integer n) w = Ret n w.
Proof.
  intros Hp [Hlo Hhi]. unfold XFIXNUM, extract_integer.
  apply Z.leb_le in Hlo, Hhi. rewrite Hlo, Hhi. now apply env_fn_value.
Qed.

Lemma substring_c_string s : substring 0 (String.length (c_string s)) s = c_string s.
Proof.
  induction s as [|c s IH]; simpl; auto.
  destruct (Ascii.eqb c zero); simpl; auto. now rewrite IH.
Qed.

Lemma bytes_prefix_strlen s : bytes_prefix (strlen s) s = c_string s.
Proof.
  unfold bytes_prefix, strlen. rewrite Nat2Z.id. apply substring_c_string.
Qed.

Lemma substring_all s : substring 0 (String.length s) s = s.
Proof. induction s as [|c s IH]; simpl; auto. now rewrite IH. Qed.

Lemma bytes_prefix_all s : bytes_prefix (byte_length s) s = s.
Proof.
  unfold bytes_prefix, byte_length. rewrite Nat2Z.id. apply substring_all.
Qed.

Lemma make_string_value data len w :
  pending w = None -> 0 <= len ->
  make_string data len w = Ret (text (bytes_prefix len data)) w.
Proof.
  intros Hp Hlen. unfold make_string.
  destruct (Z.ltb_spec len 0); [lia|]. now apply env_fn_value.
Qed.

Lemma build_string_value s w :
  pending w = None -> build_string s w = Ret (text (c_string s)) w.
Proof.
  intros Hp. unfold build_string. rewrite make_string_value; auto.
  - now rewrite bytes_prefix_strlen.
  - unfold strlen. lia.
Qed.

Lemma xsignal_raise symbol data w :
  pending w = None -> xsignal symbol data w = Ret tt (raise (symbol, data) w).
Proof. intros Hp. unfold xsignal, non_local_exit_signal. now rewrite Hp. Qed.

Lemma xsignal_pending symbol data s w :
  pending w = Some s -> xsignal symbol data w = Ret tt w.
Proof. intros Hp. unfold xsignal, non_local_exit_signal. now rewrite Hp. Qed.

Lemma copy_string_contents_size s len w :
  pending w = None ->
  copy_string_contents (Str s) false len w = Ret (None, byte_length (sdata s) + 1) w.
Proof. intros Hp. unfold copy_string_contents. now rewrite Hp. Qed.

Lemma copy_string_contents_copy s w :
  pending w = None ->
  copy_string_contents (Str s) true (byte_length (sdata s) + 1) w
  = Ret (Some (sdata s ++ NUL)%string, byte_length (sdata s) + 1) w.
Proof.
  intros Hp. unfold copy_string_contents. rewrite Hp.
  unfold byte_length. now rewrite Z.ltb_irrefl.
Qed.

Lemma CHECK_STRING_string s w :
  pending w = None -> CHECK_STRING (Str s) w = Ret true w.
Proof.
  intros Hp. unfold CHECK_STRING, bind. now rewrite TYPEP_value by assumption.
Qed.

Lemma load_sqlite_value a s w :
  nth_error (sqlites w) a = Some s -> load_sqlite (Some a) w = Ret s w.
Proof. intros Hs. unfold load_sqlite. now rewrite Hs. Qed.

Lemma load_statement_value a s w :
  nth_error (statements w) a = Some s -> load_statement (Some a) w = Ret s w.
Proof. intros Hs. unfold load_statement. now rewrite Hs. Qed.

Lemma lisp_sqlite_check_open w a d :
  pending w = None -> open_connection w a d ->
  lisp_sqlite_check (sqlite_handle a) w = Ret (Some a) w.
Proof.
  intros Hp Ho. rewrite lisp_sqlite_check_cases by assumption.
  unfold sqlite_validation, sqlite_handle. now rewrite Ho.
Qed.

(** The tests of [pending] after calls that leave it alone. *)
Ltac pending :=
  solve [ assumption | reflexivity | simpl; assumption
        | cbn [pending log raise set_pending set_sqlites set_statements
               set_db_count]; assumption ].

(** One step: rewrite the call at the head with its value, and reduce. *)
Ltac next_step := cbv beta iota zeta.

Ltac unfold_native :=
  unfold sqlite3_open_v2, sqlite3_close, sqlite3_prepare_v2, sqlite3_finalize,
    sqlite3_reset, sqlite3_bind_blob, sqlite3_bind_text, sqlite3_bind_int64,
    sqlite3_bind_double, sqlite3_bind_null, sqlite3_bind_int, sqlite3_step,
    sqlite3_exec, sqlite3_changes, sqlite3_errmsg, sqlite3_column_count,
    sqlite3_column_type, sqlite3_column_int64, sqlite3_column_double,
    sqlite3_column_bytes, sqlite3_column_blob, sqlite3_column_text,
    sqlite3_column_name, native_code, native_alloc, native_int, native_text.

(** ** Anonymous in-memory databases *)

Lemma c_string_uint d rest :
  c_string (NilEmpty.string_of_uint d ++ rest)
  = (NilEmpty.string_of_uint d ++ c_string rest)%string.
Proof.
  induction d; simpl; auto; now rewrite IHd.
Qed.

Lemma c_string_decimal n rest :
  c_string (decimal n ++ rest) = (decimal n ++ c_string rest)%string.
Proof.
  unfold decimal, NilZero.string_of_int, NilZero.string_of_uint.
  destruct (Z.to_int n) as [d|d]; destruct d; simpl;
    auto; now rewrite c_string_uint.
Qed.

Lemma append_nil_r s : (s ++ "")%string = s.
Proof. induction s; simpl; auto. now rewrite IHs. Qed.

Lemma c_string_memory_name n : c_string (memory_name n ++ NUL) = memory_name n.
Proof.
  unfold memory_name. simpl. do 8 f_equal.
  rewrite c_string_decimal. simpl. apply append_nil_r.
Qed.

Lemma decimal_inj n m : decimal n = decimal m -> n = m.
Proof.
  unfold decimal. intros Heq.
  assert (Hnil : forall z, Z.to_int z <> Decimal.Pos Decimal.Nil /\
                           Z.to_int z <> Decimal.Neg Decimal.Nil).
  { intros [|p|p]; simpl; split; try discriminate;
      intros [= Hp]; now apply (DecimalPos.Unsigned.to_uint_nonnil p). }
  apply DecimalZ.to_int_inj.
  assert (Some (Z.to_int n) = Some (Z.to_int m)) as [= ->]; auto.
  rewrite <- (NilZero.isi (Z.to_int n)), <- (NilZero.isi (Z.to_int m)), Heq;
    auto; apply Hnil.
Qed.

Lemma memory_name_inj n m : memory_name n = memory_name m -> n = m.
Proof.
  unfold memory_name. simpl. intros [= Heq]. now apply decimal_inj.
Qed.

Lemma format_memory n : format_d ":memory:%d" n = memory_name n.
Proof.
  unfold memory_name. simpl. now rewrite append_nil_r.
Qed.

Lemma Fsqlite_open_anonymous E H args w :
  pending w = None -> anonymous args = true ->
  Fsqlite_open E H args w
  = if db_count w <? INT_MAX then
      let c := Sqlite3_open_v2 (memory_name (db_count w + 1)) memory_flags in
      let w1 := log c (set_db_count (db_count w + 1) w) in
      if result_code E (effects (trace w)) c =? SQLITE_OK
      then lisp_sqlite_make (result_ptr E (effects (trace w)) c) w1
      else Ret (Q "nil") w1
    else Fault w.
Proof.
  intros Hp Ha.
  assert (Hnamed :
    (if nargs args >? 0 then n <- NILP (arg args 0) ;; ret (negb n) else ret false) w
    = Ret false w).
  { destruct args as [|v [|v' rest]]; try discriminate; [reflexivity|].
    simpl in Ha. change (nargs [v] >? 0) with true. next_step.
    unfold bind. change (arg [v] 0) with v.
    rewrite NILP_value by pending. now rewrite Ha. }
  unfold Fsqlite_open. unfold bind at 1. next_step.
  rewrite Hnamed. next_step. unfold bind.
  rewrite build_string_value by pending. next_step.
  unfold incr_db_count. destruct (db_count w <? INT_MAX); [|reflexivity].
  rewrite make_int_value by pending. next_step.
  unfold call_format, text. next_step.
  rewrite env_fn_value by pending. unfold ret. next_step.
  rewrite copy_string_contents_size by pending. next_step.
  rewrite copy_string_contents_copy by pending. next_step.
  unfold initialised, ret. unfold_native. next_step.
  cbn [sdata]. change (c_string ":memory:%d") with ":memory:%d".
  rewrite format_memory, c_string_memory_name.
  fold memory_flags.
  destruct (_ =? SQLITE_OK); reflexivity.
Qed.

Lemma lisp_sqlite_make_value db w :
  pending w = None ->
  lisp_sqlite_make db w
  = Ret (sqlite_handle (List.length (sqlites w)))
        (set_sqlites (sqlites w ++ [{| sq_db := db |}]) w).
Proof.
  intros Hp. unfold lisp_sqlite_make, bind, malloc_sqlite, make_user_ptr.
  now rewrite env_fn_value by pending.
Qed.

Lemma funcall_open_anonymous E H fuel args w r w' :
  anonymous args = true ->
  funcall E H fuel sqlite_open args w = Ret r w' ->
  trace w' = trace w ++ [Sqlite3_open_v2 (memory_name (db_count w + 1)) memory_flags] /\
  db_count w' = db_count w + 1.
Proof.
  intros Ha. unfold funcall.
  assert (Harity : (min_arity sqlite_open <=? List.length args)%nat &&
                   (List.length args <=? max_arity sqlite_open)%nat = true).
  { destruct args as [|v [|v' rest]]; try discriminate; reflexivity. }
  rewrite Harity. cbn [subr_function].
  rewrite Fsqlite_open_anonymous by (auto; reflexivity).
  cbn [db_count set_pending trace].
  destruct (db_count w <? INT_MAX); [|discriminate].
  next_step.
  destruct (_ =? SQLITE_OK).
  - rewrite lisp_sqlite_make_value by reflexivity.
    cbn [pending set_sqlites log set_db_count set_pending].
    intros [= _ <-]. cbn [trace db_count]. auto.
  - cbn [pending set_sqlites log set_db_count set_pending].
    intros [= _ <-]. cbn [trace db_count]. auto.
Qed.

(** C9: an anonymous open names its database after the counter, which it
    increments and which no function of the module decreases; so two
    anonymous opens of one execution, whatever is called between them, pass
    different names to the engine. *)
Theorem anonymous_opens_distinct_names (E : sqlite3) (H : host) (fuel : nat)
    (args1 args2 : list emacs_value) (calls : list (subr * list emacs_value))
    (w w1 w2 w3 : world) (r1 r2 : result) (rs : list result) :
  anonymous args1 = true -> anonymous args2 = true ->
  funcall E H fuel sqlite_open args1 w = Ret r1 w1 ->
  run E H fuel calls w1 = Ret rs w2 ->
  funcall E H fuel sqlite_open args2 w2 = Ret r2 w3 ->
  let name1 := memory_name (db_count w + 1) in
  let name2 := memory_name (db_count w2 + 1) in
  trace w1 = trace w ++ [Sqlite3_open_v2 name1 memory_flags] /\
  trace w3 = trace w2 ++ [Sqlite3_open_v2 name2 memory_flags] /\
  db_count w < db_count w1 <= db_count w2 /\
  db_count w2 < db_count w3 /\
  name1 <> name2.
Proof.
  intros Ha1 Ha2 Ho1 Hrun Ho2 name1 name2.
  destruct (funcall_open_anonymous _ _ _ _ _ _ _ Ha1 Ho1) as [Ht1 Hc1].
  destruct (funcall_open_anonymous _ _ _ _ _ _ _ Ha2 Ho2) as [Ht2 Hc2].
  pose proof (ev_db_count _ _ _ (preserves_run E H fuel calls w1)) as Hmono.
  rewrite Hrun in Hmono. cbn [world_of] in Hmono.
  repeat split; auto; try lia.
  intros Heq. apply memory_name_inj in Heq. lia.
Qed.

(** Two anonymous opens from the initial world, with a close between. *)
Lemma anonymous_opens_witness :
  let E := scripted quiet in
  exists w1 w2 w3 r1 r2 rs,
    funcall E plain_host 1 sqlite_open [] initial_world = Ret r1 w1 /\
    run E plain_host 1 [(sqlite_close, [sqlite_handle 0])] w1 = Ret rs w2 /\
    funcall E plain_host 1 sqlite_open [Qnil] w2 = Ret r2 w3 /\
    trace w3 = trace w2 ++ [Sqlite3_open_v2 ":memory:2" memory_flags] /\
    ":memory:1" <> ":memory:2".
Proof.
  intros E.
  eexists _, _, _, _, _, _.
  split; [vm_compute; reflexivity|].
  split; [vm_compute; reflexivity|].
  split; [vm_compute; reflexivity|].
  refine (let Hd := anonymous_opens_distinct_names E plain_host 1 [] [Qnil]
                      [(sqlite_close, [sqlite_handle 0])] initial_world _ _ _ _ _ _
                      eq_refl eq_refl eq_refl eq_refl eq_refl in _).
  split; [exact (proj1 (proj2 Hd)) | exact (proj2 (proj2 (proj2 (proj2 Hd))))].
Defined.

(** ** The end-of-data flag of a cursor *)

Lemma Fsqlite_more_p_value w a s :
  pending w = None -> nth_error (statements w) a = Some s ->
  Fsqlite_more_p [statement_handle a] w
  = if is_null (st_stmt s)
    then Ret (Q "nil") (raise (error_signal "Statement closed") w)
    else Ret (if st_eof s then Q "nil" else Q "t") w.
Proof.
  intros Hp Hs. unfold Fsqlite_more_p, bind.
  change (arg [statement_handle a] 0) with (statement_handle a).
  rewrite lisp_statement_check_cases by assumption.
  unfold statement_validation, statement_handle. rewrite Hs.
  destruct s as [sdb [d|] e]; cbn [is_null st_stmt st_eof]; [|reflexivity].
  unfold load_statement. rewrite Hs. cbn [st_eof]. now destruct e.
Qed.

Lemma Fsqlite_next_done E w a s :
  pending w = None -> nth_error (statements w) a = Some s ->
  is_null (st_stmt s) = false ->
  result_code E (effects (trace w)) (Sqlite3_step (st_stmt s)) = SQLITE_DONE ->
  Fsqlite_next E [statement_handle a] w
  = Ret (Q "nil")
        (set_statements
           (update (statements w) a
              {| st_db := st_db s; st_stmt := st_stmt s; st_eof := true |})
           (log (Sqlite3_step (st_stmt s)) w)).
Proof.
  intros Hp Hs Hopen Hdone. unfold Fsqlite_next, bind.
  change (arg [statement_handle a] 0) with (statement_handle a).
  rewrite lisp_statement_check_cases by assumption.
  unfold statement_validation, statement_handle. rewrite Hs.
  destruct s as [sdb [d|] e]; [|discriminate]. next_step.
  cbn [is_null]. unfold load_statement. rewrite Hs. next_step.
  unfold_native. next_step. cbn [st_stmt st_db st_eof] in *. rewrite Hdone.
  change (negb (SQLITE_DONE =? SQLITE_ROW) && negb (SQLITE_DONE =? SQLITE_OK)
          && negb (SQLITE_DONE =? SQLITE_DONE)) with false.
  change (SQLITE_DONE =? SQLITE_DONE) with true. next_step.
  unfold store_st_eof. cbn [statements log]. rewrite Hs. reflexivity.
Qed.

(** C8: on a cursor that is not finalized, [Fsqlite_more_p] returns the
    negation of the end-of-data flag and leaves the world, and so the log,
    as it is (on a finalized one it signals the closed error); a
    [Fsqlite_next] that sees [SQLITE_DONE] sets the flag; and once the flag
    is set it stays set after every sequence of calls into the module. *)
Theorem end_of_data_flag_permanent (E : sqlite3) (H : host) (fuel : nat)
    (calls : list (subr * list emacs_value)) (w : world) (a : nat)
    (s : Lisp_Statement) :
  pending w = None ->
  nth_error (statements w) a = Some s ->
  Fsqlite_more_p [statement_handle a] w
  = (if is_null (st_stmt s)
     then Ret (Q "nil") (raise (error_signal "Statement closed") w)
     else Ret (if st_eof s then Q "nil" else Q "t") w) /\
  (is_null (st_stmt s) = false ->
   result_code E (effects (trace w)) (Sqlite3_step (st_stmt s)) = SQLITE_DONE ->
   exists w' s',
     Fsqlite_next E [statement_handle a] w = Ret (Q "nil") w' /\
     nth_error (statements w') a = Some s' /\ st_eof s' = true) /\
  (st_eof s = true ->
   exists s',
     nth_error (statements (world_of (run E H fuel calls w))) a = Some s' /\
     st_eof s' = true).
Proof.
  intros Hp Hs. split; [|split].
  - now apply Fsqlite_more_p_value.
  - intros Hopen Hdone. eexists _, _.
    split; [apply Fsqlite_next_done; eassumption|].
    cbn [statements set_statements log].
    split; [eapply nth_error_update_same; eauto | reflexivity].
  - intros Heof.
    destruct (ev_eof _ _ _ (preserves_run E H fuel calls w) a s Hs) as (s' & Hs' & He).
    eauto.
Qed.

(** The cursor of [exhausted_cursor_world] stays at its end. *)
Lemma end_of_data_witness :
  let E := scripted quiet in
  let cursor := statement_handle 0 in
  Fsqlite_more_p [cursor] exhausted_cursor_world
  = Ret (Q "nil") exhausted_cursor_world /\
  exists s',
    nth_error
      (statements
         (world_of (run E plain_host 1
                      [(sqlite_next, [cursor]); (sqlite_columns, [cursor]);
                       (sqlite_more_p, [cursor])]
                      exhausted_cursor_world))) 0
    = Some s' /\ st_eof s' = true.
Proof.
  intros E cursor.
  destruct (end_of_data_flag_permanent E plain_host 1
              [(sqlite_next, [cursor]); (sqlite_columns, [cursor]);
               (sqlite_more_p, [cursor])]
              exhausted_cursor_world 0
              {| st_db := Some 0%nat; st_stmt := Some 1%nat; st_eof := true |}
              eq_refl eq_refl) as (Hmore & _ & Hstay).
  split; [exact Hmore | exact (Hstay eq_refl)].
Defined.

(** ** [Fsqlite_execute] *)

Lemma bind_assoc {A B C} (m : M A) (f : A -> M B) (k : B -> M C) w :
  bind (bind m f) k w = bind m (fun a => bind (f a) k) w.
Proof. unfold bind. now destruct (m w). Qed.

Lemma nargs_cons v l : nargs (v :: l) = nargs l + 1.
Proof. unfold nargs. cbn [List.length]. lia. Qed.

Lemma nargs_nonneg l : 0 <= nargs l.
Proof. unfold nargs. lia. Qed.

Lemma execute_with_values E H db stmt h sql rest w :
  pending w = None ->
  (with_values <- (if nargs (h :: sql :: rest) >? 2 then
                     is_nil <- NILP (arg (h :: sql :: rest) 2) ;; ret (negb is_nil)
                   else ret false) ;;
   if with_values : bool then bind_values E H db stmt (arg (h :: sql :: rest) 2)
   else ret None) w
  = bind_parameters E H db stmt rest w.
Proof.
  intros Hp. destruct rest as [|v rest].
  - reflexivity.
  - assert (Hn : (nargs (h :: sql :: v :: rest) >? 2) = true).
    { rewrite !nargs_cons. pose proof (nargs_nonneg rest).
      apply Z.gtb_lt. lia. }
    rewrite Hn. unfold bind. change (arg (h :: sql :: v :: rest) 2) with v.
    rewrite NILP_value by pending. unfold ret. cbn [bind_parameters].
    now destruct (eq_value v Qnil).
Qed.

Lemma execute_bad_values h sql rest w :
  pending w = None ->
  (if nargs (h :: sql :: rest) >? 2 then
     type <- TYPE_OF (arg (h :: sql :: rest) 2) ;;
     is_nil <- NILP (arg (h :: sql :: rest) 2) ;;
     is_cons <- EQ type (Q "cons") ;;
     is_vector <- EQ type (Q "vector") ;;
     ret (negb (is_nil || is_cons || is_vector))
   else ret false) w
  = Ret (negb (acceptable_values rest)) w.
Proof.
  intros Hp. destruct rest as [|v rest].
  - reflexivity.
  - assert (Hn : (nargs (h :: sql :: v :: rest) >? 2) = true).
    { rewrite !nargs_cons. pose proof (nargs_nonneg rest).
      apply Z.gtb_lt. lia. }
    rewrite Hn. unfold bind. change (arg (h :: sql :: v :: rest) 2) with v.
    rewrite TYPE_OF_value by pending. rewrite NILP_value by pending.
    rewrite !EQ_value by pending. reflexivity.
Qed.

Lemma Fsqlite_execute_open E H w a d sql rest :
  pending w = None -> open_connection w a d ->
  Fsqlite_execute E H (sqlite_handle a :: Str sql :: rest) w
  = if acceptable_values rest then
      let prep := execute_prepare (Some d) sql in
      let rc := result_code E (effects (trace w)) prep in
      let stmt := result_ptr E (effects (trace w)) prep in
      if rc =? SQLITE_OK then execute_statement E H (Some d) stmt rest (log prep w)
      else execute_prepare_failed E (Some d) stmt rc (log prep w)
    else Ret (Q "nil") (raise (error_signal "VALUES must be a list or a vector") w).
Proof.
  intros Hp Ho. unfold Fsqlite_execute.
  unfold bind at 1. change (arg (sqlite_handle a :: Str sql :: rest) 0) with (sqlite_handle a).
  rewrite (lisp_sqlite_check_open w a d) by assumption. next_step. cbn [is_null].
  unfold bind at 1. change (arg (sqlite_handle a :: Str sql :: rest) 1) with (Str sql).
  rewrite CHECK_STRING_string by pending. next_step. cbn [negb].
  unfold bind at 1. rewrite execute_bad_values by pending. next_step.
  destruct (acceptable_values rest); cbn [negb].
  - unfold bind at 1. rewrite copy_string_contents_size by pending. next_step.
    unfold bind at 1. rewrite copy_string_contents_copy by pending. next_step.
    unfold bind at 1. unfold initialised at 1, ret at 1. next_step.
    unfold bind at 1. rewrite (load_sqlite_value a _ w Ho). next_step.
    unfold bind at 1. unfold sqlite3_prepare_v2 at 1, native_alloc. next_step.
    cbn [sq_db]. fold (execute_prepare (Some d) sql).
    destruct (Z.eqb_spec (result_code E (effects (trace w)) (execute_prepare (Some d) sql))
                SQLITE_OK) as [Hrc|Hrc]; cbn [negb].
    + rewrite Hrc. rewrite <- bind_assoc. unfold bind at 1.
      rewrite execute_with_values by pending. reflexivity.
    + reflexivity.
  - unfold bind. rewrite build_string_value by pending.
    rewrite xsignal_raise by pending. reflexivity.
Qed.

Lemma effects_app l l' : effects (l ++ l') = effects l ++ effects l'.
Proof. unfold effects. apply filter_app. Qed.

Lemma effects_log_observer c w :
  is_observer c = true -> effects (trace (log c w)) = effects (trace w).
Proof.
  intros Hc. cbn [trace log]. rewrite effects_app. unfold effects at 2.
  cbn [filter]. rewrite Hc. cbn [negb]. apply app_nil_r.
Qed.

Lemma build_string_pending msg s w :
  pending w = Some s -> build_string msg w = Ret NULL_value w.
Proof. intros Hp. unfold build_string, make_string. now apply env_fn_pending with s. Qed.

Lemma execute_exit_value rc msg w :
  execute_exit rc msg w
  = Ret (Q "nil") match pending w with
                  | None => raise (execute_failure rc msg) w
                  | Some _ => w
                  end.
Proof.
  unfold execute_exit, execute_failure, bind.
  destruct (pending w) as [s|] eqn:Hp.
  - destruct (_ || _);
      rewrite (build_string_pending _ s) by assumption;
      rewrite (xsignal_pending _ _ s) by assumption; reflexivity.
  - destruct (_ || _);
      rewrite build_string_value by assumption;
      rewrite xsignal_raise by pending; reflexivity.
Qed.

Lemma pending_log c w : pending (log c w) = pending w.
Proof. reflexivity. Qed.

Lemma trace_log c w : trace (log c w) = trace w ++ [c].
Proof. reflexivity. Qed.

Lemma pending_raise s w : pending (raise s w) = Some s.
Proof. reflexivity. Qed.

Lemma trace_raise s w : trace (raise s w) = trace w.
Proof. reflexivity. Qed.

Lemma execute_prepare_failed_value E db stmt rc w :
  pending w = None ->
  exists w',
    execute_prepare_failed E db stmt rc w = Ret (Q "nil") w' /\
    pending w' = Some (execute_failure rc (result_text E (effects (trace w'))
                                             (Sqlite3_errmsg db))) /\
    exists l, trace w' = trace w ++ l.
Proof.
  intros Hp. unfold execute_prepare_failed, bind. unfold_native.
  destruct (negb (is_null stmt)); unfold ret; next_step;
    rewrite execute_exit_value, !pending_log, Hp;
    eexists; (split; [reflexivity|]);
    rewrite pending_raise, trace_raise,
      (effects_log_observer (Sqlite3_errmsg db)) by reflexivity;
    (split; [reflexivity|]);
    rewrite !trace_log, <- ?app_assoc; eauto.
Qed.

Lemma execute_step_failed E db stmt w :
  pending w = None ->
  let rc := result_code E (effects (trace w)) (Sqlite3_step stmt) in
  rc <> SQLITE_OK -> rc <> SQLITE_DONE ->
  exists w',
    execute_step E db stmt w = Ret (Q "nil") w' /\
    pending w' = Some (execute_failure rc (result_text E (effects (trace w'))
                                             (Sqlite3_errmsg db))) /\
    trace w' = trace w ++ [Sqlite3_step stmt; Sqlite3_finalize stmt; Sqlite3_errmsg db].
Proof.
  intros Hp rc Hok Hdone. unfold execute_step, bind. unfold_native. next_step.
  fold rc. destruct (Z.eqb_spec rc SQLITE_OK); [contradiction|].
  destruct (Z.eqb_spec rc SQLITE_DONE); [contradiction|]. cbn [negb andb].
  rewrite execute_exit_value, !pending_log, Hp.
  eexists; split; [reflexivity|].
  rewrite pending_raise, trace_raise,
    (effects_log_observer (Sqlite3_errmsg db)) by reflexivity.
  split; [reflexivity|].
  now rewrite !trace_log, <- !app_assoc.
Qed.

Lemma execute_step_done E db stmt w :
  let rc := result_code E (effects (trace w)) (Sqlite3_step stmt) in
  rc = SQLITE_OK \/ rc = SQLITE_DONE ->
  let w' := log (Sqlite3_changes db) (log (Sqlite3_finalize stmt)
                                        (log (Sqlite3_step stmt) w)) in
  execute_step E db stmt w
  = Ret (match pending w with
         | None => Integer (result_int E (effects (trace w')) (Sqlite3_changes db))
         | Some _ => NULL_value
         end) w'.
Proof.
  intros rc Hrc w'. unfold execute_step, bind. unfold_native. next_step.
  fold rc. assert (Hgood : negb (rc =? SQLITE_OK) && negb (rc =? SQLITE_DONE) = false).
  { destruct Hrc as [-> | ->]; reflexivity. }
  rewrite Hgood. unfold make_int, make_integer, env_fn.
  rewrite !pending_log. subst w'.
  rewrite (effects_log_observer (Sqlite3_changes db)) by reflexivity.
  destruct (pending w); reflexivity.
Qed.

Lemma CHECK_STRING_cases v w :
  pending w = None ->
  CHECK_STRING v w = match v with
                     | Str _ => Ret true w
                     | _ => Ret false (raise (wrong_type "stringp" v) w)
                     end.
Proof.
  intros Hp. unfold CHECK_STRING, bind. rewrite TYPEP_value by assumption.
  destruct v; cbn [type_name String.eqb Ascii.eqb Bool.eqb]; try reflexivity;
    now rewrite xsignal_raise by assumption.
Qed.

(** A call of [Fsqlite_execute] that returns without a signal was given an
    open connection and a string. *)
Lemma Fsqlite_execute_returns E H args w v w' :
  pending w = None ->
  Fsqlite_execute E H args w = Ret v w' -> pending w' = None ->
  exists a d sql rest,
    args = sqlite_handle a :: Str sql :: rest /\ open_connection w a d.
Proof.
  intros Hp. unfold Fsqlite_execute. unfold bind at 1.
  rewrite lisp_sqlite_check_cases by assumption.
  assert (Hfail : forall s : signal, Ret (Q "nil") (raise s w) = Ret v w' ->
                                     pending w' = None ->
                                     exists a d sql rest,
                                       args = sqlite_handle a :: Str sql :: rest /\
                                       open_connection w a d).
  { intros s [= _ <-]. discriminate. }
  unfold sqlite_validation.
  destruct (arg args 0) as [name|n|bits|s|x y|l|[[| |id]|] p] eqn:Hh;
    try (next_step; cbn [is_null]; unfold ret; apply Hfail).
  destruct (nth_error (sqlites w) p) as [[[d|]]|] eqn:Hs;
    [ | next_step; cbn [is_null]; unfold ret; apply Hfail | discriminate ].
  next_step. cbn [is_null]. unfold bind at 1.
  rewrite CHECK_STRING_cases by assumption.
  destruct (arg args 1) as [name|n|bits|s|x y|l|fin q] eqn:Hsql;
    try (next_step; cbn [negb]; unfold ret; apply Hfail).
  intros _ _. exists p, d, s.
  destruct args as [|h [|t rest]]; try discriminate.
  exists rest. unfold arg in Hh, Hsql. cbn [nth] in Hh, Hsql. subst. now split.
Qed.

Lemma preserves_bind_parameters E H db stmt rest :
  preserves binding_call (bind_parameters E H db stmt rest).
Proof.
  unfold bind_parameters. destruct rest as [|v rest]; [apply preserves_ret|].
  destruct (eq_value v Qnil); [apply preserves_ret | apply preserves_bind_values].
Qed.

(** C5: a call of [Fsqlite_execute] that returns without a signal has
    prepared the statement, bound the parameters, stepped the statement
    once, finalized it, and returns what [sqlite3_changes] reports: between
    the prepare and the step the log has binding calls only. *)
Theorem execute_steps_once_and_returns_changes (E : sqlite3) (H : host)
    (args : list emacs_value) (w w' : world) (v : emacs_value) :
  pending w = None ->
  Fsqlite_execute E H args w = Ret v w' ->
  pending w' = None ->
  exists a d sql rest binds,
    args = sqlite_handle a :: Str sql :: rest /\
    open_connection w a d /\
    let prep := execute_prepare (Some d) sql in
    let stmt := result_ptr E (effects (trace w)) prep in
    trace w' = trace w ++ prep :: binds
               ++ [Sqlite3_step stmt; Sqlite3_finalize stmt; Sqlite3_changes (Some d)] /\
    forallb binding_call binds = true /\
    List.length (filter is_step (prep :: binds ++ [Sqlite3_step stmt;
                   Sqlite3_finalize stmt; Sqlite3_changes (Some d)])) = 1%nat /\
    v = Integer (result_int E (effects (trace w')) (Sqlite3_changes (Some d))).
Proof.
  intros Hp Hrun Hret.
  destruct (Fsqlite_execute_returns E H args w v w' Hp Hrun Hret)
    as (a & d & sql & rest & -> & Ho).
  exists a, d, sql, rest.
  rewrite (Fsqlite_execute_open E H w a d sql rest Hp Ho) in Hrun.
  destruct (acceptable_values rest); [|injection Hrun as _ <-; discriminate].
  cbv zeta in Hrun.
  set (prep := execute_prepare (Some d) sql) in *.
  set (stmt := result_ptr E (effects (trace w)) prep) in *.
  destruct (_ =? SQLITE_OK).
  2:{ destruct (execute_prepare_failed_value E (Some d) stmt
                  (result_code E (effects (trace w)) prep) (log prep w) Hp)
        as (w2 & Heq & Hp2 & _).
      rewrite Heq in Hrun. injection Hrun as _ <-. congruence. }
  unfold execute_statement, bind in Hrun.
  pose proof (preserves_bind_parameters E H (Some d) stmt rest (log prep w)) as Hev.
  destruct (bind_parameters E H (Some d) stmt rest (log prep w))
    as [[e|] w1| |]; try discriminate; cbn [world_of] in Hev.
  { rewrite execute_exit_value in Hrun. injection Hrun as _ <-.
    destruct (pending w1) eqn:Hp1; [congruence | discriminate]. }
  destruct Hev as [_ _ _ (binds & Ht & Hb)].
  exists binds.
  set (rc := result_code E (effects (trace w1)) (Sqlite3_step stmt)) in *.
  destruct (Z.eq_dec rc SQLITE_OK) as [Hok|Hok];
    [|destruct (Z.eq_dec rc SQLITE_DONE) as [Hdone|Hdone]].
  3:{ destruct (pending w1) eqn:Hp1.
      - exfalso. revert Hrun. unfold execute_step, bind. unfold_native. next_step.
        fold rc. destruct (Z.eqb_spec rc SQLITE_OK); [contradiction|].
        destruct (Z.eqb_spec rc SQLITE_DONE); [contradiction|]. cbn [negb andb].
        rewrite execute_exit_value, !pending_log, Hp1. intros [= _ <-].
        rewrite !pending_log in Hret. congruence.
      - destruct (execute_step_failed E (Some d) stmt w1 Hp1 Hok Hdone)
          as (w2 & Heq & Hp2 & _).
        rewrite Heq in Hrun. injection Hrun as _ <-. congruence. }
  all: rewrite execute_step_done in Hrun by (fold rc; auto);
    injection Hrun as <- <-; rewrite !pending_log in Hret; rewrite Hret;
    split; [reflexivity|]; split; [assumption|]; cbv zeta;
    rewrite !trace_log, Ht, trace_log, <- !app_assoc;
    (split; [reflexivity|]); (split; [assumption|]);
    (split; [|reflexivity]);
    cbn [filter is_step execute_prepare prep]; rewrite filter_app;
    cbn [filter is_step]; rewrite length_app; cbn [List.length];
    assert (Hnone : filter is_step binds = []) by
      (clear - Hb; induction binds as [|c l IH]; [reflexivity|];
       cbn [forallb] in Hb; apply andb_prop in Hb as [Hc Hl];
       cbn [filter]; destruct c; try discriminate; cbn [is_step]; auto);
    now rewrite Hnone.
Qed.

(** The insert of one row on the scripted engine, which reports one change. *)
Lemma execute_insert_witness :
  let E := scripted quiet in
  exists w' binds,
    Fsqlite_execute E plain_host insert_args open_world = Ret (Integer 1) w' /\
    trace w' = trace open_world
               ++ Sqlite3_prepare_v2 (Some 0%nat) "insert into t values (?, ?)" (-1)
               :: binds
               ++ [Sqlite3_step (Some 1%nat); Sqlite3_finalize (Some 1%nat);
                   Sqlite3_changes (Some 0%nat)].
Proof.
  intros E.
  destruct (Fsqlite_execute E plain_host insert_args open_world) as [v w'| |] eqn:Hrun;
    try (vm_compute in Hrun; discriminate).
  assert (Hv : v = Integer 1) by (vm_compute in Hrun; congruence).
  assert (Hp : pending w' = None).
  { vm_compute in Hrun. injection Hrun as _ <-. reflexivity. }
  destruct (execute_steps_once_and_returns_changes E plain_host insert_args
              open_world w' v eq_refl Hrun Hp)
    as (a & d & sql & rest & binds & Hargs & Ho & Ht & _).
  injection Hargs as <- <- <-.
  assert (Hd : d = 0%nat) by (vm_compute in Ho; congruence).
  subst d v. exists w', binds. split; [reflexivity | exact Ht].
Defined.

(** C6: when the connection is open, the SQL is a string and VALUES is
    acceptable, a prepare that does not return [SQLITE_OK], and a step that
    returns neither [SQLITE_OK] nor [SQLITE_DONE], make [Fsqlite_execute]
    raise [execute_failure] of that status and of the engine's current
    message: [sqlite_locked_error] exactly for [SQLITE_LOCKED] and
    [SQLITE_BUSY], [error] otherwise. *)
Theorem execute_failure_kind (E : sqlite3) (H : host) (w : world) (a d : nat)
    (sql : lisp_string) (rest : list emacs_value) :
  pending w = None -> open_connection w a d -> acceptable_values rest = true ->
  let args := sqlite_handle a :: Str sql :: rest in
  let prep := execute_prepare (Some d) sql in
  let rc0 := result_code E (effects (trace w)) prep in
  let stmt := result_ptr E (effects (trace w)) prep in
  (rc0 <> SQLITE_OK ->
   exists w',
     Fsqlite_execute E H args w = Ret (Q "nil") w' /\
     pending w' = Some (execute_failure rc0 (current_message E (Some d) w'))) /\
  (rc0 = SQLITE_OK ->
   forall w1,
     bind_parameters E H (Some d) stmt rest (log prep w) = Ret None w1 ->
     pending w1 = None ->
     let rc := result_code E (effects (trace w1)) (Sqlite3_step stmt) in
     rc <> SQLITE_OK -> rc <> SQLITE_DONE ->
     exists w',
       Fsqlite_execute E H args w = Ret (Q "nil") w' /\
       pending w' = Some (execute_failure rc (current_message E (Some d) w'))) /\
  (forall rc msg,
     fst (execute_failure rc msg) = "sqlite_locked_error" <->
     rc = SQLITE_LOCKED \/ rc = SQLITE_BUSY) /\
  (forall rc msg,
     fst (execute_failure rc msg) = "error" <->
     ~ (rc = SQLITE_LOCKED \/ rc = SQLITE_BUSY)).
Proof.
  intros Hp Ho Hacc args prep rc0 stmt.
  pose proof (Fsqlite_execute_open E H w a d sql rest Hp Ho) as Hexec.
  rewrite Hacc in Hexec. cbv zeta in Hexec. fold prep rc0 stmt in Hexec.
  fold args in Hexec.
  assert (Hkind : forall rc msg,
             (fst (execute_failure rc msg) = "sqlite_locked_error" <->
              rc = SQLITE_LOCKED \/ rc = SQLITE_BUSY) /\
             (fst (execute_failure rc msg) = "error" <->
              ~ (rc = SQLITE_LOCKED \/ rc = SQLITE_BUSY))).
  { intros rc msg. unfold execute_failure. cbn [fst].
    destruct (Z.eqb_spec rc SQLITE_LOCKED); destruct (Z.eqb_spec rc SQLITE_BUSY);
      cbn [orb]; split; split; intros; auto; try discriminate; tauto. }
  split; [|split; [|split]].
  - intros Hrc. destruct (Z.eqb_spec rc0 SQLITE_OK); [contradiction|].
    destruct (execute_prepare_failed_value E (Some d) stmt rc0 (log prep w) Hp)
      as (w' & Heq & Hp' & _).
    exists w'. rewrite Hexec. auto.
  - intros Hrc w1 Hbind Hp1 rc Hok Hdone.
    rewrite Hrc, Z.eqb_refl in Hexec.
    destruct (execute_step_failed E (Some d) stmt w1 Hp1 Hok Hdone)
      as (w' & Heq & Hp' & _).
    exists w'. rewrite Hexec. unfold execute_statement, bind. rewrite Hbind.
    auto.
  - intros rc msg. apply Hkind.
  - intros rc msg. apply Hkind.
Qed.

(** A busy engine at prepare time and at step time, a failing statement
    otherwise. *)
Lemma execute_failure_witness :
  let args := [sqlite_handle 0; text "insert into t values (1)"] in
  (exists w',
     Fsqlite_execute (scripted busy_at_prepare) plain_host args open_world
     = Ret (Q "nil") w' /\
     pending w' = Some ("sqlite_locked_error", [text "database is locked"])) /\
  (exists w',
     Fsqlite_execute (scripted busy_at_step) plain_host args open_world
     = Ret (Q "nil") w' /\
     pending w' = Some ("sqlite_locked_error", [text "database is locked"])).
Proof.
  intros args. split.
  - destruct (execute_failure_kind (scripted busy_at_prepare) plain_host open_world
                0%nat 0%nat (mk_string 24 "insert into t values (1)" None) []
                eq_refl eq_refl eq_refl) as (Hprep & _).
    destruct Hprep as (w' & Hrun & Hp); [discriminate|].
    exists w'. split; [exact Hrun|]. rewrite Hp. reflexivity.
  - destruct (execute_failure_kind (scripted busy_at_step) plain_host open_world
                0%nat 0%nat (mk_string 24 "insert into t values (1)" None) []
                eq_refl eq_refl eq_refl) as (_ & Hstep & _).
    destruct (Hstep eq_refl _ eq_refl eq_refl) as (w' & Hrun & Hp);
      [discriminate | discriminate |].
    exists w'. split; [exact Hrun|]. rewrite Hp. reflexivity.
Defined.

(** ** [Fsqlite_select] *)

Lemma select_with_values E H db stmt h sql rest w :
  pending w = None ->
  (with_values <- (if nargs (h :: sql :: rest) >? 2 then
                     is_nil <- NILP (arg (h :: sql :: rest) 2) ;; ret (negb is_nil)
                   else ret false) ;;
   if with_values : bool then
     err <- bind_values E H db stmt (arg (h :: sql :: rest) 2) ;;
     match err with
     | Some e => sqlite3_finalize E stmt ;;; ret (Some e)
     | None => ret None
     end
   else ret None) w
  = select_bind E H db stmt rest w.
Proof.
  intros Hp. unfold select_bind. destruct rest as [|v rest].
  - reflexivity.
  - assert (Hn : (nargs (h :: sql :: v :: rest) >? 2) = true).
    { rewrite !nargs_cons. pose proof (nargs_nonneg rest).
      apply Z.gtb_lt. lia. }
    rewrite Hn. unfold bind at 1. unfold bind at 1.
    change (arg (h :: sql :: v :: rest) 2) with v.
    rewrite NILP_value by pending. unfold ret at 1. cbn [bind_parameters].
    now destruct (eq_value v Qnil).
Qed.

Lemma Fsqlite_select_open E H fuel w a d sql rest :
  pending w = None -> open_connection w a d ->
  let args := sqlite_handle a :: Str sql :: rest in
  let prep := select_prepare (Some d) sql in
  let rc := result_code E (effects (trace w)) prep in
  let stmt := result_ptr E (effects (trace w)) prep in
  Fsqlite_select E H fuel args w
  = if rc =? SQLITE_OK then select_statement E H fuel (Some d) stmt args (log prep w)
    else select_prepare_failed E H stmt rc (log prep w).
Proof.
  intros Hp Ho args prep rc stmt. unfold Fsqlite_select.
  unfold bind at 1. change (arg args 0) with (sqlite_handle a).
  rewrite (lisp_sqlite_check_open w a d) by assumption. next_step. cbn [is_null].
  unfold bind at 1. change (arg args 1) with (Str sql).
  rewrite CHECK_STRING_string by pending. next_step. cbn [negb].
  unfold bind at 1. rewrite copy_string_contents_size by pending. next_step.
  unfold bind at 1. rewrite copy_string_contents_copy by pending. next_step.
  unfold bind at 1. unfold initialised at 1, ret at 1. next_step.
  unfold bind at 1. rewrite (load_sqlite_value a _ w Ho). next_step.
  unfold bind at 1. unfold sqlite3_prepare_v2 at 1, native_alloc. next_step.
  cbn [sq_db]. fold (select_prepare (Some d) sql). fold prep. fold rc. fold stmt.
  destruct (rc =? SQLITE_OK); cbn [negb]; [|reflexivity].
  unfold select_statement. rewrite <- bind_assoc. unfold bind at 1.
  unfold args at 1 2. rewrite select_with_values by pending. reflexivity.
Qed.

Lemma select_exit_value msg w :
  pending w = None ->
  select_exit msg w = Ret (Q "nil") (raise (error_signal (c_string msg)) w).
Proof.
  intros Hp. unfold select_exit, bind.
  rewrite build_string_value by assumption. now rewrite xsignal_raise by pending.
Qed.

Lemma binding_calls_not_finalize stmt binds :
  forallb binding_call binds = true -> ~ In (Sqlite3_finalize stmt) binds.
Proof.
  intros Hb Hin. rewrite forallb_forall in Hb. now specialize (Hb _ Hin).
Qed.

(** C2: when [bind_values] fails after a successful prepare,
    [Fsqlite_execute] goes to its exit and raises with the statement still
    allocated: after the prepare the log has binding calls only, and no
    [sqlite3_finalize].  [Fsqlite_select] finalizes the statement on the same
    path. *)
Theorem execute_bind_failure_skips_finalize (E : sqlite3) (H : host) (fuel : nat)
    (w : world) (a d : nat) (sql : lisp_string) (rest : list emacs_value) :
  pending w = None -> open_connection w a d -> acceptable_values rest = true ->
  let args := sqlite_handle a :: Str sql :: rest in
  (let prep := execute_prepare (Some d) sql in
   let stmt := result_ptr E (effects (trace w)) prep in
   result_code E (effects (trace w)) prep = SQLITE_OK ->
   forall e w1,
     bind_parameters E H (Some d) stmt rest (log prep w) = Ret (Some e) w1 ->
     exists w' binds,
       Fsqlite_execute E H args w = Ret (Q "nil") w' /\
       pending w' <> None /\
       trace w' = trace w ++ prep :: binds /\
       ~ In (Sqlite3_finalize stmt) (prep :: binds)) /\
  (let prep := select_prepare (Some d) sql in
   let stmt := result_ptr E (effects (trace w)) prep in
   result_code E (effects (trace w)) prep = SQLITE_OK ->
   forall e w1,
     bind_parameters E H (Some d) stmt rest (log prep w) = Ret (Some e) w1 ->
     exists w',
       Fsqlite_select E H fuel args w = Ret (Q "nil") w' /\
       pending w' <> None /\
       trace w' = trace w1 ++ [Sqlite3_finalize stmt]).
Proof.
  intros Hp Ho Hacc args. split.
  - intros prep stmt Hrc e w1 Hbind.
    pose proof (preserves_bind_parameters E H (Some d) stmt rest (log prep w)) as Hev.
    rewrite Hbind in Hev. destruct Hev as [_ _ _ (binds & Ht & Hb)].
    cbn [world_of] in Ht.
    unfold args. rewrite (Fsqlite_execute_open E H w a d sql rest Hp Ho), Hacc.
    cbv zeta. fold prep. fold stmt. rewrite Hrc, Z.eqb_refl.
    unfold execute_statement, bind. rewrite Hbind, execute_exit_value.
    eexists _, binds. split; [reflexivity|].
    destruct (pending w1) eqn:Hp1.
    + split; [congruence|]. rewrite Ht, trace_log, <- app_assoc.
      split; [reflexivity|]. intros [Hin|Hin]; [discriminate|].
      now apply (binding_calls_not_finalize stmt binds).
    + split; [discriminate|]. rewrite trace_raise, Ht, trace_log, <- app_assoc.
      split; [reflexivity|]. intros [Hin|Hin]; [discriminate|].
      now apply (binding_calls_not_finalize stmt binds).
  - intros prep stmt Hrc e w1 Hbind.
    unfold args. rewrite (Fsqlite_select_open E H fuel w a d sql rest Hp Ho).
    cbv zeta. fold prep. fold stmt. rewrite Hrc, Z.eqb_refl.
    unfold select_statement, select_bind. cbn [skipn]. unfold bind.
    rewrite Hbind. unfold_native. unfold ret. next_step.
    unfold select_exit, bind, xsignal, non_local_exit_signal, Q.
    destruct (pending w1) eqn:Hp1.
    + rewrite (build_string_pending _ s) by (now rewrite pending_log).
      rewrite pending_log, Hp1. eexists. split; [reflexivity|].
      rewrite pending_log, Hp1, trace_log. split; [discriminate | reflexivity].
    + rewrite build_string_value by (now rewrite pending_log).
      rewrite pending_log, Hp1. eexists. split; [reflexivity|].
      split; [discriminate | reflexivity].
Qed.

(** A parameter the codec rejects: the execute raises with the statement
    prepared and not finalized. *)
Lemma execute_bind_failure_witness :
  let E := scripted quiet in
  exists w' binds,
    Fsqlite_execute E plain_host bad_insert_args open_world = Ret (Q "nil") w' /\
    pending w' = Some (error_signal "invalid argument") /\
    trace w' = trace open_world
               ++ Sqlite3_prepare_v2 (Some 0%nat) "insert into t values (?)" (-1)
               :: binds /\
    ~ In (Sqlite3_finalize (Some 1%nat))
         (Sqlite3_prepare_v2 (Some 0%nat) "insert into t values (?)" (-1) :: binds).
Proof.
  intros E.
  destruct (execute_bind_failure_skips_finalize E plain_host 1 open_world 0%nat 0%nat
              (mk_string 24 "insert into t values (?)" None) [Vector [Q "foo"]]
              eq_refl eq_refl eq_refl) as (Hexec & _).
  destruct (Hexec eq_refl "invalid argument"
              (log (Sqlite3_reset (Some 1%nat))
                 (log (Sqlite3_prepare_v2 (Some 0%nat) "insert into t values (?)" (-1))
                    open_world)))
    as (w' & binds & Hrun & Hp & Ht & Hnot); [vm_compute; reflexivity|].
  exists w', binds. split; [exact Hrun|]. split; [|split; [exact Ht | exact Hnot]].
  assert (Hw : Ret (Q "nil") w'
               = Fsqlite_execute E plain_host bad_insert_args open_world)
    by (symmetry; exact Hrun).
  vm_compute in Hw. injection Hw as ->. reflexivity.
Defined.

Lemma call_nreverse_nil w :
  pending w = None -> call_nreverse (Q "nil") w = Ret (Q "nil") w.
Proof. intros Hp. unfold call_nreverse. now apply env_fn_value. Qed.

(** C1: in the default mode, when the first step of the statement returns a
    status [rc] that is not [SQLITE_ROW], whatever it is, [Fsqlite_select]
    finalizes the statement and returns the empty list with no signal
    raised. *)
Theorem select_step_status_not_checked (E : sqlite3) (H : host) (fuel : nat)
    (w : world) (a d : nat) (sql : lisp_string) :
  pending w = None -> open_connection w a d ->
  let args := [sqlite_handle a; Str sql] in
  let prep := select_prepare (Some d) sql in
  let stmt := result_ptr E (effects (trace w)) prep in
  result_code E (effects (trace w)) prep = SQLITE_OK ->
  let rc := result_code E (effects (trace w ++ [prep])) (Sqlite3_step stmt) in
  rc <> SQLITE_ROW ->
  exists w',
    Fsqlite_select E H (S fuel) args w = Ret (Q "nil") w' /\
    pending w' = None /\
    trace w' = trace w ++ [prep; Sqlite3_step stmt; Sqlite3_finalize stmt].
Proof.
  intros Hp Ho args prep stmt Hrc rc Hrow.
  unfold args. rewrite (Fsqlite_select_open E H (S fuel) w a d sql [] Hp Ho).
  cbv zeta. fold prep. fold stmt. rewrite Hrc, Z.eqb_refl.
  unfold select_statement, select_bind, bind_parameters. cbn [skipn].
  unfold bind at 1. unfold bind at 1. unfold ret at 1. next_step.
  unfold ret at 1. unfold select_rows.
  change (nargs [sqlite_handle a; Str sql] >? 3) with false. next_step.
  unfold bind at 1. unfold ret at 1. next_step.
  unfold bind at 1. cbn [select_loop]. unfold bind at 1.
  unfold sqlite3_step at 1, native_code. next_step.
  assert (Heff : effects (trace (log prep w)) = effects (trace w ++ [prep]))
    by reflexivity.
  rewrite Heff. fold rc.
  destruct (Z.eqb_spec rc SQLITE_ROW); [contradiction|].
  unfold ret at 1. next_step.
  unfold bind at 1. rewrite call_nreverse_nil by pending. next_step.
  unfold bind, ret. unfold_native. next_step.
  eexists. split; [reflexivity|].
  rewrite !pending_log, !trace_log, <- !app_assoc. now split.
Qed.

(** A busy engine at the first step: the select returns the empty list. *)
Lemma select_busy_witness :
  exists w',
    Fsqlite_select (scripted busy_at_step) plain_host 1
      [sqlite_handle 0; text "select * from t"] open_world = Ret (Q "nil") w' /\
    pending w' = None.
Proof.
  destruct (select_step_status_not_checked (scripted busy_at_step) plain_host 0
              open_world 0%nat 0%nat (mk_string 15 "select * from t" None)
              eq_refl eq_refl eq_refl) as (w' & Hrun & Hp & _); [discriminate|].
  exists w'. split; [exact Hrun | exact Hp].
Defined.

(** ** The codec *)

Lemma to_int_small z : - 2147483648 <= z <= INT_MAX -> to_int z = z.
Proof.
  unfold to_int, INT_MAX. intros Hz.
  rewrite Z.mod_small by lia. lia.
Qed.

Lemma byte_length_nonneg s : 0 <= byte_length s.
Proof. unfold byte_length. lia. Qed.

Lemma substring_app s t : substring 0 (String.length s) (s ++ t) = s.
Proof.
  induction s as [|c s IH]; simpl.
  - now destruct t.
  - now rewrite IH.
Qed.

Lemma bytes_prefix_app s t : bytes_prefix (byte_length s) (s ++ t) = s.
Proof.
  unfold bytes_prefix, byte_length. rewrite Nat2Z.id. apply substring_app.
Qed.

Lemma extract_float_value d w :
  pending w = None -> extract_float (Float d) w = Ret d w.
Proof. apply env_fn_value. Qed.

Lemma call_length_string s w :
  pending w = None -> call_length (Str s) w = Ret (Integer (schars s)) w.
Proof. apply env_fn_value. Qed.

Lemma call_get_text_property_coding_system pos s w :
  pending w = None ->
  call_get_text_property pos (Q "coding-system") (Str s) w
  = Ret (if schars s =? 0 then Qnil
         else match coding_system s with
              | Some cs => Q cs
              | None => Qnil
              end) w.
Proof.
  intros Hp. unfold call_get_text_property.
  change (eq_value (Q "coding-system") (Q "coding-system")) with true.
  destruct (schars s =? 0); cbn [negb andb]; [now apply env_fn_value|].
  destruct (coding_system s); now apply env_fn_value.
Qed.

Lemma tag_of_untagged s :
  coding_system s = None ->
  (if schars s =? 0 then Qnil
   else match coding_system s with
        | Some cs => Q cs
        | None => Qnil
        end) = Qnil.
Proof. intros ->. now destruct (schars s =? 0). Qed.

Lemma tag_of_tagged s cs :
  coding_system s = Some cs -> 0 < schars s ->
  (if schars s =? 0 then Qnil
   else match coding_system s with
        | Some cs => Q cs
        | None => Qnil
        end) = Q cs.
Proof.
  intros -> Hs. destruct (Z.eqb_spec (schars s) 0); [lia | reflexivity].
Qed.

(** One environment call at the head of the code. *)
Ltac env_rewrite :=
  first [ rewrite TYPE_OF_value by pending
        | rewrite EQ_value by pending
        | rewrite NILP_value by pending
        | rewrite make_int_value by pending
        | rewrite extract_float_value by pending
        | rewrite call_length_string by pending
        | rewrite call_get_text_property_coding_system by pending
        | rewrite copy_string_contents_size by pending
        | rewrite copy_string_contents_copy by pending
        | rewrite build_string_value by pending
        | rewrite xsignal_raise by pending ].

(** Comparisons of symbols are computed. *)
Ltac compare_step :=
  cbn [eq_value type_name Q Qnil Qt String.eqb Ascii.eqb Bool.eqb negb].

Ltac env_step :=
  first [ env_rewrite
        | unfold bind at 1; env_rewrite
        | unfold bind at 1; unfold bind at 1; env_rewrite ];
  next_step; compare_step; next_step.

(** The dispatch of a turn of the loop on a string. *)
Lemma bind_value_string E H db stmt i s w :
  pending w = None ->
  bind_value E H db stmt i (Str s) w
  = (r <- bind_string E H stmt i (Str s) ;; bind_status_test E db r) w.
Proof.
  intros Hp. unfold bind_value. env_step. env_step. reflexivity.
Qed.

Lemma bind_string_text E H stmt i s w :
  pending w = None -> coding_system s = None ->
  byte_length (sdata s) <= INT_MAX ->
  bind_string E H stmt i (Str s) w
  = (rc <- native_code E (Sqlite3_bind_text stmt (i + 1) (Some (sdata s ++ NUL)%string)
                            (byte_length (sdata s))) ;;
     ret (inr rc)) w.
Proof.
  intros Hp Hcs Hlen. pose proof (byte_length_nonneg (sdata s)) as Hnn.
  unfold bind_string. env_step. env_step. rewrite tag_of_untagged by assumption.
  env_step.
  unfold bind at 1. unfold ret at 1. next_step.
  env_step.
  destruct (Z.eqb_spec (byte_length (sdata s) + 1) 0) as [Hz|Hz]; [lia|].
  cbn [negb]. env_step.
  unfold bind at 1. unfold initialised at 1, ret at 1. next_step.
  unfold sqlite3_bind_text. rewrite Z.add_simpl_r.
  rewrite to_int_small by (unfold INT_MAX in *; lia). reflexivity.
Qed.

Lemma bind_string_blob E H stmt i s w :
  pending w = None -> coding_system s = Some "binary" ->
  schars s = byte_length (sdata s) ->
  0 < byte_length (sdata s) <= INT_MAX ->
  bind_string E H stmt i (Str s) w
  = (rc <- native_code E (Sqlite3_bind_blob stmt (i + 1) (Some (sdata s ++ NUL)%string)
                            (byte_length (sdata s))) ;;
     ret (inr rc)) w.
Proof.
  intros Hp Hcs Hchars Hlen.
  unfold bind_string. env_step. env_step.
  rewrite (tag_of_tagged s "binary") by (auto; lia). env_step.
  env_step.
  unfold bind at 1. unfold ret at 1. next_step.
  env_step.
  destruct (Z.eqb_spec (byte_length (sdata s) + 1) 0) as [Hz|Hz]; [lia|].
  cbn [negb]. env_step.
  unfold bind at 1. rewrite XFIXNUM_value
    by (try pending; unfold INTMAX_MIN, INTMAX_MAX, INT_MAX in *; lia).
  next_step. rewrite Hchars, Z.eqb_refl. cbn [negb].
  env_step.
  unfold bind at 1. unfold initialised at 1, ret at 1. next_step.
  unfold sqlite3_bind_blob. rewrite Z.add_simpl_r.
  rewrite to_int_small by (unfold INT_MAX in *; lia). reflexivity.
Qed.

(** A string tagged [binary] whose bytes are not its characters. *)
Lemma bind_string_bad_blob E H stmt i s w :
  pending w = None -> coding_system s = Some "binary" ->
  0 < schars s <= INTMAX_MAX ->
  byte_length (sdata s) <> schars s ->
  bind_string E H stmt i (Str s) w = Ret (inl "") (raise blob_error w).
Proof.
  intros Hp Hcs Hrange Hchars. pose proof (byte_length_nonneg (sdata s)) as Hnn.
  unfold bind_string. env_step. env_step.
  rewrite (tag_of_tagged s "binary") by (auto; lia). env_step.
  env_step.
  unfold bind at 1. unfold ret at 1. next_step.
  env_step.
  destruct (Z.eqb_spec (byte_length (sdata s) + 1) 0) as [Hz|Hz]; [lia|].
  cbn [negb]. env_step.
  unfold bind at 1. rewrite XFIXNUM_value
    by (try pending; unfold INTMAX_MIN; lia).
  next_step.
  destruct (Z.eqb_spec (byte_length (sdata s) + 1) (schars s + 1)) as [He|He]; [lia|].
  cbn [negb]. env_step. env_step. reflexivity.
Qed.

(** A string with a [coding-system] that is not [binary] is encoded, and the
    encoded bytes are bound as a text. *)
Lemma bind_string_encoded E H stmt i s cs s' w :
  pending w = None -> coding_system s = Some cs -> 0 < schars s ->
  cs <> "nil" -> cs <> "binary" ->
  encode_coding_string H (Str s) (Q cs) = inr (Str s') ->
  byte_length (sdata s') <= INT_MAX ->
  bind_string E H stmt i (Str s) w
  = (rc <- native_code E (Sqlite3_bind_text stmt (i + 1) (Some (sdata s' ++ NUL)%string)
                            (byte_length (sdata s'))) ;;
     ret (inr rc)) w.
Proof.
  intros Hp Hcs Hchars Hnil Hbin Henc Hlen.
  pose proof (byte_length_nonneg (sdata s')) as Hnn.
  apply String.eqb_neq in Hnil, Hbin.
  unfold bind_string. env_step. env_step.
  rewrite (tag_of_tagged s cs) by assumption.
  unfold bind at 1. rewrite NILP_value by pending. next_step.
  cbn [eq_value Q Qnil]. rewrite Hnil. cbn [negb].
  unfold bind at 1. unfold bind at 1. rewrite EQ_value by pending. next_step.
  cbn [eq_value Q]. rewrite Hbin.
  unfold bind at 1. unfold call_encode_coding_string at 1. fold (Q cs).
  rewrite Henc. rewrite env_fn_value by pending. unfold ret at 1. next_step.
  env_step.
  destruct (Z.eqb_spec (byte_length (sdata s') + 1) 0) as [Hz|Hz]; [lia|].
  cbn [negb]. env_step.
  unfold bind at 1. unfold initialised at 1, ret at 1. next_step.
  unfold sqlite3_bind_text. rewrite Z.add_simpl_r.
  rewrite to_int_small by (unfold INT_MAX in *; lia). reflexivity.
Qed.

(** The turn of the loop of [bind_values] for each Bound Value: one bind
    call, then the status test. *)
Lemma bind_value_bindable E H db stmt i b w :
  pending w = None -> bindable b ->
  bind_value E H db stmt i (to_bind b) w = bound E db (bind_call stmt i b) w.
Proof.
  intros Hp Hb. unfold bound.
  destruct b as [|n|d|bytes|bytes|[|]]; cbn [to_bind bind_call bindable] in *.
  - unfold bind_value. env_step. env_step. env_step. env_step. env_step.
    reflexivity.
  - unfold bind_value. env_step. env_step. env_step.
    unfold bind at 1. rewrite XFIXNUM_value by (try pending; assumption).
    next_step. reflexivity.
  - unfold bind_value. env_step. env_step. env_step. env_step. env_step.
    reflexivity.
  - unfold text. rewrite bind_value_string by assumption.
    unfold bind at 1.
    rewrite bind_string_text by (auto; reflexivity). reflexivity.
  - rewrite bind_value_string by assumption.
    unfold bind at 1.
    rewrite bind_string_blob by (auto; reflexivity). reflexivity.
  - unfold bind_value. do 6 env_step. reflexivity.
  - unfold bind_value. do 7 env_step. reflexivity.
Qed.

Lemma make_unibyte_string_value data len w :
  pending w = None -> 0 <= len ->
  make_unibyte_string data len w
  = Ret (Str (mk_string (byte_length (bytes_prefix len data))
                (bytes_prefix len data) None)) w.
Proof.
  intros Hp Hlen. unfold make_unibyte_string.
  destruct (Z.ltb_spec len 0); [lia|]. now apply env_fn_value.
Qed.

(** The switch of [row_to_value] on a column that reads as the cell [c]. *)
Lemma column_value_of_cell E stmt i c w :
  pending w = None -> column_is E (effects (trace w)) stmt i c ->
  exists w',
    column_value E stmt i w = Ret (value_of_cell c) w' /\
    pending w' = None /\ effects (trace w') = effects (trace w).
Proof.
  intros Hp Hc. unfold column_value. unfold_native.
  unfold bind at 1. next_step.
  destruct c as [|n|d|bytes|bytes]; cbn [column_is] in Hc.
  - rewrite Hc. change (SQLITE_NULL =? SQLITE_INTEGER) with false.
    change (SQLITE_NULL =? SQLITE_FLOAT) with false.
    change (SQLITE_NULL =? SQLITE_BLOB) with false.
    change (SQLITE_NULL =? SQLITE_TEXT) with false. next_step.
    eexists. split; [reflexivity|]. split; [pending|].
    now rewrite effects_log_observer.
  - destruct Hc as [Ht Hv]. rewrite Ht.
    change (SQLITE_INTEGER =? SQLITE_INTEGER) with true. next_step.
    unfold bind at 1. next_step.
    rewrite make_int_value by pending.
    rewrite (effects_log_observer (Sqlite3_column_type stmt i)), Hv by reflexivity.
    eexists. split; [reflexivity|]. split; [pending|].
    now rewrite !effects_log_observer.
  - destruct Hc as [Ht Hv]. rewrite Ht.
    change (SQLITE_FLOAT =? SQLITE_INTEGER) with false.
    change (SQLITE_FLOAT =? SQLITE_FLOAT) with true. next_step.
    unfold bind at 1. next_step.
    rewrite make_float_value by pending.
    rewrite (effects_log_observer (Sqlite3_column_type stmt i)), Hv by reflexivity.
    eexists. split; [reflexivity|]. split; [pending|].
    now rewrite !effects_log_observer.
  - destruct Hc as (Ht & Hv & Hn). rewrite Ht.
    change (SQLITE_TEXT =? SQLITE_INTEGER) with false.
    change (SQLITE_TEXT =? SQLITE_FLOAT) with false.
    change (SQLITE_TEXT =? SQLITE_BLOB) with false.
    change (SQLITE_TEXT =? SQLITE_TEXT) with true. next_step.
    unfold bind at 1. next_step. unfold bind at 1. next_step.
    rewrite !effects_log_observer, Hv, Hn by reflexivity.
    rewrite make_string_value by (try pending; apply byte_length_nonneg).
    rewrite bytes_prefix_all.
    eexists. split; [reflexivity|]. split; [pending|].
    now rewrite !effects_log_observer.
  - destruct Hc as (Ht & Hv & Hn). rewrite Ht.
    change (SQLITE_BLOB =? SQLITE_INTEGER) with false.
    change (SQLITE_BLOB =? SQLITE_FLOAT) with false.
    change (SQLITE_BLOB =? SQLITE_BLOB) with true. next_step.
    unfold bind at 1. next_step. unfold bind at 1. next_step.
    rewrite !effects_log_observer, Hv, Hn by reflexivity.
    rewrite make_unibyte_string_value by (try pending; apply byte_length_nonneg).
    rewrite bytes_prefix_all.
    eexists. split; [reflexivity|]. split; [pending|].
    now rewrite !effects_log_observer.
Qed.

Lemma string_eqb_refl s : String.eqb s s = true.
Proof. apply String.eqb_refl. Qed.




(** ** A Blob that is not unibyte *)

(** C10: when the loop of [bind_values] comes to a string tagged [binary]
    whose byte length is not its length in characters, it signals the
    invalid-blob error and returns at once, whatever the number of turns
    left: no bind call is made for this parameter or a later one, and the
    log is as it was. *)
Theorem invalid_blob_aborts_binding (E : sqlite3) (H : host) (db stmt : pointer)
    (s : lisp_string) (w : world) :
  pending w = None ->
  coding_system s = Some "binary" ->
  0 < schars s <= INTMAX_MAX ->
  byte_length (sdata s) <> schars s ->
  (forall i, bind_value E H db stmt i (Str s) w = Ret (Some "") (raise blob_error w)) /\
  (forall n i rest,
     bind_values_loop E H (S n) db stmt false i (Cons (Str s) rest) w
     = Ret (Some "") (raise blob_error w)) /\
  (forall n i elts,
     0 <= i -> nth_error elts (Z.to_nat i) = Some (Str s) ->
     bind_values_loop E H (S n) db stmt true i (Vector elts) w
     = Ret (Some "") (raise blob_error w)) /\
  pending (raise blob_error w) = Some blob_error /\
  trace (raise blob_error w) = trace w.
Proof.
  intros Hp Hcs Hrange Hbad.
  assert (Hone : forall i, bind_value E H db stmt i (Str s) w
                           = Ret (Some "") (raise blob_error w)).
  { intros i. rewrite bind_value_string by assumption. unfold bind.
    now rewrite bind_string_bad_blob by assumption. }
  split; [exact Hone|]. split; [|split; [|split; reflexivity]].
  - intros n i rest. cbn [bind_values_loop].
    unfold bind at 1. unfold bind at 1. unfold call_car at 1.
    rewrite env_fn_value by pending. next_step.
    unfold bind at 1. unfold call_cdr at 1.
    rewrite env_fn_value by pending. unfold ret at 1. next_step.
    unfold bind at 1. now rewrite Hone.
  - intros n i elts Hi Hnth. cbn [bind_values_loop].
    unfold bind at 1. unfold bind at 1. unfold vec_get at 1.
    destruct (Z.ltb_spec i 0); [lia|]. rewrite Hnth.
    rewrite env_fn_value by pending. unfold ret at 1. next_step.
    unfold bind at 1. now rewrite Hone.
Qed.

(** The second of three parameters is a multibyte string tagged [binary]:
    the loop returns at its turn. *)
Lemma invalid_blob_witness :
  let E := scripted quiet in
  bind_values_loop E plain_host 2 (Some 0%nat) (Some 1%nat) false 1
    (Cons (Str multibyte_blob) (Cons (Integer 3) Qnil)) open_world
  = Ret (Some "") (raise blob_error open_world) /\
  run E plain_host 1
    [(sqlite_execute,
      [sqlite_handle 0; text "insert into t values (?, ?, ?)";
       Vector [Integer 1; Str multibyte_blob; Integer 3]])]
    open_world
  = Ret [Raised blob_error]
      (log (Sqlite3_bind_int64 (Some 1%nat) 1 1)
         (log (Sqlite3_reset (Some 1%nat))
            (log (Sqlite3_prepare_v2 (Some 0%nat) "insert into t values (?, ?, ?)" (-1))
               open_world))).
Proof.
  intros E.
  assert (Hrange : 0 < schars multibyte_blob <= INTMAX_MAX)
    by (unfold INTMAX_MAX; simpl; lia).
  assert (Hbad : byte_length (sdata multibyte_blob) <> schars multibyte_blob)
    by (simpl; discriminate).
  destruct (invalid_blob_aborts_binding E plain_host (Some 0%nat) (Some 1%nat)
              multibyte_blob open_world eq_refl eq_refl Hrange Hbad)
    as (_ & Hlist & _).
  split; [apply Hlist | vm_compute; reflexivity].
Defined.

(** * Further properties *)

(** ** Relations that every step of the code respects

    A relation on worlds that holds across each primitive change of the
    world holds across the functions built from them.  Each lemma asks for
    the primitive changes its function can make, and for no other. *)

Create HintDb respect.

Section Frame.

Variable R : world -> world -> Prop.

Hypothesis R_refl : forall w, R w w.
Hypothesis R_trans : forall a b c, R a b -> R b c -> R a c.
Hypothesis R_signal : forall s w, pending w = None -> R w (set_pending (Some s) w).
Hypothesis R_log : forall c w, R w (log c w).
Hypothesis R_malloc_sqlite : forall s w, R w (set_sqlites (sqlites w ++ [s]) w).
Hypothesis R_malloc_statement :
  forall s w, R w (set_statements (statements w ++ [s]) w).
Hypothesis R_close :
  forall a s w, nth_error (sqlites w) a = Some s ->
                R w (set_sqlites (update (sqlites w) a {| sq_db := None |}) w).
Hypothesis R_finalize :
  forall a s w, nth_error (statements w) a = Some s ->
                R w (set_statements
                       (update (statements w) a
                          {| st_db := st_db s; st_stmt := None; st_eof := st_eof s |}) w).
Hypothesis R_eof :
  forall a s w, nth_error (statements w) a = Some s ->
                R w (set_statements
                       (update (statements w) a
                          {| st_db := st_db s; st_stmt := st_stmt s; st_eof := true |}) w).
Hypothesis R_incr : forall w, R w (set_db_count (db_count w + 1) w).

Local Abbreviation respects := (respects R).

Lemma respects_ret {A} (a : A) : respects (ret a).
Proof. intros w. apply R_refl. Qed.

Lemma respects_fault {A} : respects (@fault A).
Proof. intros w. apply R_refl. Qed.

Lemma respects_hang {A} : respects (fun w => @Hang A w).
Proof. intros w. apply R_refl. Qed.

Lemma respects_bind {A B} (m : M A) (k : A -> M B) :
  respects m -> (forall a, respects (k a)) -> respects (bind m k).
Proof.
  intros Hm Hk w. unfold bind. specialize (Hm w).
  destruct (m w) as [a w'| |]; cbn [world_of] in *; auto.
  eapply R_trans; [exact Hm | apply Hk].
Qed.

Lemma respects_env_fn {A} (failure : A) r : respects (env_fn failure r).
Proof.
  intros w. unfold env_fn. destruct (pending w) eqn:Hp; [apply R_refl|].
  destruct r; cbn [world_of]; [now apply R_signal | apply R_refl].
Qed.

Lemma respects_signal symbol data : respects (non_local_exit_signal symbol data).
Proof.
  intros w. unfold non_local_exit_signal.
  destruct (pending w) eqn:Hp; [apply R_refl|].
  destruct symbol; cbn [world_of]; now apply R_signal.
Qed.

Lemma respects_copy_string_contents value buf len :
  respects (copy_string_contents value buf len).
Proof.
  intros w. unfold copy_string_contents.
  destruct (pending w) eqn:Hp; [apply R_refl|].
  destruct value; cbn [world_of]; try now apply R_signal.
  destruct buf; [|apply R_refl].
  destruct (_ <? _); cbn [world_of]; [now apply R_signal | apply R_refl].
Qed.

Lemma respects_initialised buf : respects (initialised buf).
Proof. destruct buf; [apply respects_ret | apply respects_fault]. Qed.

Lemma respects_native_code E c : respects (native_code E c).
Proof. intros w. apply R_log. Qed.

Lemma respects_native_alloc E c : respects (native_alloc E c).
Proof. intros w. apply R_log. Qed.

Lemma respects_native_int E c : respects (native_int E c).
Proof. intros w. apply R_log. Qed.

Lemma respects_native_text E c : respects (native_text E c).
Proof. intros w. apply R_log. Qed.

Lemma respects_load_sqlite ptr : respects (load_sqlite ptr).
Proof.
  intros w. unfold load_sqlite. destruct ptr; [|apply R_refl].
  destruct (nth_error _ _); apply R_refl.
Qed.

Lemma respects_load_statement ptr : respects (load_statement ptr).
Proof.
  intros w. unfold load_statement. destruct ptr; [|apply R_refl].
  destruct (nth_error _ _); apply R_refl.
Qed.

Lemma respects_close_db ptr : respects (store_sq_db ptr None).
Proof.
  intros w. unfold store_sq_db. destruct ptr; [|apply R_refl].
  destruct (nth_error _ _) eqn:Hs; [|apply R_refl].
  eapply R_close; eauto.
Qed.

Lemma respects_finalize_stmt ptr : respects (store_st_stmt ptr None).
Proof.
  intros w. unfold store_st_stmt. destruct ptr; [|apply R_refl].
  destruct (nth_error _ _) eqn:Hs; [|apply R_refl].
  now apply R_finalize.
Qed.

Lemma respects_set_eof ptr : respects (store_st_eof ptr true).
Proof.
  intros w. unfold store_st_eof. destruct ptr; [|apply R_refl].
  destruct (nth_error _ _) eqn:Hs; [|apply R_refl].
  now apply R_eof.
Qed.

Lemma respects_malloc_sqlite s : respects (malloc_sqlite s).
Proof. intros w. apply R_malloc_sqlite. Qed.

Lemma respects_malloc_statement s : respects (malloc_statement s).
Proof. intros w. apply R_malloc_statement. Qed.

Lemma respects_incr_db_count : respects incr_db_count.
Proof.
  intros w. unfold incr_db_count.
  destruct (_ <? _); [apply R_incr | apply R_refl].
Qed.

Local Hint Resolve respects_ret respects_fault respects_hang respects_env_fn
  respects_signal respects_copy_string_contents respects_initialised
  respects_native_code respects_native_alloc respects_native_int
  respects_native_text respects_load_sqlite respects_load_statement
  respects_close_db respects_finalize_stmt respects_set_eof respects_malloc_sqlite
  respects_malloc_statement respects_incr_db_count : respect.

(** The proof follows the code: binds, branches, and the primitives at the
    leaves. *)
Ltac respect :=
  unfold_wrappers;
  repeat match goal with
    | |- respects (bind _ _) => apply respects_bind; [| intros ?]
    | |- respects (if ?b then _ else _) => destruct b
    | |- respects (let '(_, _) := ?p in _) => destruct p
    | |- respects (match ?x with _ => _ end) => destruct x
    | |- respects _ => solve [auto with respect]
    end.

Variable E : sqlite3.
Variable H : host.

Lemma respects_CHECK_STRING v : respects (CHECK_STRING v).
Proof. unfold CHECK_STRING. respect. Qed.

Lemma respects_user_ptr_check v : respects (user_ptr_check v).
Proof. unfold user_ptr_check. respect. Qed.

Lemma respects_lisp_sqlite_check v : respects (lisp_sqlite_check v).
Proof. pose proof respects_user_ptr_check. unfold lisp_sqlite_check. respect. Qed.

Lemma respects_lisp_statement_check v : respects (lisp_statement_check v).
Proof. pose proof respects_user_ptr_check. unfold lisp_statement_check. respect. Qed.

Lemma respects_lisp_sqlite_make db : respects (lisp_sqlite_make db).
Proof. unfold lisp_sqlite_make. respect. Qed.

Lemma respects_lisp_statement_make db stmt : respects (lisp_statement_make db stmt).
Proof. unfold lisp_statement_make. respect. Qed.

Lemma respects_bind_string stmt i v : respects (bind_string E H stmt i v).
Proof. unfold bind_string. respect. Qed.

Lemma respects_bind_status_test db r : respects (bind_status_test E db r).
Proof. unfold bind_status_test. respect. Qed.

Lemma respects_bind_value db stmt i v : respects (bind_value E H db stmt i v).
Proof.
  unfold bind_value. pose proof respects_bind_string.
  pose proof respects_bind_status_test. respect.
Qed.

Lemma respects_bind_values_loop n db stmt is_vector :
  forall i values, respects (bind_values_loop E H n db stmt is_vector i values).
Proof.
  pose proof respects_bind_value.
  induction n as [|n IH]; intros i values; cbn [bind_values_loop]; respect.
Qed.

Lemma respects_bind_values db stmt values : respects (bind_values E H db stmt values).
Proof. unfold bind_values. pose proof respects_bind_values_loop. respect. Qed.

Lemma respects_execute_exit rc errmsg : respects (execute_exit rc errmsg).
Proof. unfold execute_exit. respect. Qed.

Lemma respects_select_exit errmsg : respects (select_exit errmsg).
Proof. unfold select_exit. respect. Qed.

Lemma respects_column_value stmt i : respects (column_value E stmt i).
Proof. unfold column_value. respect. Qed.

Lemma respects_row_to_value_loop n stmt :
  forall i values, respects (row_to_value_loop E n stmt i values).
Proof.
  pose proof respects_column_value.
  induction n as [|n IH]; intros i values; cbn [row_to_value_loop]; respect.
Qed.

Lemma respects_row_to_value stmt : respects (row_to_value E stmt).
Proof. unfold row_to_value. pose proof respects_row_to_value_loop. respect. Qed.

Lemma respects_column_names_loop n stmt :
  forall i columns, respects (column_names_loop E n stmt i columns).
Proof.
  induction n as [|n IH]; intros i columns; cbn [column_names_loop]; respect.
Qed.

Lemma respects_column_names stmt : respects (column_names E stmt).
Proof. unfold column_names. pose proof respects_column_names_loop. respect. Qed.

Lemma respects_select_loop fuel stmt :
  forall retval, respects (select_loop E fuel stmt retval).
Proof.
  pose proof respects_row_to_value.
  induction fuel as [|fuel IH]; intros retval; cbn [select_loop]; respect.
Qed.

Lemma respects_Fsqlite_open args : respects (Fsqlite_open E H args).
Proof. pose proof respects_lisp_sqlite_make. unfold Fsqlite_open. respect. Qed.

Lemma respects_Fsqlite_close args : respects (Fsqlite_close E args).
Proof. pose proof respects_lisp_sqlite_check. unfold Fsqlite_close. respect. Qed.

Lemma respects_Fsqlite_execute args : respects (Fsqlite_execute E H args).
Proof.
  pose proof respects_lisp_sqlite_check. pose proof respects_CHECK_STRING.
  pose proof respects_bind_values. pose proof respects_execute_exit.
  unfold Fsqlite_execute. respect.
Qed.

Lemma respects_Fsqlite_select fuel args : respects (Fsqlite_select E H fuel args).
Proof.
  pose proof respects_lisp_sqlite_check. pose proof respects_CHECK_STRING.
  pose proof respects_bind_values. pose proof respects_select_exit.
  pose proof respects_lisp_statement_make. pose proof respects_select_loop.
  pose proof respects_column_names.
  unfold Fsqlite_select. respect.
Qed.

Lemma respects_Fsqlite_transaction args : respects (Fsqlite_transaction E args).
Proof. pose proof respects_lisp_sqlite_check. unfold Fsqlite_transaction. respect. Qed.

Lemma respects_Fsqlite_commit args : respects (Fsqlite_commit E args).
Proof. pose proof respects_lisp_sqlite_check. unfold Fsqlite_commit. respect. Qed.

Lemma respects_Fsqlite_rollback args : respects (Fsqlite_rollback E args).
Proof. pose proof respects_lisp_sqlite_check. unfold Fsqlite_rollback. respect. Qed.

Lemma respects_Fsqlite_pragma args : respects (Fsqlite_pragma E H args).
Proof. pose proof respects_lisp_sqlite_check. unfold Fsqlite_pragma. respect. Qed.

Lemma respects_Fsqlite_next args : respects (Fsqlite_next E args).
Proof.
  pose proof respects_lisp_statement_check. pose proof respects_row_to_value.
  unfold Fsqlite_next. respect.
Qed.

Lemma respects_Fsqlite_columns args : respects (Fsqlite_columns E args).
Proof.
  pose proof respects_lisp_statement_check. pose proof respects_column_names.
  unfold Fsqlite_columns. respect.
Qed.

Lemma respects_Fsqlite_more_p args : respects (Fsqlite_more_p args).
Proof. pose proof respects_lisp_statement_check. unfold Fsqlite_more_p. respect. Qed.

Lemma respects_Fsqlite_finalize args : respects (Fsqlite_finalize E args).
Proof. pose proof respects_lisp_statement_check. unfold Fsqlite_finalize. respect. Qed.

Lemma respects_Fsqlitep args : respects (Fsqlitep args).
Proof. pose proof respects_user_ptr_check. unfold Fsqlitep. respect. Qed.

Lemma respects_subr fuel f args : respects (subr_function E H fuel f args).
Proof.
  destruct f; cbn [subr_function];
    auto using respects_Fsqlite_open, respects_Fsqlite_close, respects_Fsqlite_execute,
      respects_Fsqlite_select, respects_Fsqlite_transaction, respects_Fsqlite_commit,
      respects_Fsqlite_rollback, respects_Fsqlite_pragma, respects_Fsqlite_next,
      respects_Fsqlite_columns, respects_Fsqlite_more_p, respects_Fsqlite_finalize,
      respects_Fsqlitep, respects_ret.
Qed.

Lemma respects_open_file name flags : respects (open_file E name flags).
Proof. pose proof respects_lisp_sqlite_make. unfold open_file. respect. Qed.

Lemma respects_subr_but_open fuel f args :
  f <> sqlite_open -> respects (subr_function E H fuel f args).
Proof.
  intros Hf. destruct f; [contradiction | ..]; cbn [subr_function];
    auto using respects_Fsqlite_close, respects_Fsqlite_execute,
      respects_Fsqlite_select, respects_Fsqlite_transaction, respects_Fsqlite_commit,
      respects_Fsqlite_rollback, respects_Fsqlite_pragma, respects_Fsqlite_next,
      respects_Fsqlite_columns, respects_Fsqlite_more_p, respects_Fsqlite_finalize,
      respects_Fsqlitep, respects_ret.
Qed.

Lemma respects_subr_reading fuel f args :
  writes_handles f = false -> respects (subr_function E H fuel f args).
Proof.
  intros Hf. destruct f; try discriminate; cbn [subr_function];
    auto using respects_Fsqlite_execute, respects_Fsqlite_transaction,
      respects_Fsqlite_commit, respects_Fsqlite_rollback, respects_Fsqlite_pragma,
      respects_Fsqlite_columns, respects_Fsqlite_more_p, respects_Fsqlitep,
      respects_ret.
Qed.

End Frame.

(** ** Handles keep their native objects *)

Lemma stable_same w w' :
  sqlites w' = sqlites w -> statements w' = statements w -> stable w w'.
Proof.
  intros Hq Ht. split.
  - intros a s Hs. left. now rewrite Hq.
  - intros a s Hs. exists s. rewrite Ht. auto.
Qed.

Lemma stable_refl w : stable w w.
Proof. now apply stable_same. Qed.

Lemma stable_trans a b c : stable a b -> stable b c -> stable a c.
Proof.
  intros [q1 t1] [q2 t2]. split.
  - intros x s Hs. destruct (q1 x s Hs) as [H1|H1].
    + exact (q2 x s H1).
    + destruct (q2 x _ H1) as [H2|H2]; now right.
  - intros x s Hs. destruct (t1 x s Hs) as (s1 & H1 & Hdb1 & Hst1).
    destruct (t2 x s1 H1) as (s2 & H2 & Hdb2 & Hst2).
    exists s2. split; [assumption|]. split; [congruence|].
    destruct Hst2 as [Hst2|Hst2]; [|now right].
    destruct Hst1 as [Hst1|Hst1]; [left | right]; congruence.
Qed.

Lemma stable_set_pending s w : stable w (set_pending s w).
Proof. now apply stable_same. Qed.

Lemma stable_log c w : stable w (log c w).
Proof. now apply stable_same. Qed.

Lemma stable_incr w : stable w (set_db_count (db_count w + 1) w).
Proof. now apply stable_same. Qed.

Lemma nth_error_app_old {A} (l : list A) x a y :
  nth_error l a = Some y -> nth_error (l ++ [x]) a = Some y.
Proof.
  intros Hy. rewrite nth_error_app1; auto.
  apply nth_error_Some. congruence.
Qed.

Lemma stable_malloc_sqlite s w : stable w (set_sqlites (sqlites w ++ [s]) w).
Proof.
  split; cbn [sqlites statements set_sqlites].
  - intros a x Hx. left. now apply nth_error_app_old.
  - intros a x Hx. exists x. auto.
Qed.

Lemma stable_malloc_statement s w : stable w (set_statements (statements w ++ [s]) w).
Proof.
  split; cbn [sqlites statements set_statements].
  - intros a x Hx. now left.
  - intros a x Hx. exists x. split; [now apply nth_error_app_old | auto].
Qed.

Lemma stable_close a s w :
  nth_error (sqlites w) a = Some s ->
  stable w (set_sqlites (update (sqlites w) a {| sq_db := None |}) w).
Proof.
  intros Hs. split; cbn [sqlites statements set_sqlites].
  - intros b x Hx. destruct (Nat.eq_dec a b) as [<-|Hab].
    + right. eapply nth_error_update_same; eauto.
    + left. now rewrite nth_error_update_other.
  - intros b x Hx. exists x. auto.
Qed.

Lemma stable_store_statement a s stmt eof w :
  nth_error (statements w) a = Some s ->
  stmt = st_stmt s \/ stmt = None ->
  stable w (set_statements
              (update (statements w) a
                 {| st_db := st_db s; st_stmt := stmt; st_eof := eof |}) w).
Proof.
  intros Hs Hstmt. split; cbn [sqlites statements set_statements].
  - intros b x Hx. now left.
  - intros b x Hx. destruct (Nat.eq_dec a b) as [<-|Hab].
    + eexists. split; [eapply nth_error_update_same; eauto|].
      assert (x = s) by congruence. subst x. cbn [st_db st_stmt]. auto.
    + exists x. rewrite nth_error_update_other by assumption. auto.
Qed.

Lemma stable_subr E H fuel f args : respects stable (subr_function E H fuel f args).
Proof.
  apply respects_subr.
  - exact stable_refl.
  - exact stable_trans.
  - intros s w _. apply stable_set_pending.
  - exact stable_log.
  - exact stable_malloc_sqlite.
  - exact stable_malloc_statement.
  - exact stable_close.
  - intros a s w Hs. apply stable_store_statement; auto.
  - intros a s w Hs. apply stable_store_statement; auto.
  - exact stable_incr.
Qed.

Lemma stable_funcall E H fuel f args : respects stable (funcall E H fuel f args).
Proof.
  intros w. unfold funcall.
  destruct (_ && _); [|apply stable_refl].
  pose proof (stable_subr E H fuel f args (set_pending None w)) as Hs.
  assert (Hin : stable w (set_pending None w)) by apply stable_set_pending.
  destruct (subr_function _ _ _ _ _ _) as [v w'| |]; cbn [world_of] in *.
  - destruct (pending w'); cbn [world_of].
    + eapply stable_trans; [exact Hin|].
      eapply stable_trans; [exact Hs | apply stable_set_pending].
    + eapply stable_trans; eassumption.
  - eapply stable_trans; eassumption.
  - eapply stable_trans; eassumption.
Qed.

Lemma stable_run E H fuel calls : respects stable (run E H fuel calls).
Proof.
  induction calls as [|[f args] rest IH]; cbn [run].
  - intros w. apply stable_refl.
  - apply respects_bind; [exact stable_trans | apply stable_funcall |].
    intros r. apply respects_bind; [exact stable_trans | exact IH |].
    intros rs w. apply stable_refl.
Qed.

(** X1: across every sequence of calls into the module, a connection struct
    is either as it was or closed, and a cursor struct keeps its connection
    and keeps its statement or is finalized: no handle is given another
    native object, and none is released. *)
Theorem handles_keep_their_native_objects (E : sqlite3) (H : host) (fuel : nat)
    (calls : list (subr * list emacs_value)) (w : world) :
  let w' := world_of (run E H fuel calls w) in
  (forall a d, open_connection w a d ->
               open_connection w' a d \/ closed_connection w' a) /\
  (forall a db p eof,
     open_statement w a db p eof ->
     exists s', nth_error (statements w') a = Some s' /\ st_db s' = db /\
                (st_stmt s' = Some p \/ st_stmt s' = None)) /\
  (forall a, closed_statement w a -> closed_statement w' a).
Proof.
  intros w'. destruct (stable_run E H fuel calls w) as [Hq Ht].
  fold w' in Hq, Ht. split; [|split].
  - intros a d Ho. exact (Hq a _ Ho).
  - intros a db p eof Ho. destruct (Ht a _ Ho) as (s' & Hs' & Hdb & Hst).
    exists s'. auto.
  - intros a (s & Hs & Hnone). destruct (Ht a s Hs) as (s' & Hs' & _ & Hst).
    exists s'. split; [assumption|]. destruct Hst; congruence.
Qed.

(** ** Cursors *)

Lemma lisp_statement_check_open w a db p eof :
  pending w = None -> open_statement w a db p eof ->
  lisp_statement_check (statement_handle a) w = Ret (Some a) w.
Proof.
  intros Hp Ho. rewrite lisp_statement_check_cases by assumption.
  unfold statement_validation, statement_handle. now rewrite Ho.
Qed.

Lemma lisp_statement_check_closed w a :
  pending w = None -> closed_statement w a ->
  lisp_statement_check (statement_handle a) w
  = Ret None (raise (error_signal "Statement closed") w).
Proof.
  intros Hp (s & Hs & Hnone). rewrite lisp_statement_check_cases by assumption.
  unfold statement_validation, statement_handle. rewrite Hs.
  destruct s as [db stmt eof]. cbn [st_stmt] in Hnone. now subst stmt.
Qed.

Lemma Fsqlite_finalize_open E w a db p eof rest :
  pending w = None -> open_statement w a db p eof ->
  Fsqlite_finalize E (statement_handle a :: rest) w
  = Ret (Q "t")
        (set_statements
           (update (statements w) a {| st_db := db; st_stmt := None; st_eof := eof |})
           (log (Sqlite3_finalize (Some p)) w)).
Proof.
  intros Hp Ho. unfold Fsqlite_finalize.
  change (arg (statement_handle a :: rest) 0) with (statement_handle a).
  unfold bind at 1. rewrite (lisp_statement_check_open w a db p eof) by assumption.
  next_step. cbn [is_null].
  unfold bind at 1. rewrite (load_statement_value a _ w Ho). next_step.
  unfold bind at 1. unfold sqlite3_finalize at 1, native_code. next_step.
  unfold bind at 1. unfold store_st_stmt. cbn [statements log st_stmt st_db st_eof].
  unfold open_statement in Ho. rewrite Ho. reflexivity.
Qed.

Lemma funcall_pending E H fuel f args w r w' :
  pending w = None -> funcall E H fuel f args w = Ret r w' -> pending w' = None.
Proof.
  intros Hp. unfold funcall. destruct (_ && _); [|now intros [= _ <-]].
  destruct (subr_function _ _ _ _ _ _) as [v w1| |]; try discriminate.
  destruct (pending w1) eqn:Hp1; intros [= _ <-]; auto.
Qed.

Lemma run_pending E H fuel calls :
  forall w rs w', pending w = None -> run E H fuel calls w = Ret rs w' ->
                  pending w' = None.
Proof.
  induction calls as [|[f args] rest IH]; intros w rs w' Hp; cbn [run].
  - now intros [= _ <-].
  - unfold bind at 1.
    destruct (funcall E H fuel f args w) as [r w1| |] eqn:Hcall; try discriminate.
    unfold bind at 1.
    destruct (run E H fuel rest w1) as [rs1 w2| |] eqn:Hrest; try discriminate.
    intros [= _ <-]. eapply IH; [|exact Hrest].
    eapply funcall_pending; eauto.
Qed.

(** X2: [Fsqlite_finalize] on a cursor that holds a statement finalizes the
    statement once and returns [t]; from then on, whatever is called in
    between, [Fsqlite_next], [Fsqlite_columns], [Fsqlite_more_p] and
    [Fsqlite_finalize] on that cursor signal the closed error and return
    without a call to the engine. *)
Theorem finalized_cursor_is_rejected (E : sqlite3) (H : host) (fuel : nat)
    (w : world) (a : nat) (db : pointer) (p : nat) (eof : bool) :
  pending w = None -> open_statement w a db p eof ->
  exists w1,
    Fsqlite_finalize E [statement_handle a] w = Ret (Q "t") w1 /\
    trace w1 = trace w ++ [Sqlite3_finalize (Some p)] /\
    pending w1 = None /\
    forall calls rs w2,
      run E H fuel calls w1 = Ret rs w2 ->
      let closed := raise (error_signal "Statement closed") w2 in
      Fsqlite_next E [statement_handle a] w2 = Ret (Q "nil") closed /\
      Fsqlite_columns E [statement_handle a] w2 = Ret (Q "nil") closed /\
      Fsqlite_more_p [statement_handle a] w2 = Ret (Q "nil") closed /\
      Fsqlite_finalize E [statement_handle a] w2 = Ret (Q "nil") closed /\
      trace closed = trace w2.
Proof.
  intros Hp Ho. eexists.
  split; [exact (Fsqlite_finalize_open E w a db p eof [] Hp Ho)|].
  split; [reflexivity|]. split; [exact Hp|].
  intros calls rs w2 Hrun closed.
  set (w1 := set_statements _ _) in Hrun.
  assert (Hc1 : closed_statement w1 a).
  { exists {| st_db := db; st_stmt := None; st_eof := eof |}.
    split; [|reflexivity]. unfold w1. cbn [statements set_statements log].
    eapply nth_error_update_same; exact Ho. }
  pose proof (stable_run E H fuel calls w1) as [_ Ht].
  rewrite Hrun in Ht. cbn [world_of] in Ht.
  assert (Hc2 : closed_statement w2 a).
  { destruct Hc1 as (s & Hs & Hnone). destruct (Ht a s Hs) as (s' & Hs' & _ & Hst).
    exists s'. split; [assumption|]. destruct Hst; congruence. }
  assert (Hp2 : pending w2 = None) by (eapply run_pending; [|exact Hrun]; exact Hp).
  pose proof (lisp_statement_check_closed w2 a Hp2 Hc2) as Hv.
  unfold Fsqlite_next, Fsqlite_columns, Fsqlite_more_p, Fsqlite_finalize, bind.
  change (arg [statement_handle a] 0) with (statement_handle a).
  rewrite Hv. cbn [is_null]. repeat split.
Qed.

(** The cursor of [cursor_world], finalized, then used again. *)
Lemma finalized_cursor_witness :
  let E := scripted quiet in
  let cursor := statement_handle 0 in
  exists w2,
    Fsqlite_finalize E [cursor] cursor_world = Ret (Q "t") w2 /\
    Fsqlite_next E [cursor] w2
    = Ret (Q "nil") (raise (error_signal "Statement closed") w2).
Proof.
  intros E cursor.
  destruct (finalized_cursor_is_rejected E plain_host 1 cursor_world 0 (Some 0%nat)
              1 false eq_refl eq_refl) as (w2 & Hfin & _ & _ & Hafter).
  destruct (Hafter [] [] w2 eq_refl) as (Hnext & _).
  exists w2. split; [exact Hfin | exact Hnext].
Defined.

(** ** What the functions leave alone *)

Lemma same_handles_refl w : same_handles w w.
Proof. now split. Qed.

Lemma same_handles_trans a b c : same_handles a b -> same_handles b c -> same_handles a c.
Proof. unfold same_handles. intros (? & ? & ?) (? & ? & ?). repeat split; congruence. Qed.

Lemma same_handles_subr E H fuel f args :
  writes_handles f = false -> respects same_handles (subr_function E H fuel f args).
Proof.
  intros Hf.
  apply respects_subr_reading.
  - exact same_handles_refl.
  - exact same_handles_trans.
  - intros s w _. now repeat split.
  - intros c w. now repeat split.
  - exact Hf.
Qed.

(** X3: a call of [sqlite-execute], [sqlite-transaction], [sqlite-commit],
    [sqlite-rollback], [sqlite-pragma], [sqlite-columns], [sqlite-more-p],
    [sqlitep] or [sqlite-available-p] leaves every handle struct and the
    counter as they were, whatever the arguments are and whatever the engine
    answers, also when the call fails. *)
Theorem calls_that_leave_the_handles_alone (E : sqlite3) (H : host) (fuel : nat)
    (f : subr) (args : list emacs_value) (w : world) :
  writes_handles f = false ->
  let w' := world_of (funcall E H fuel f args w) in
  sqlites w' = sqlites w /\ statements w' = statements w /\ db_count w' = db_count w.
Proof.
  intros Hf w'. subst w'. unfold funcall.
  destruct (_ && _); [|now repeat split].
  pose proof (same_handles_subr E H fuel f args Hf (set_pending None w)) as Hs.
  destruct (subr_function _ _ _ _ _ _) as [v w1| |]; cbn [world_of] in *;
    [destruct (pending w1); cbn [world_of] | |]; exact Hs.
Qed.

(** An execute whose parameter is rejected leaves the connection open. *)
Lemma handles_left_alone_witness :
  sqlites (world_of (funcall (scripted quiet) plain_host 1 sqlite_execute
                       bad_insert_args open_world))
  = [{| sq_db := Some 0%nat |}].
Proof.
  destruct (calls_that_leave_the_handles_alone (scripted quiet) plain_host 1
              sqlite_execute bad_insert_args open_world eq_refl) as (Hq & _).
  rewrite Hq. reflexivity.
Defined.

(** ** The counter of the anonymous databases *)

Lemma same_count_subr E H fuel f args :
  f <> sqlite_open -> respects same_count (subr_function E H fuel f args).
Proof.
  intros Hf. apply respects_subr_but_open; try exact Hf; unfold same_count;
    intros; cbn [db_count set_pending log set_sqlites set_statements]; congruence.
Qed.

Lemma Fsqlite_open_named E H v w :
  pending w = None -> eq_value v Qnil = false ->
  Fsqlite_open E H [v] w
  = (name <- call_expand_file_name H v (Q "nil") ;; open_file E name open_flags) w.
Proof.
  intros Hp Hv. unfold Fsqlite_open.
  change (nargs [v] >? 0) with true. next_step. change (arg [v] 0) with v.
  unfold bind at 1. unfold bind at 1. rewrite NILP_value by pending.
  unfold ret at 1. next_step. rewrite Hv. cbn [negb].
  rewrite bind_assoc. reflexivity.
Qed.

Lemma same_count_open_named E H v w :
  pending w = None -> eq_value v Qnil = false ->
  same_count w (world_of (Fsqlite_open E H [v] w)).
Proof.
  intros Hp Hv. rewrite Fsqlite_open_named by assumption.
  assert (Hr : respects same_count
                 (name <- call_expand_file_name H v (Q "nil") ;;
                  open_file E name open_flags)).
  { apply respects_bind.
    - unfold same_count. congruence.
    - apply respects_env_fn; unfold same_count; reflexivity.
    - intros name. apply respects_open_file; unfold same_count;
        intros; cbn [db_count set_pending log set_sqlites]; congruence. }
  apply Hr.
Qed.

Lemma funcall_count E H fuel f args w r w' :
  funcall E H fuel f args w = Ret r w' ->
  db_count w' = db_count w + anonymous_opens [(f, args)].
Proof.
  intros Hcall.
  assert (Hother : f <> sqlite_open -> db_count w' = db_count w).
  { intros Hf. revert Hcall. unfold funcall.
    destruct (_ && _); [|now intros [= _ <-]].
    pose proof (same_count_subr E H fuel f args Hf (set_pending None w)) as Hs.
    destruct (subr_function _ _ _ _ _ _) as [v w1| |]; try discriminate.
    cbn [world_of] in Hs.
    destruct (pending w1); intros [= _ <-]; exact Hs. }
  destruct f; cbn [anonymous_opens]; try (rewrite Hother by discriminate; lia).
  destruct (anonymous args) eqn:Ha.
  - destruct (funcall_open_anonymous E H fuel args w r w' Ha Hcall) as [_ Hc]. lia.
  - revert Hcall. unfold funcall.
    destruct args as [|v [|v' rest]]; [discriminate | | now intros [= _ <-]; lia].
    cbn [anonymous] in Ha.
    change ((min_arity sqlite_open <=? List.length [v])%nat
            && (List.length [v] <=? max_arity sqlite_open)%nat) with true.
    cbn [subr_function].
    pose proof (same_count_open_named E H v (set_pending None w) eq_refl Ha) as Hs.
    destruct (Fsqlite_open E H [v] (set_pending None w)) as [x w1| |]; try discriminate.
    cbn [world_of] in Hs. unfold same_count in Hs. cbn [db_count set_pending] in Hs.
    destruct (pending w1); intros [= _ <-]; cbn [db_count set_pending]; lia.
Qed.

(** X4: the counter of the module counts the anonymous opens, the failed
    ones too: after a sequence of calls it has grown by the number of calls
    of [sqlite-open] without a file name (no argument, or nil), and no other
    call changes it. *)
Theorem counter_counts_anonymous_opens (E : sqlite3) (H : host) (fuel : nat)
    (calls : list (subr * list emacs_value)) (w w' : world) (rs : list result) :
  run E H fuel calls w = Ret rs w' ->
  db_count w' = db_count w + anonymous_opens calls.
Proof.
  revert w rs. induction calls as [|[f args] rest IH]; intros w rs; cbn [run].
  - intros [= _ <-]. cbn [anonymous_opens]. lia.
  - unfold bind at 1.
    destruct (funcall E H fuel f args w) as [r w1| |] eqn:Hcall; try discriminate.
    unfold bind at 1.
    destruct (run E H fuel rest w1) as [rs1 w2| |] eqn:Hrest; try discriminate.
    intros [= _ <-]. rewrite (IH _ _ Hrest).
    rewrite (funcall_count E H fuel f args w r w1 Hcall).
    cbn [anonymous_opens]. destruct f; try lia.
Qed.

(** Two anonymous opens, one of a file and a close: the counter is 2. *)
Lemma counter_witness :
  exists rs w',
    run (scripted quiet) plain_host 1
      [(sqlite_open, []); (sqlite_open, [text "/tmp/a.db"]);
       (sqlite_close, [sqlite_handle 0]); (sqlite_open, [Qnil])]
      initial_world = Ret rs w' /\
    db_count w' = 2.
Proof.
  eexists _, _.
  refine (let Hrun := _ in
          conj Hrun (counter_counts_anonymous_opens (scripted quiet) plain_host 1
                       _ initial_world _ _ Hrun)).
  vm_compute. reflexivity.
Defined.

(** ** [Fsqlite_open] *)

Lemma c_string_NUL s : c_string (s ++ NUL) = c_string s.
Proof.
  induction s as [|c s IH]; [reflexivity|].
  cbn [append c_string]. rewrite IH. reflexivity.
Qed.

Lemma open_file_string E s flags w :
  pending w = None ->
  open_file E (Str s) flags w = opened E (Sqlite3_open_v2 (c_string (sdata s)) flags) w.
Proof.
  intros Hp. unfold open_file, opened.
  unfold bind at 1. rewrite copy_string_contents_size by pending. next_step.
  unfold bind at 1. rewrite copy_string_contents_copy by pending. next_step.
  unfold bind at 1. unfold initialised at 1, ret at 1. next_step.
  unfold bind at 1. unfold sqlite3_open_v2 at 1, native_alloc. next_step.
  rewrite c_string_NUL.
  destruct (_ =? SQLITE_OK); cbn [negb]; [|reflexivity].
  now rewrite lisp_sqlite_make_value by pending.
Qed.

(** With an exit pending nothing is copied: the buffer is read unwritten. *)
Lemma open_file_pending E name flags s w :
  pending w = Some s -> open_file E name flags w = Fault w.
Proof.
  intros Hp. unfold open_file.
  unfold bind at 1. unfold copy_string_contents at 1. rewrite Hp. next_step.
  unfold bind at 1. unfold copy_string_contents at 1. rewrite Hp. next_step.
  reflexivity.
Qed.



(** X6: the results of [expand-file-name] and of [concat] are not tested.
    When the host function signals, [Fsqlite_open] and [Fsqlite_pragma] go
    on with no string to copy, and pass a buffer that was never written to
    the engine. *)
Theorem host_failure_is_not_tested (E : sqlite3) (H : host) (w : world) :
  pending w = None ->
  (forall v s,
     eq_value v Qnil = false ->
     expand_file_name H v (Q "nil") = inl s ->
     Fsqlite_open E H [v] w = Fault (raise s w)) /\
  (forall a d v s,
     open_connection w a d ->
     concat H (text "PRAGMA ") v = inl s ->
     Fsqlite_pragma E H [sqlite_handle a; v] w = Fault (raise s w)).
Proof.
  intros Hp. split.
  - intros v s Hv Hname. rewrite Fsqlite_open_named by assumption.
    unfold bind, call_expand_file_name. rewrite Hname.
    rewrite env_fn_signal by assumption. now apply open_file_pending with s.
  - intros a d v s Ho Hcat. unfold Fsqlite_pragma.
    change (arg [sqlite_handle a; v] 0) with (sqlite_handle a).
    change (arg [sqlite_handle a; v] 1) with v.
    unfold bind at 1. rewrite (lisp_sqlite_check_open w a d) by assumption.
    next_step. cbn [is_null].
    unfold bind at 1. rewrite build_string_value by pending. next_step.
    change (c_string "PRAGMA ") with "PRAGMA ".
    unfold bind at 1. unfold call_concat at 1. rewrite Hcat.
    rewrite env_fn_signal by assumption. next_step.
    unfold bind at 1. unfold copy_string_contents at 1. rewrite pending_raise. next_step.
    unfold bind at 1. unfold copy_string_contents at 1. rewrite pending_raise. next_step.
    reflexivity.
Qed.

(** A number where the file name, and where the pragma, is expected. *)
Lemma host_failure_witness :
  Fsqlite_open (scripted quiet) plain_host [Integer 5] initial_world
  = Fault (raise (wrong_type "stringp" (Integer 5)) initial_world) /\
  Fsqlite_pragma (scripted quiet) plain_host [sqlite_handle 0; Integer 5] open_world
  = Fault (raise (wrong_type "sequencep" (Integer 5)) open_world).
Proof.
  split.
  - destruct (host_failure_is_not_tested (scripted quiet) plain_host initial_world
                eq_refl) as (Hopen & _).
    exact (Hopen (Integer 5) _ eq_refl eq_refl).
  - destruct (host_failure_is_not_tested (scripted quiet) plain_host open_world
                eq_refl) as (_ & Hpragma).
    exact (Hpragma 0%nat 0%nat (Integer 5) _ eq_refl eq_refl).
Defined.

(** ** [Fsqlite_close] and the finalizers *)

Lemma Fsqlite_close_open E w a d rest :
  pending w = None -> open_connection w a d ->
  Fsqlite_close E (sqlite_handle a :: rest) w
  = Ret (Q "t") (close_struct a (log (Sqlite3_close (Some d)) w)).
Proof.
  intros Hp Ho. unfold Fsqlite_close.
  change (arg (sqlite_handle a :: rest) 0) with (sqlite_handle a).
  unfold bind at 1. rewrite (lisp_sqlite_check_open w a d) by assumption.
  next_step. cbn [is_null].
  unfold bind at 1. rewrite (load_sqlite_value a _ w Ho). next_step.
  unfold bind at 1. unfold sqlite3_close at 1, native_code. next_step.
  unfold bind at 1. unfold store_sq_db. cbn [sqlites log sq_db].
  unfold open_connection in Ho. rewrite Ho. reflexivity.
Qed.

Lemma close_struct_closed a s w :
  nth_error (sqlites w) a = Some s -> closed_connection (close_struct a w) a.
Proof.
  intros Hs. unfold closed_connection, close_struct. cbn [sqlites set_sqlites].
  eapply nth_error_update_same; exact Hs.
Qed.

(** X7: [Fsqlite_close] on an open connection calls [sqlite3_close] once,
    marks the struct closed and returns [t], whatever status the engine
    returns.  The other structs are as they were.  A second close signals
    the closed error and does not reach the engine. *)
Theorem close_marks_the_handle_closed (E : sqlite3) (w : world) (a d : nat) :
  pending w = None -> open_connection w a d ->
  let w1 := close_struct a (log (Sqlite3_close (Some d)) w) in
  Fsqlite_close E [sqlite_handle a] w = Ret (Q "t") w1 /\
  closed_connection w1 a /\
  (forall b, b <> a -> nth_error (sqlites w1) b = nth_error (sqlites w) b) /\
  statements w1 = statements w /\
  Fsqlite_close E [sqlite_handle a] w1
  = Ret (Q "nil") (raise (error_signal "Database closed") w1) /\
  trace (raise (error_signal "Database closed") w1) = trace w ++ [Sqlite3_close (Some d)].
Proof.
  intros Hp Ho w1.
  assert (Hc : closed_connection w1 a) by (eapply close_struct_closed; exact Ho).
  split; [now apply Fsqlite_close_open|]. split; [exact Hc|].
  split; [|split; [reflexivity|split; [|reflexivity]]].
  - intros b Hb. unfold w1, close_struct. cbn [sqlites set_sqlites log].
    apply nth_error_update_other. congruence.
  - unfold Fsqlite_close, bind.
    change (arg [sqlite_handle a] 0) with (sqlite_handle a).
    now rewrite (lisp_sqlite_check_closed w1 a) by (auto; exact Hp).
Qed.

(** The connection of [open_world], closed twice. *)
Lemma close_witness :
  let E := scripted busy_at_step in
  let w1 := close_struct 0 (log (Sqlite3_close (Some 0%nat)) open_world) in
  Fsqlite_close E [sqlite_handle 0] open_world = Ret (Q "t") w1 /\
  Fsqlite_close E [sqlite_handle 0] w1
  = Ret (Q "nil") (raise (error_signal "Database closed") w1).
Proof.
  intros E w1.
  destruct (close_marks_the_handle_closed E open_world 0 0 eq_refl eq_refl)
    as (Hfirst & _ & _ & _ & Hsecond & _).
  split; [exact Hfirst | exact Hsecond].
Defined.



(** ** Transactions and pragmas *)

Lemma exec_open E w a d sql (k := fun rc : Z => if negb (rc =? SQLITE_OK)
                                                then ret (Q "nil") else ret (Q "t")) :
  open_connection w a d ->
  (s <- load_sqlite (Some a) ;; rc <- sqlite3_exec E (sq_db s) sql ;; k rc) w
  = executed E (Some d) sql w.
Proof.
  intros Ho. unfold bind at 1. rewrite (load_sqlite_value a _ w Ho). next_step.
  unfold bind, sqlite3_exec, native_code, executed, k. cbn [sq_db].
  now destruct (_ =? SQLITE_OK).
Qed.

Lemma Fsqlite_exec_open E w a d rest :
  pending w = None -> open_connection w a d ->
  Fsqlite_transaction E (sqlite_handle a :: rest) w = executed E (Some d) "begin" w /\
  Fsqlite_commit E (sqlite_handle a :: rest) w = executed E (Some d) "commit" w /\
  Fsqlite_rollback E (sqlite_handle a :: rest) w = executed E (Some d) "rollback" w.
Proof.
  intros Hp Ho.
  unfold Fsqlite_transaction, Fsqlite_commit, Fsqlite_rollback.
  change (arg (sqlite_handle a :: rest) 0) with (sqlite_handle a).
  split; [|split].
  - unfold bind at 1. rewrite (lisp_sqlite_check_open w a d) by assumption.
    next_step. now apply exec_open.
  - unfold bind at 1. rewrite (lisp_sqlite_check_open w a d) by assumption.
    next_step. cbn [is_null]. now apply exec_open.
  - unfold bind at 1. rewrite (lisp_sqlite_check_open w a d) by assumption.
    next_step. cbn [is_null]. now apply exec_open.
Qed.

(** X9: on an open connection [Fsqlite_transaction], [Fsqlite_commit] and
    [Fsqlite_rollback] make one [sqlite3_exec] of [begin], [commit] and
    [rollback]; they return [t] when the status is [SQLITE_OK] and nil
    otherwise, and raise no signal for a failure of the engine. *)
Theorem transaction_calls_report_by_value (E : sqlite3) (w : world) (a d : nat) :
  pending w = None -> open_connection w a d ->
  Fsqlite_transaction E [sqlite_handle a] w = executed E (Some d) "begin" w /\
  Fsqlite_commit E [sqlite_handle a] w = executed E (Some d) "commit" w /\
  Fsqlite_rollback E [sqlite_handle a] w = executed E (Some d) "rollback" w /\
  (forall sql, pending (world_of (executed E (Some d) sql w)) = None).
Proof.
  intros Hp Ho.
  destruct (Fsqlite_exec_open E w a d [] Hp Ho) as (Hbegin & Hcommit & Hrollback).
  split; [exact Hbegin|]. split; [exact Hcommit|]. split; [exact Hrollback|].
  intros sql. exact Hp.
Qed.

(** A commit that the engine refuses returns nil. *)
Lemma transaction_witness :
  let E := scripted {| open_status := SQLITE_OK; prepare_status := SQLITE_OK;
                       prepare_stmt := None; bind_status := SQLITE_OK;
                       step_statuses := []; exec_status := SQLITE_BUSY;
                       message := "database is locked"; changed := 0;
                       column_labels := [] |} in
  Fsqlite_commit E [sqlite_handle 0] open_world
  = Ret (Q "nil") (log (Sqlite3_exec (Some 0%nat) "commit") open_world).
Proof.
  intros E.
  destruct (transaction_calls_report_by_value E open_world 0 0 eq_refl eq_refl)
    as (_ & Hcommit & _).
  rewrite Hcommit. reflexivity.
Defined.

Lemma Fsqlite_pragma_open E H w a d v s rest :
  pending w = None -> open_connection w a d ->
  concat H (text "PRAGMA ") v = inr (Str s) ->
  Fsqlite_pragma E H (sqlite_handle a :: v :: rest) w
  = executed E (Some d) (c_string (sdata s)) w.
Proof.
  intros Hp Ho Hcat. unfold Fsqlite_pragma.
  change (arg (sqlite_handle a :: v :: rest) 0) with (sqlite_handle a).
  change (arg (sqlite_handle a :: v :: rest) 1) with v.
  unfold bind at 1. rewrite (lisp_sqlite_check_open w a d) by assumption.
  next_step. cbn [is_null].
  unfold bind at 1. rewrite build_string_value by pending. next_step.
  change (c_string "PRAGMA ") with "PRAGMA ".
  unfold bind at 1. unfold call_concat at 1. rewrite Hcat.
  rewrite env_fn_value by assumption. next_step.
  unfold bind at 1. rewrite copy_string_contents_size by pending. next_step.
  unfold bind at 1. rewrite copy_string_contents_copy by pending. next_step.
  unfold bind at 1. unfold initialised at 1, ret at 1. next_step.
  rewrite c_string_NUL. now apply exec_open.
Qed.

(** X10: on an open connection [Fsqlite_pragma] makes one [sqlite3_exec] of
    the string that [concat] makes of ["PRAGMA "] and its argument, up to the
    first NUL byte; it returns [t] when the status is [SQLITE_OK] and nil
    otherwise, and raises no signal for a failure of the engine. *)
Theorem pragma_executes_the_concatenation (E : sqlite3) (H : host) (w : world)
    (a d : nat) (v : emacs_value) (s : lisp_string) :
  pending w = None -> open_connection w a d ->
  concat H (text "PRAGMA ") v = inr (Str s) ->
  Fsqlite_pragma E H [sqlite_handle a; v] w
  = executed E (Some d) (c_string (sdata s)) w /\
  pending (world_of (Fsqlite_pragma E H [sqlite_handle a; v] w)) = None.
Proof.
  intros Hp Ho Hcat.
  pose proof (Fsqlite_pragma_open E H w a d v s [] Hp Ho Hcat) as Hrun.
  split; [exact Hrun|]. rewrite Hrun. exact Hp.
Qed.

(** A pragma on the scripted engine. *)
Lemma pragma_witness :
  Fsqlite_pragma (scripted quiet) plain_host
    [sqlite_handle 0; text "journal_mode = WAL"] open_world
  = Ret (Q "t") (log (Sqlite3_exec (Some 0%nat) "PRAGMA journal_mode = WAL") open_world).
Proof.
  destruct (pragma_executes_the_concatenation (scripted quiet) plain_host open_world
              0 0 (text "journal_mode = WAL")
              (mk_string 25 "PRAGMA journal_mode = WAL" None) eq_refl eq_refl eq_refl)
    as (Hrun & _).
  rewrite Hrun. reflexivity.
Defined.

(** ** [Fsqlitep] *)

(** X11: [Fsqlitep] returns [t] for the handles of the module, connections
    and cursors, open or closed, and nil for every other value; it raises no
    signal and reads no struct. *)
Theorem sqlitep_recognises_the_handles (v : emacs_value) (rest : list emacs_value)
    (w : world) :
  pending w = None ->
  Fsqlitep (v :: rest) w = Ret (if module_handle v then Q "t" else Q "nil") w.
Proof.
  intros Hp. unfold Fsqlitep, user_ptr_check.
  change (arg (v :: rest) 0) with v.
  unfold bind at 1. unfold bind at 1. rewrite TYPEP_value by assumption. next_step.
  destruct v as [name|n|bits|s|x y|l|fin p];
    cbn [type_name String.eqb Ascii.eqb Bool.eqb module_handle]; try reflexivity.
  unfold get_user_finalizer. rewrite env_fn_value by assumption. next_step.
  destruct fin as [[| |id]|]; reflexivity.
Qed.

(** A closed connection is still a handle; a user pointer of another module
    is not. *)
Lemma sqlitep_witness :
  Fsqlitep [sqlite_handle 0] closed_world = Ret (Q "t") closed_world /\
  Fsqlitep [User_ptr (Some (foreign_free 7)) 0] closed_world = Ret (Q "nil") closed_world.
Proof.
  split.
  - exact (sqlitep_recognises_the_handles (sqlite_handle 0) [] closed_world eq_refl).
  - exact (sqlitep_recognises_the_handles (User_ptr (Some (foreign_free 7)) 0) []
             closed_world eq_refl).
Defined.

(** ** The checks of the arguments *)

Lemma CHECK_STRING_other v w :
  pending w = None -> type_name v <> "string" ->
  CHECK_STRING v w = Ret false (raise (wrong_type "stringp" v) w).
Proof.
  intros Hp Hv. rewrite CHECK_STRING_cases by assumption.
  destruct v; try reflexivity. now contradiction Hv.
Qed.

(** X12: with an open connection, [Fsqlite_execute] and [Fsqlite_select]
    signal [wrong-type-argument] for an SQL argument that is not a string,
    and [Fsqlite_execute] signals an error for VALUES that is not nil, a cons
    or a vector; in both cases they return before the statement is prepared,
    with the log as it was. *)
Theorem arguments_are_checked_before_the_prepare (E : sqlite3) (H : host)
    (fuel : nat) (w : world) (a d : nat) :
  pending w = None -> open_connection w a d ->
  (forall v rest,
     type_name v <> "string" ->
     Fsqlite_execute E H (sqlite_handle a :: v :: rest) w
     = Ret (Q "nil") (raise (wrong_type "stringp" v) w) /\
     Fsqlite_select E H fuel (sqlite_handle a :: v :: rest) w
     = Ret (Q "nil") (raise (wrong_type "stringp" v) w)) /\
  (forall sql rest,
     acceptable_values rest = false ->
     Fsqlite_execute E H (sqlite_handle a :: Str sql :: rest) w
     = Ret (Q "nil") (raise (error_signal "VALUES must be a list or a vector") w)) /\
  (forall s, trace (raise s w) = trace w).
Proof.
  intros Hp Ho. split; [|split; [|reflexivity]].
  - intros v rest Hv. unfold Fsqlite_execute, Fsqlite_select.
    change (arg (sqlite_handle a :: v :: rest) 0) with (sqlite_handle a).
    change (arg (sqlite_handle a :: v :: rest) 1) with v.
    split; unfold bind at 1;
      rewrite (lisp_sqlite_check_open w a d) by assumption; next_step; cbn [is_null];
      unfold bind at 1; rewrite CHECK_STRING_other by assumption; reflexivity.
  - intros sql rest Hacc.
    rewrite (Fsqlite_execute_open E H w a d sql rest Hp Ho). now rewrite Hacc.
Qed.

(** A number as the SQL, and a number as VALUES. *)
Lemma arguments_witness :
  Fsqlite_select (scripted quiet) plain_host 1 [sqlite_handle 0; Integer 1] open_world
  = Ret (Q "nil") (raise (wrong_type "stringp" (Integer 1)) open_world) /\
  Fsqlite_execute (scripted quiet) plain_host
    [sqlite_handle 0; text "insert into t values (?)"; Integer 1] open_world
  = Ret (Q "nil") (raise (error_signal "VALUES must be a list or a vector") open_world).
Proof.
  destruct (arguments_are_checked_before_the_prepare (scripted quiet) plain_host 1
              open_world 0 0 eq_refl eq_refl) as (Hsql & Hvalues & _).
  split.
  - apply (Hsql (Integer 1) []). discriminate.
  - apply (Hvalues (mk_string 24 "insert into t values (?)" None) [Integer 1]).
    reflexivity.
Defined.

Lemma sequence_false v :
  sequence v = false ->
  eq_value v Qnil = false /\ list_of_value v = None /\
  String.eqb (type_name v) "vector" = false /\ acceptable_values [v] = false.
Proof.
  unfold sequence, acceptable_values.
  destruct v as [name|n|bits|s|x y|l|fin p];
    cbn [type_name eq_value Qnil Q list_of_value String.eqb Ascii.eqb Bool.eqb orb];
    try discriminate; try (intros _; repeat split; reflexivity).
  intros Hn. rewrite !orb_false_r in Hn. rewrite Hn. repeat split.
Qed.

Lemma XFIXNUM_pending v s w : pending w = Some s -> XFIXNUM v w = Ret 0 w.
Proof. intros Hp. unfold XFIXNUM, extract_integer. now apply env_fn_pending with s. Qed.

(** [bind_values] on a value that is not a sequence: [length] signals, the
    loop makes no turn and the function returns NULL. *)
Lemma bind_values_not_a_sequence E H db stmt v w :
  pending w = None -> sequence v = false ->
  bind_values E H db stmt v w
  = Ret None (raise (wrong_type "sequencep" v) (log (Sqlite3_reset stmt) w)).
Proof.
  intros Hp Hv. destruct (sequence_false v Hv) as (Hnil & Hlist & Hvec & _).
  unfold bind_values.
  unfold bind at 1. unfold sqlite3_reset at 1, native_code. next_step.
  unfold bind at 1. rewrite TYPEP_value by pending. next_step. rewrite Hvec.
  unfold bind at 1. unfold bind at 1. unfold call_length at 1.
  assert (Hlen : match v with
                 | Vector l => inr (Integer (Z.of_nat (List.length l)))
                 | Str s => inr (Integer (schars s))
                 | _ => match list_of_value v with
                        | Some l => inr (Integer (Z.of_nat (List.length l)))
                        | None => inl (wrong_type "sequencep" v)
                        end
                 end = (inl (wrong_type "sequencep" v) : signal + emacs_value)).
  { unfold sequence in Hv. rewrite Hlist.
    destruct v; try reflexivity; cbn [type_name String.eqb Ascii.eqb Bool.eqb] in Hv;
      rewrite ?orb_true_r in Hv; discriminate. }
  rewrite Hlen. rewrite env_fn_signal by pending. next_step.
  rewrite (XFIXNUM_pending _ (wrong_type "sequencep" v)) by reflexivity.
  reflexivity.
Qed.

(** X13: [Fsqlite_select] does not test VALUES as [Fsqlite_execute] does.
    For VALUES that is not a sequence, [bind_values] raises
    [wrong-type-argument] from [length] and returns no error, and the
    function goes on: it steps the statement (here a first step that returns
    no row) and finalizes it, and the signal is delivered on return.
    [Fsqlite_execute] with the same arguments raises before the prepare. *)
Theorem select_steps_with_invalid_values (E : sqlite3) (H : host) (fuel : nat)
    (w : world) (a d : nat) (sql : lisp_string) (v : emacs_value) :
  pending w = None -> open_connection w a d -> sequence v = false ->
  let prep := select_prepare (Some d) sql in
  let stmt := result_ptr E (effects (trace w)) prep in
  result_code E (effects (trace w)) prep = SQLITE_OK ->
  result_code E (effects (trace w ++ [prep; Sqlite3_reset stmt])) (Sqlite3_step stmt)
  <> SQLITE_ROW ->
  (exists w',
     Fsqlite_select E H (S fuel) [sqlite_handle a; Str sql; v] w = Ret NULL_value w' /\
     pending w' = Some (wrong_type "sequencep" v) /\
     trace w' = trace w ++ [prep; Sqlite3_reset stmt; Sqlite3_step stmt;
                            Sqlite3_finalize stmt]) /\
  Fsqlite_execute E H [sqlite_handle a; Str sql; v] w
  = Ret (Q "nil") (raise (error_signal "VALUES must be a list or a vector") w).
Proof.
  intros Hp Ho Hv prep stmt Hrc Hrow.
  destruct (sequence_false v Hv) as (Hnil & _ & _ & Hacc).
  split.
  2:{ rewrite (Fsqlite_execute_open E H w a d sql [v] Hp Ho). now rewrite Hacc. }
  rewrite (Fsqlite_select_open E H (S fuel) w a d sql [v] Hp Ho).
  cbv zeta. fold prep. fold stmt. rewrite Hrc, Z.eqb_refl.
  unfold select_statement, select_bind, bind_parameters. cbn [skipn]. rewrite Hnil.
  unfold bind at 1. unfold bind at 1.
  rewrite bind_values_not_a_sequence by (auto; pending). next_step.
  unfold ret at 1. next_step. unfold select_rows.
  change (nargs [sqlite_handle a; Str sql; v] >? 3) with false. next_step.
  unfold bind at 1. unfold ret at 1. next_step.
  unfold bind at 1. cbn [select_loop]. unfold bind at 1.
  unfold sqlite3_step at 1, native_code. next_step.
  assert (Heff : effects (trace (raise (wrong_type "sequencep" v)
                                   (log (Sqlite3_reset stmt) (log prep w))))
                 = effects (trace w ++ [prep; Sqlite3_reset stmt])).
  { rewrite trace_raise, !trace_log, <- app_assoc. reflexivity. }
  rewrite Heff.
  destruct (Z.eqb_spec (result_code E (effects (trace w ++ [prep; Sqlite3_reset stmt]))
                          (Sqlite3_step stmt)) SQLITE_ROW) as [Hr|_];
    [contradiction|].
  unfold ret at 1. next_step.
  unfold bind at 1. unfold call_nreverse at 1.
  rewrite (env_fn_pending _ _ (wrong_type "sequencep" v)) by reflexivity. next_step.
  unfold bind, ret. unfold_native. next_step.
  eexists. split; [reflexivity|].
  rewrite !pending_log, pending_raise, !trace_log, trace_raise, !trace_log,
    <- !app_assoc.
  now split.
Qed.

(** A number as VALUES of a select whose statement yields no row. *)
Lemma select_invalid_values_witness :
  exists w',
    Fsqlite_select (scripted quiet) plain_host 1
      [sqlite_handle 0; text "delete from t"; Integer 5] open_world = Ret NULL_value w' /\
    pending w' = Some (wrong_type "sequencep" (Integer 5)) /\
    In (Sqlite3_step (Some 1%nat)) (trace w').
Proof.
  destruct (select_steps_with_invalid_values (scripted quiet) plain_host 0 open_world
              0 0 (mk_string 13 "delete from t" None) (Integer 5)
              eq_refl eq_refl eq_refl eq_refl) as ((w' & Hrun & Hp & Ht) & _);
    [discriminate|].
  exists w'. split; [exact Hrun|]. split; [exact Hp|].
  rewrite Ht. apply in_or_app. right. cbn. auto.
Defined.

(** ** Cursors from [Fsqlite_select] *)

Lemma lisp_statement_make_value db stmt w :
  pending w = None ->
  lisp_statement_make db stmt w
  = Ret (statement_handle (List.length (statements w))) (new_cursor db stmt w).
Proof.
  intros Hp. unfold lisp_statement_make, bind, malloc_statement, make_user_ptr.
  now rewrite env_fn_value by pending.
Qed.

Lemma nth_error_app_new {A} (l : list A) x : nth_error (l ++ [x]) (List.length l) = Some x.
Proof.
  rewrite nth_error_app2 by lia. now rewrite Nat.sub_diag.
Qed.



(** ** [Fsqlite_next] *)

Lemma same_handles_row_to_value E stmt : respects same_handles (row_to_value E stmt).
Proof.
  apply respects_row_to_value.
  - exact same_handles_refl.
  - exact same_handles_trans.
  - intros s w _. now repeat split.
  - intros c w. now repeat split.
Qed.



(** ** Rows *)

Lemma list_of_value_of_list l : list_of_value (value_of_list l) = Some l.
Proof.
  induction l as [|x l IH]; [reflexivity|].
  cbn [value_of_list fold_right list_of_value]. fold (value_of_list l).
  now rewrite IH.
Qed.

Lemma call_cons_value a d w :
  pending w = None -> call_cons a d w = Ret (Cons a d) w.
Proof. apply env_fn_value. Qed.

Lemma call_nreverse_value l w :
  pending w = None ->
  call_nreverse (value_of_list l) w = Ret (value_of_list (rev l)) w.
Proof.
  intros Hp. unfold call_nreverse. rewrite list_of_value_of_list.
  now apply env_fn_value.
Qed.

(** The loop of [row_to_value] on the columns from [i] on, which read as
    [rest]: their values are consed onto the ones before, last first. *)
Lemma row_to_value_loop_cells E stmt :
  forall rest i acc w,
    pending w = None ->
    (forall j c, nth_error rest j = Some c ->
                 column_is E (effects (trace w)) stmt (i + Z.of_nat j) c) ->
    exists w',
      row_to_value_loop E (List.length rest) stmt i (value_of_list acc) w
      = Ret (value_of_list (rev (map value_of_cell rest) ++ acc)) w' /\
      pending w' = None /\ effects (trace w') = effects (trace w).
Proof.
  induction rest as [|c rest IH]; intros i acc w Hp Hcols.
  - exists w. now repeat split.
  - cbn [List.length row_to_value_loop].
    assert (Hc : column_is E (effects (trace w)) stmt i c).
    { specialize (Hcols 0%nat c eq_refl). now rewrite Z.add_0_r in Hcols. }
    destruct (column_value_of_cell E stmt i c w Hp Hc) as (w1 & Hv & Hp1 & He1).
    unfold bind at 1. rewrite Hv. next_step.
    unfold bind at 1. rewrite call_cons_value by assumption. next_step.
    destruct (IH (i + 1) (value_of_cell c :: acc) w1 Hp1) as (w' & Hloop & Hp' & He').
    { intros j x Hx. rewrite He1.
      replace (i + 1 + Z.of_nat j) with (i + Z.of_nat (S j)) by lia.
      now apply Hcols. }
    exists w'. change (Cons (value_of_cell c) (value_of_list acc))
      with (value_of_list (value_of_cell c :: acc)).
    rewrite Hloop. cbn [map rev]. rewrite <- app_assoc. cbn [app].
    split; [reflexivity|]. split; [assumption | congruence].
Qed.

Lemma row_to_value_cells E stmt cells w :
  pending w = None -> row_is E (effects (trace w)) stmt cells ->
  exists w',
    row_to_value E stmt w = Ret (row_value cells) w' /\
    pending w' = None /\ effects (trace w') = effects (trace w).
Proof.
  intros Hp [Hcount Hcols]. unfold row_to_value.
  unfold bind at 1. unfold sqlite3_column_count at 1, native_int. next_step.
  rewrite Hcount, Nat2Z.id.
  destruct (row_to_value_loop_cells E stmt cells 0 []
              (log (Sqlite3_column_count stmt) w)) as (w1 & Hloop & Hp1 & He1).
  { pending. }
  { intros j c Hc. rewrite effects_log_observer by reflexivity. now apply Hcols. }
  unfold bind at 1. change (Q "nil") with (value_of_list []). rewrite Hloop. next_step.
  rewrite call_nreverse_value by assumption.
  rewrite app_nil_r, rev_involutive.
  exists w1. split; [reflexivity|]. split; [assumption|].
  rewrite He1. now apply effects_log_observer.
Qed.

(** X16: when the current row of the statement reads as the cells [cells],
    [row_to_value] returns the list of their values in the order of the
    columns, one element for each column; it raises nothing and only reads
    the engine, and the structs are as they were. *)
Theorem row_to_value_lists_the_columns_in_order (E : sqlite3) (stmt : pointer)
    (cells : list cell) (w : world) :
  pending w = None -> row_is E (effects (trace w)) stmt cells ->
  exists w',
    row_to_value E stmt w = Ret (row_value cells) w' /\
    list_of_value (row_value cells) = Some (map value_of_cell cells) /\
    pending w' = None /\
    effects (trace w') = effects (trace w) /\
    same_handles w w'.
Proof.
  intros Hp Hrow.
  destruct (row_to_value_cells E stmt cells w Hp Hrow) as (w' & Hrun & Hp' & He').
  exists w'. split; [exact Hrun|].
  split; [apply list_of_value_of_list|]. split; [exact Hp'|]. split; [exact He'|].
  pose proof (same_handles_row_to_value E stmt w) as Hs.
  now rewrite Hrun in Hs.
Qed.

Lemma inserted_row :
  row_is (scripted two_rows) (effects (trace inserted_world)) (Some 1%nat)
    [Cell_integer 7; Cell_text "x"].
Proof.
  split; [reflexivity|].
  intros i c Hc. destruct i as [|[|i]]; cbn [nth_error] in Hc;
    [injection Hc as <- | injection Hc as <- | destruct i; discriminate];
    vm_compute; auto.
Qed.

(** The row (7, "x") of the scripted engine. *)
Lemma row_to_value_witness :
  exists w',
    row_to_value (scripted two_rows) (Some 1%nat) inserted_world
    = Ret (value_of_list [Integer 7; text "x"]) w'.
Proof.
  destruct (row_to_value_lists_the_columns_in_order (scripted two_rows) (Some 1%nat)
              [Cell_integer 7; Cell_text "x"] inserted_world eq_refl inserted_row)
    as (w' & Hrun & _).
  exists w'. exact Hrun.
Defined.

(** ** Column names *)

Lemma column_names_loop_names E stmt :
  forall rest i acc w,
    pending w = None ->
    (forall j n, nth_error rest j = Some n ->
                 result_text E (effects (trace w)) (Sqlite3_column_name stmt (i + Z.of_nat j))
                 = n) ->
    exists w',
      column_names_loop E (List.length rest) stmt i (value_of_list acc) w
      = Ret (value_of_list (rev (map (fun n => text (c_string n)) rest) ++ acc)) w' /\
      pending w' = None /\ effects (trace w') = effects (trace w).
Proof.
  induction rest as [|n rest IH]; intros i acc w Hp Hnames.
  - exists w. now repeat split.
  - cbn [List.length column_names_loop].
    assert (Hn : result_text E (effects (trace w)) (Sqlite3_column_name stmt i) = n).
    { specialize (Hnames 0%nat n eq_refl). now rewrite Z.add_0_r in Hnames. }
    unfold bind at 1. unfold sqlite3_column_name at 1, native_text. next_step.
    rewrite Hn.
    unfold bind at 1. rewrite build_string_value by pending. next_step.
    unfold bind at 1. rewrite call_cons_value by pending. next_step.
    destruct (IH (i + 1) (text (c_string n) :: acc) (log (Sqlite3_column_name stmt i) w))
      as (w' & Hloop & Hp' & He').
    { pending. }
    { intros j x Hx. rewrite effects_log_observer by reflexivity.
      replace (i + 1 + Z.of_nat j) with (i + Z.of_nat (S j)) by lia.
      now apply Hnames. }
    exists w'. change (Cons (text (c_string n)) (value_of_list acc))
      with (value_of_list (text (c_string n) :: acc)).
    rewrite Hloop. cbn [map rev]. rewrite <- app_assoc. cbn [app].
    split; [reflexivity|]. split; [assumption|].
    rewrite He'. now apply effects_log_observer.
Qed.

Lemma column_names_value E stmt names w :
  pending w = None -> names_are E (effects (trace w)) stmt names ->
  exists w',
    column_names E stmt w = Ret (names_value names) w' /\
    pending w' = None /\ effects (trace w') = effects (trace w).
Proof.
  intros Hp [Hcount Hnames]. unfold column_names.
  unfold bind at 1. unfold sqlite3_column_count at 1, native_int. next_step.
  rewrite Hcount, Nat2Z.id.
  destruct (column_names_loop_names E stmt names 0 []
              (log (Sqlite3_column_count stmt) w)) as (w1 & Hloop & Hp1 & He1).
  { pending. }
  { intros j n Hn. rewrite effects_log_observer by reflexivity. now apply Hnames. }
  unfold bind at 1. change (Q "nil") with (value_of_list []). rewrite Hloop. next_step.
  rewrite call_nreverse_value by assumption.
  rewrite app_nil_r, rev_involutive.
  exists w1. split; [reflexivity|]. split; [assumption|].
  rewrite He1. now apply effects_log_observer.
Qed.

(** X17: on a cursor that holds a statement, [Fsqlite_columns] returns the
    names of the columns of the statement as strings, in the order of the
    columns, each name up to its first NUL byte; it raises nothing and only
    reads the engine. *)
Theorem columns_lists_the_names_in_order (E : sqlite3) (w : world) (a : nat)
    (db : pointer) (p : nat) (eof : bool) (names : list string) :
  pending w = None -> open_statement w a db p eof ->
  names_are E (effects (trace w)) (Some p) names ->
  exists w',
    Fsqlite_columns E [statement_handle a] w = Ret (names_value names) w' /\
    column_names E (Some p) w = Ret (names_value names) w' /\
    list_of_value (names_value names) = Some (map (fun n => text (c_string n)) names) /\
    pending w' = None /\
    effects (trace w') = effects (trace w).
Proof.
  intros Hp Ho Hnames.
  destruct (column_names_value E (Some p) names w Hp Hnames) as (w' & Hrun & Hp' & He').
  exists w'. split; [|split; [exact Hrun|]].
  - unfold Fsqlite_columns.
    change (arg [statement_handle a] 0) with (statement_handle a).
    unfold bind at 1.
    rewrite (lisp_statement_check_open w a db p eof) by assumption.
    next_step. cbn [is_null].
    unfold bind at 1. rewrite (load_statement_value a _ w Ho). next_step.
    exact Hrun.
  - split; [apply list_of_value_of_list|]. now split.
Qed.

(** The columns [id] and [name] of the scripted engine. *)
Lemma columns_witness :
  exists w',
    Fsqlite_columns (scripted two_rows) [statement_handle 0] cursor_world
    = Ret (value_of_list [text "id"; text "name"]) w'.
Proof.
  assert (Hnames : names_are (scripted two_rows) (effects (trace cursor_world))
                     (Some 1%nat) ["id"; "name"]).
  { split; [reflexivity|].
    intros i n Hn. destruct i as [|[|i]]; cbn [nth_error] in Hn;
      [injection Hn as <- | injection Hn as <- | destruct i; discriminate];
      reflexivity. }
  destruct (columns_lists_the_names_in_order (scripted two_rows) cursor_world 0
              (Some 0%nat) 1 false ["id"; "name"] eq_refl eq_refl Hnames)
    as (w' & Hrun & _).
  exists w'. exact Hrun.
Defined.

(** ** The rows of [Fsqlite_select] *)

Lemma effects_log_effect c w :
  is_observer c = false -> effects (trace (log c w)) = effects (trace w) ++ [c].
Proof.
  intros Hc. cbn [trace log]. rewrite effects_app. unfold effects at 2.
  cbn [filter]. now rewrite Hc.
Qed.

(** The loop of [Fsqlite_select] on a statement that yields [table]: the
    rows are consed onto the ones before, last first, and the statement is
    stepped once more than there are rows. *)
Lemma select_loop_table E stmt :
  forall table fuel acc w,
    pending w = None -> yields E stmt (effects (trace w)) table ->
    (List.length table < fuel)%nat ->
    exists rc w',
      select_loop E fuel stmt (value_of_list acc) w
      = Ret (rc, value_of_list (rev (map row_value table) ++ acc)) w' /\
      pending w' = None /\
      effects (trace w')
      = effects (trace w) ++ repeat (Sqlite3_step stmt) (S (List.length table)).
Proof.
  induction table as [|row table IH]; intros fuel acc w Hp Hy Hfuel;
    (destruct fuel as [|fuel]; [inversion Hfuel|]);
    cbn [select_loop yields] in *;
    unfold bind at 1; unfold sqlite3_step at 1, native_code; next_step.
  - destruct (Z.eqb_spec (result_code E (effects (trace w)) (Sqlite3_step stmt))
                SQLITE_ROW) as [Hr|Hr]; [contradiction|].
    eexists _, _. split; [reflexivity|]. split; [pending|].
    now apply effects_log_effect.
  - destruct Hy as (Hrow & Hcells & Hrest). rewrite Hrow.
    change (SQLITE_ROW =? SQLITE_ROW) with true. next_step.
    destruct (row_to_value_cells E stmt row (log (Sqlite3_step stmt) w))
      as (w1 & Hv & Hp1 & He1).
    { pending. }
    { now rewrite effects_log_effect. }
    unfold bind at 1. rewrite Hv. next_step.
    unfold bind at 1. rewrite call_cons_value by assumption. next_step.
    change (Cons (row_value row) (value_of_list acc))
      with (value_of_list (row_value row :: acc)).
    destruct (IH fuel (row_value row :: acc) w1 Hp1) as (rc & w' & Hloop & Hp' & He').
    { now rewrite He1, effects_log_effect. }
    { cbn [List.length] in Hfuel. lia. }
    exists rc, w'. rewrite Hloop. cbn [map rev]. rewrite <- app_assoc. cbn [app].
    split; [reflexivity|]. split; [assumption|].
    rewrite He', He1, effects_log_effect by reflexivity.
    rewrite <- app_assoc. reflexivity.
Qed.

(** X18: when the statement that [Fsqlite_select] has prepared yields the
    rows of [table], the function returns, in the default mode, the list of
    the rows in the order in which the engine yields them, each row listing
    its columns in order.  The statement is stepped once more than there are
    rows and is then finalized.  (The loop is given more turns than the
    table has rows.) *)
Theorem select_returns_the_rows_in_order (E : sqlite3) (H : host) (fuel : nat)
    (w : world) (a d : nat) (sql : lisp_string) (table : list (list cell)) :
  pending w = None -> open_connection w a d ->
  let prep := select_prepare (Some d) sql in
  let stmt := result_ptr E (effects (trace w)) prep in
  result_code E (effects (trace w)) prep = SQLITE_OK ->
  yields E stmt (effects (trace w) ++ [prep]) table ->
  (List.length table < fuel)%nat ->
  exists w',
    Fsqlite_select E H fuel [sqlite_handle a; Str sql] w
    = Ret (value_of_list (map row_value table)) w' /\
    pending w' = None /\
    effects (trace w')
    = effects (trace w)
      ++ prep :: repeat (Sqlite3_step stmt) (S (List.length table))
      ++ [Sqlite3_finalize stmt].
Proof.
  intros Hp Ho prep stmt Hrc Hy Hfuel.
  rewrite (Fsqlite_select_open E H fuel w a d sql [] Hp Ho).
  cbv zeta. fold prep. fold stmt. rewrite Hrc, Z.eqb_refl.
  unfold select_statement, select_bind, bind_parameters. cbn [skipn].
  unfold bind at 1. unfold bind at 1. unfold ret at 1. next_step.
  unfold ret at 1. unfold select_rows.
  change (nargs [sqlite_handle a; Str sql] >? 3) with false. next_step.
  unfold bind at 1. unfold ret at 1. next_step.
  destruct (select_loop_table E stmt table fuel [] (log prep w))
    as (rc & w1 & Hloop & Hp1 & He1).
  { pending. }
  { now rewrite effects_log_effect. }
  { exact Hfuel. }
  unfold bind at 1. change (Q "nil") with (value_of_list []). rewrite Hloop. next_step.
  unfold bind at 1. rewrite call_nreverse_value by assumption. next_step.
  rewrite app_nil_r, rev_involutive.
  unfold bind at 1. unfold ret at 1. next_step.
  unfold bind at 1. unfold ret at 1. next_step.
  unfold bind, ret. unfold_native. next_step.
  eexists. split; [reflexivity|]. split; [pending|].
  rewrite effects_log_effect, He1, effects_log_effect by reflexivity.
  rewrite <- !app_assoc. reflexivity.
Qed.

Lemma inserted_table :
  yields (scripted two_rows) (Some 1%nat)
    (effects (trace inserted_world)
     ++ [select_prepare (Some 0%nat) (mk_string 15 "select * from t" None)])
    [[Cell_integer 7; Cell_text "x"]; [Cell_integer 7; Cell_text "x"]].
Proof.
  assert (Hrow : forall h,
             (forall i, parameter h i = parameter (effects (trace inserted_world)) i) ->
             row_is (scripted two_rows) h (Some 1%nat) [Cell_integer 7; Cell_text "x"]).
  { intros h Hh. split; [reflexivity|].
    intros i c Hc. destruct i as [|[|i]]; cbn [nth_error] in Hc;
      [injection Hc as <- | injection Hc as <- | destruct i; discriminate];
      cbn [column_is scripted result_int result_text]; rewrite !Hh;
      vm_compute; auto. }
  cbn [yields]. split; [reflexivity|]. split; [apply Hrow; reflexivity|].
  split; [reflexivity|]. split; [apply Hrow; reflexivity|]. discriminate.
Qed.

(** Two rows (7, "x") of the scripted engine. *)
Lemma select_rows_witness :
  exists w',
    Fsqlite_select (scripted two_rows) plain_host 3
      [sqlite_handle 0; text "select * from t"] inserted_world
    = Ret (value_of_list [value_of_list [Integer 7; text "x"];
                          value_of_list [Integer 7; text "x"]]) w' /\
    pending w' = None.
Proof.
  destruct (select_returns_the_rows_in_order (scripted two_rows) plain_host 3
              inserted_world 0 0 (mk_string 15 "select * from t" None)
              [[Cell_integer 7; Cell_text "x"]; [Cell_integer 7; Cell_text "x"]]
              eq_refl eq_refl eq_refl inserted_table)
    as (w' & Hrun & Hp & _); [cbn; lia|].
  exists w'. split; [exact Hrun | exact Hp].
Defined.

(** X19: in the [full] mode the list that [Fsqlite_select] returns has the
    list of the column names in front of the rows: the names are read after
    the last step, and the statement is finalized after that. *)
Theorem select_full_puts_the_names_first (E : sqlite3) (H : host) (fuel : nat)
    (w : world) (a d : nat) (sql : lisp_string) (table : list (list cell))
    (names : list string) :
  pending w = None -> open_connection w a d ->
  let prep := select_prepare (Some d) sql in
  let stmt := result_ptr E (effects (trace w)) prep in
  let stepped := effects (trace w)
                 ++ prep :: repeat (Sqlite3_step stmt) (S (List.length table)) in
  result_code E (effects (trace w)) prep = SQLITE_OK ->
  yields E stmt (effects (trace w) ++ [prep]) table ->
  names_are E stepped stmt names ->
  (List.length table < fuel)%nat ->
  exists w',
    Fsqlite_select E H fuel [sqlite_handle a; Str sql; Qnil; Q "full"] w
    = Ret (Cons (names_value names) (value_of_list (map row_value table))) w' /\
    pending w' = None /\
    effects (trace w') = stepped ++ [Sqlite3_finalize stmt].
Proof.
  intros Hp Ho prep stmt stepped Hrc Hy Hnames Hfuel.
  rewrite (Fsqlite_select_open E H fuel w a d sql [Qnil; Q "full"] Hp Ho).
  cbv zeta. fold prep. fold stmt. rewrite Hrc, Z.eqb_refl.
  unfold select_statement, select_bind, bind_parameters. cbn [skipn].
  change (eq_value Qnil Qnil) with true. next_step.
  unfold bind at 1. unfold bind at 1. unfold ret at 1. next_step.
  unfold ret at 1. unfold select_rows.
  change (nargs [sqlite_handle a; Str sql; Qnil; Q "full"] >? 3) with true. next_step.
  change (arg [sqlite_handle a; Str sql; Qnil; Q "full"] 3) with (Q "full").
  unfold bind at 1. rewrite EQ_value by pending. next_step.
  change (eq_value (Q "full") (Q "set")) with false. next_step.
  destruct (select_loop_table E stmt table fuel [] (log prep w))
    as (rc & w1 & Hloop & Hp1 & He1).
  { pending. }
  { now rewrite effects_log_effect. }
  { exact Hfuel. }
  assert (Hstepped : effects (trace w1) = stepped).
  { rewrite He1, effects_log_effect by reflexivity.
    unfold stepped. now rewrite <- app_assoc. }
  unfold bind at 1. change (Q "nil") with (value_of_list []). rewrite Hloop. next_step.
  unfold bind at 1. rewrite call_nreverse_value by assumption. next_step.
  rewrite app_nil_r, rev_involutive.
  unfold bind at 1. rewrite EQ_value by assumption. next_step.
  change (eq_value (Q "full") (Q "full")) with true. next_step.
  destruct (column_names_value E stmt names w1 Hp1) as (w2 & Hcols & Hp2 & He2).
  { now rewrite Hstepped. }
  unfold bind at 1. unfold bind at 1. rewrite Hcols. next_step.
  rewrite call_cons_value by assumption. next_step.
  unfold bind, ret. unfold_native. next_step.
  eexists. split; [reflexivity|]. split; [pending|].
  rewrite effects_log_effect, He2 by reflexivity. now rewrite Hstepped.
Qed.

(** The names and two rows of the scripted engine. *)
Lemma select_full_witness :
  exists w',
    Fsqlite_select (scripted two_rows) plain_host 3
      [sqlite_handle 0; text "select * from t"; Qnil; Q "full"] inserted_world
    = Ret (value_of_list [value_of_list [text "id"; text "name"];
                          value_of_list [Integer 7; text "x"];
                          value_of_list [Integer 7; text "x"]]) w'.
Proof.
  destruct (select_full_puts_the_names_first (scripted two_rows) plain_host 3
              inserted_world 0 0 (mk_string 15 "select * from t" None)
              [[Cell_integer 7; Cell_text "x"]; [Cell_integer 7; Cell_text "x"]]
              ["id"; "name"] eq_refl eq_refl eq_refl inserted_table)
    as (w' & Hrun & _).
  - split; [reflexivity|].
    intros i n Hn. destruct i as [|[|i]]; cbn [nth_error] in Hn;
      [injection Hn as <- | injection Hn as <- | destruct i; discriminate];
      reflexivity.
  - cbn; lia.
  - exists w'. exact Hrun.
Defined.

(** ** The loop of [bind_values] *)

Lemma bound_cases E db c w :
  bound E db c w
  = if result_code E (effects (trace w)) c =? SQLITE_OK then Ret None (log c w)
    else Ret (Some (result_text E (effects (trace (log c w))) (Sqlite3_errmsg db)))
             (log (Sqlite3_errmsg db) (log c w)).
Proof.
  unfold bound, bind, native_code, bind_status_test.
  now destruct (_ =? SQLITE_OK).
Qed.

Lemma pending_logs cs : forall w, pending (logs cs w) = pending w.
Proof. induction cs as [|c cs IH]; intros w; [reflexivity|]. cbn [logs]. now rewrite IH. Qed.

Lemma trace_logs cs : forall w, trace (logs cs w) = trace w ++ cs.
Proof.
  induction cs as [|c cs IH]; intros w; cbn [logs].
  - now rewrite app_nil_r.
  - rewrite IH, trace_log, <- app_assoc. reflexivity.
Qed.

Lemma logs_app cs cs' w : logs (cs ++ cs') w = logs cs' (logs cs w).
Proof. revert w. induction cs as [|c cs IH]; intros w; [reflexivity|]. cbn [app logs]. apply IH. Qed.

(** The sequence of the calls when the engine accepts them all, and when it
    refuses one. *)
Lemma bind_all_accepted E db :
  forall calls w,
    forallb binding_call calls = true ->
    forallb (fun c => negb (is_observer c)) calls = true ->
    accepted E (effects (trace w)) calls ->
    bind_all E db calls w = Ret None (logs calls w).
Proof.
  induction calls as [|c calls IH]; intros w Hb Hn Hacc; [reflexivity|].
  cbn [forallb] in Hb, Hn. apply andb_prop in Hb as [_ Hb].
  apply andb_prop in Hn as [Hc Hn]. apply negb_true_iff in Hc.
  destruct Hacc as [Hok Hacc].
  cbn [bind_all logs]. unfold bind at 1. rewrite bound_cases, Hok, Z.eqb_refl.
  apply IH; auto. now rewrite effects_log_effect.
Qed.

Lemma bind_all_refused E db :
  forall pre c post w,
    forallb (fun c => negb (is_observer c)) pre = true ->
    is_observer c = false ->
    accepted E (effects (trace w)) pre ->
    result_code E (effects (trace w) ++ pre) c <> SQLITE_OK ->
    bind_all E db (pre ++ c :: post) w
    = Ret (Some (result_text E (effects (trace w) ++ pre ++ [c]) (Sqlite3_errmsg db)))
          (log (Sqlite3_errmsg db) (logs (pre ++ [c]) w)).
Proof.
  induction pre as [|x pre IH]; intros c post w Hn Hc Hacc Hrc.
  - cbn [app bind_all logs]. unfold bind at 1. rewrite bound_cases.
    rewrite app_nil_r in Hrc.
    destruct (Z.eqb_spec (result_code E (effects (trace w)) c) SQLITE_OK);
      [contradiction|].
    now rewrite effects_log_effect.
  - cbn [forallb] in Hn. apply andb_prop in Hn as [Hx Hn]. apply negb_true_iff in Hx.
    destruct Hacc as [Hok Hacc].
    cbn [app bind_all logs]. unfold bind at 1. rewrite bound_cases, Hok, Z.eqb_refl.
    rewrite (IH c post (log x w)); auto.
    + rewrite effects_log_effect by assumption. now rewrite <- !app_assoc.
    + now rewrite effects_log_effect.
    + rewrite effects_log_effect by assumption. now rewrite <- app_assoc.
Qed.

Lemma bind_call_binding stmt i b :
  binding_call (bind_call stmt i b) = true /\
  is_observer (bind_call stmt i b) = false /\
  binds_parameter (i + 1) (bind_call stmt i b) = true.
Proof.
  destruct b as [|n|d|bytes|bytes|[|]];
    cbn [bind_call binding_call is_observer binds_parameter];
    rewrite ?Z.eqb_refl; auto.
Qed.

Lemma bind_calls_binding stmt bs :
  forall i,
    forallb binding_call (bind_calls stmt i bs) = true /\
    forallb (fun c => negb (is_observer c)) (bind_calls stmt i bs) = true.
Proof.
  induction bs as [|b bs IH]; intros i; [now split|].
  cbn [bind_calls forallb]. destruct (bind_call_binding stmt i b) as (Hb & Hn & _).
  destruct (IH (i + 1)) as [Hbs Hns]. now rewrite Hb, Hn, Hbs, Hns.
Qed.

Lemma bind_calls_positions stmt bs :
  forall i k c,
    nth_error (bind_calls stmt i bs) k = Some c ->
    binds_parameter (i + Z.of_nat k + 1) c = true.
Proof.
  induction bs as [|b bs IH]; intros i k c; [now destruct k|].
  destruct k as [|k]; cbn [bind_calls nth_error].
  - intros [= <-]. rewrite Z.add_0_r. apply bind_call_binding.
  - intros Hc. replace (i + Z.of_nat (S k) + 1) with (i + 1 + Z.of_nat k + 1) by lia.
    now apply IH.
Qed.

Lemma bind_all_cons E db c rest w :
  bind_all E db (c :: rest) w
  = match bound E db c w with
    | Ret (Some e) w' => Ret (Some e) w'
    | Ret None w' => bind_all E db rest w'
    | Fault w' => Fault w'
    | Hang w' => Hang w'
    end.
Proof.
  cbn [bind_all]. unfold bind. destruct (bound E db c w) as [[e|] w'| |]; reflexivity.
Qed.

Lemma vec_get_value l i x w :
  pending w = None -> nth_error l i = Some x ->
  vec_get (Vector l) (Z.of_nat i) w = Ret x w.
Proof.
  intros Hp Hx. unfold vec_get.
  destruct (Z.ltb_spec (Z.of_nat i) 0); [lia|].
  rewrite Nat2Z.id, Hx. now apply env_fn_value.
Qed.

(** The loop on a vector whose elements from [length pre] on are the host
    values of the Bound Values [bs]. *)
Lemma bind_values_loop_vector E H db stmt :
  forall bs pre w,
    pending w = None -> Forall bindable bs ->
    bind_values_loop E H (List.length bs) db stmt true (Z.of_nat (List.length pre))
      (Vector (pre ++ map to_bind bs)) w
    = bind_all E db (bind_calls stmt (Z.of_nat (List.length pre)) bs) w.
Proof.
  induction bs as [|b bs IH]; intros pre w Hp Hbs; [reflexivity|].
  inversion Hbs as [|? ? Hb Hrest]; subst.
  cbn [List.length bind_values_loop bind_calls map]. rewrite bind_all_cons.
  unfold bind at 1. unfold bind at 1.
  rewrite (vec_get_value _ _ (to_bind b)) by
    (auto; rewrite nth_error_app2 by lia; now rewrite Nat.sub_diag).
  next_step. unfold ret at 1. next_step.
  unfold bind at 1.
  rewrite bind_value_bindable by assumption.
  rewrite bound_cases. destruct (_ =? SQLITE_OK); [|reflexivity].
  specialize (IH (pre ++ [to_bind b]) (log (bind_call stmt (Z.of_nat (List.length pre)) b) w)).
  rewrite <- app_assoc, length_app in IH. cbn [app List.length] in IH.
  replace (Z.of_nat (List.length pre + 1)) with (Z.of_nat (List.length pre) + 1) in IH
    by lia.
  apply IH; auto.
Qed.

Lemma vec_size_value l w :
  pending w = None -> vec_size (Vector l) w = Ret (Z.of_nat (List.length l)) w.
Proof. apply env_fn_value. Qed.

Lemma bind_values_vector E H db stmt bs w :
  pending w = None -> Forall bindable bs -> Z.of_nat (List.length bs) <= INT_MAX ->
  bind_values E H db stmt (Vector (map to_bind bs)) w
  = bind_all E db (bind_calls stmt 0 bs) (log (Sqlite3_reset stmt) w).
Proof.
  intros Hp Hbs Hlen. unfold bind_values.
  unfold bind at 1. unfold sqlite3_reset at 1, native_code. next_step.
  unfold bind at 1. rewrite TYPEP_value by pending. next_step.
  change (String.eqb (type_name (Vector (map to_bind bs))) "vector") with true.
  unfold bind at 1. rewrite vec_size_value by pending. next_step.
  rewrite length_map, to_int_small by (unfold INT_MAX in *; lia).
  rewrite Nat2Z.id.
  exact (bind_values_loop_vector E H db stmt bs [] (log (Sqlite3_reset stmt) w) Hp Hbs).
Qed.

(** X20: [bind_values] on a vector of supported values resets the statement
    and binds the element at index [k] as the parameter [k + 1], in the
    order of the vector.  When the engine accepts every call the function
    returns NULL; at the first call that the engine refuses it returns the
    message of the engine, and the elements after it are not bound. *)
Theorem bind_values_binds_in_order (E : sqlite3) (H : host) (db stmt : pointer)
    (bs : list bound_value) (w : world) :
  pending w = None -> Forall bindable bs -> Z.of_nat (List.length bs) <= INT_MAX ->
  let values := Vector (map to_bind bs) in
  let calls := bind_calls stmt 0 bs in
  let h := effects (trace w) ++ [Sqlite3_reset stmt] in
  (accepted E h calls ->
   bind_values E H db stmt values w = Ret None (logs (Sqlite3_reset stmt :: calls) w)) /\
  (forall pre c post,
     calls = pre ++ c :: post -> accepted E h pre ->
     result_code E (h ++ pre) c <> SQLITE_OK ->
     bind_values E H db stmt values w
     = Ret (Some (result_text E (h ++ pre ++ [c]) (Sqlite3_errmsg db)))
           (log (Sqlite3_errmsg db) (logs (Sqlite3_reset stmt :: pre ++ [c]) w))) /\
  (forall k c, nth_error calls k = Some c ->
               binds_parameter (Z.of_nat k + 1) c = true) /\
  List.length calls = List.length bs.
Proof.
  intros Hp Hbs Hlen values calls h.
  pose proof (bind_values_vector E H db stmt bs w Hp Hbs Hlen) as Hrun.
  fold values calls in Hrun.
  destruct (bind_calls_binding stmt bs 0) as [Hb Hn]. fold calls in Hb, Hn.
  assert (Hh : effects (trace (log (Sqlite3_reset stmt) w)) = h)
    by now apply effects_log_effect.
  split; [|split; [|split]].
  - intros Hacc. rewrite Hrun. cbn [logs]. apply bind_all_accepted; auto.
    now rewrite Hh.
  - intros pre c post Hcalls Hacc Hrc. rewrite Hrun, Hcalls. cbn [logs].
    rewrite Hcalls, forallb_app in Hn. apply andb_prop in Hn as [Hpre Hpost].
    cbn [forallb] in Hpost. apply andb_prop in Hpost as [Hc _].
    apply negb_true_iff in Hc.
    rewrite bind_all_refused; auto; rewrite Hh; auto.
  - intros k c Hc. exact (bind_calls_positions stmt bs 0 k c Hc).
  - unfold calls. clear. generalize 0. induction bs as [|b bs IH]; intros i;
      [reflexivity|]. cbn [bind_calls List.length]. now rewrite IH.
Qed.

(** The vector of [insert_args] on the scripted engine. *)
Lemma bind_values_witness :
  bind_values (scripted quiet) plain_host (Some 0%nat) (Some 1%nat)
    (Vector [Integer 1; text "x"]) open_world
  = Ret None
      (logs [Sqlite3_reset (Some 1%nat);
             Sqlite3_bind_int64 (Some 1%nat) 1 1;
             Sqlite3_bind_text (Some 1%nat) 2 (Some ("x" ++ NUL)%string) 1] open_world).
Proof.
  assert (Hbs : Forall bindable [Int 1; Text "x"]).
  { repeat constructor; vm_compute; intuition discriminate. }
  destruct (bind_values_binds_in_order (scripted quiet) plain_host (Some 0%nat)
              (Some 1%nat) [Int 1; Text "x"] open_world eq_refl Hbs)
    as (Hall & _); [vm_compute; discriminate|].
  apply Hall. repeat split.
Defined.

(** ** The loop with an exit pending *)

Lemma TYPE_OF_pending v s w : pending w = Some s -> TYPE_OF v w = Ret NULL_value w.
Proof. intros Hp. unfold TYPE_OF, type_of. now apply env_fn_pending with s. Qed.

Lemma EQ_pending a b s w : pending w = Some s -> EQ a b w = Ret false w.
Proof. intros Hp. unfold EQ, eq. now apply env_fn_pending with s. Qed.

Lemma NILP_pending v s w : pending w = Some s -> NILP v w = Ret true w.
Proof.
  intros Hp. unfold NILP, bind, is_not_nil. now rewrite (env_fn_pending _ _ s).
Qed.

(** With an exit pending no test of the turn sees the value: the type is
    NULL, every [EQ] is false, and [NILP] is true, so the parameter is bound
    as a NULL. *)
Lemma bind_value_pending E H db stmt i v s w :
  pending w = Some s ->
  bind_value E H db stmt i v w = bound E db (Sqlite3_bind_null stmt (i + 1)) w.
Proof.
  intros Hp. unfold bind_value.
  unfold bind at 1. rewrite (TYPE_OF_pending _ s) by assumption. next_step.
  unfold bind at 1. rewrite (EQ_pending _ _ s) by assumption. next_step.
  unfold bind at 1. unfold bind at 1. rewrite (EQ_pending _ _ s) by assumption.
  next_step.
  unfold bind at 1. rewrite (EQ_pending _ _ s) by assumption. next_step.
  unfold bind at 1. rewrite (NILP_pending _ s) by assumption. next_step.
  reflexivity.
Qed.

Lemma bind_nulls_binding stmt n :
  forall i,
    forallb binding_call (bind_nulls stmt i n) = true /\
    forallb (fun c => negb (is_observer c)) (bind_nulls stmt i n) = true.
Proof.
  induction n as [|n IH]; intros i; [now split|].
  cbn [bind_nulls forallb binding_call is_observer negb andb]. apply IH.
Qed.

Lemma bind_values_loop_pending E H db stmt :
  forall n is_vector i values s w,
    pending w = Some s ->
    bind_values_loop E H n db stmt is_vector i values w
    = bind_all E db (bind_nulls stmt i n) w.
Proof.
  induction n as [|n IH]; intros is_vector i values s w Hp; [reflexivity|].
  cbn [bind_values_loop bind_nulls]. rewrite bind_all_cons.
  unfold bind at 1.
  assert (Hturn : exists values',
             (if is_vector
              then value <- vec_get values i ;; ret (value, values)
              else value <- call_car values ;; rest <- call_cdr values ;;
                   ret (value, rest)) w
             = Ret (NULL_value, values') w).
  { destruct is_vector.
    - exists values. unfold bind, vec_get. now rewrite (env_fn_pending _ _ s).
    - exists NULL_value. unfold bind, call_car, call_cdr.
      now rewrite !(env_fn_pending _ _ s). }
  destruct Hturn as (values' & ->). next_step.
  unfold bind at 1. rewrite (bind_value_pending E H db stmt i NULL_value s w Hp).
  rewrite bound_cases. destruct (_ =? SQLITE_OK); [|reflexivity].
  now apply IH with s.
Qed.

Lemma bind_values_pending E H db stmt values s w :
  pending w = Some s ->
  bind_values E H db stmt values w = Ret None (log (Sqlite3_reset stmt) w).
Proof.
  intros Hp. unfold bind_values.
  unfold bind at 1. unfold sqlite3_reset at 1, native_code. next_step.
  unfold bind at 1. unfold TYPEP. unfold bind at 1.
  rewrite (TYPE_OF_pending _ s) by pending. next_step.
  rewrite (EQ_pending _ _ s) by pending. next_step.
  unfold bind at 1. unfold bind at 1. unfold call_length at 1.
  rewrite (env_fn_pending _ _ s) by pending. next_step.
  rewrite (XFIXNUM_pending _ s) by pending. reflexivity.
Qed.

(** ** Lists and vectors of values *)

Lemma bind_values_loop_turn E H db stmt (is_vector : bool) n i values
    (x rest : emacs_value) w :
  (if is_vector
   then value <- vec_get values i ;; ret (value, values)
   else value <- call_car values ;; rest <- call_cdr values ;; ret (value, rest)) w
  = Ret (x, rest) w ->
  bind_values_loop E H (S n) db stmt is_vector i values w
  = match bind_value E H db stmt i x w with
    | Ret (Some e) w' => Ret (Some e) w'
    | Ret None w' => bind_values_loop E H n db stmt is_vector (i + 1) rest w'
    | Fault w' => Fault w'
    | Hang w' => Hang w'
    end.
Proof.
  intros Hturn. cbn [bind_values_loop]. unfold bind at 1. rewrite Hturn. next_step.
  unfold bind at 1. destruct (bind_value E H db stmt i x w) as [[e|] w'| |]; reflexivity.
Qed.

Lemma skipn_nth {A} (l : list A) k x :
  nth_error l k = Some x -> skipn k l = x :: skipn (S k) l.
Proof.
  revert k. induction l as [|y l IH]; intros [|k]; cbn [nth_error skipn];
    try discriminate.
  - now intros [= ->].
  - intros Hx. now rewrite (IH k Hx).
Qed.

Lemma bind_values_loop_list_vector E H db stmt :
  forall n k l w,
    (k + n <= List.length l)%nat ->
    bind_values_loop E H n db stmt false (Z.of_nat k) (value_of_list (skipn k l)) w
    = bind_values_loop E H n db stmt true (Z.of_nat k) (Vector l) w.
Proof.
  induction n as [|n IH]; intros k l w Hk; [reflexivity|].
  destruct (pending w) as [s|] eqn:Hp.
  - now rewrite !(bind_values_loop_pending E H db stmt (S n) _ _ _ s).
  - destruct (nth_error l k) as [x|] eqn:Hx;
      [|apply nth_error_None in Hx; lia].
    rewrite (bind_values_loop_turn E H db stmt true n (Z.of_nat k) (Vector l) x (Vector l)).
    2:{ unfold bind. rewrite (vec_get_value l k x) by assumption. reflexivity. }
    rewrite (bind_values_loop_turn E H db stmt false n (Z.of_nat k)
               (value_of_list (skipn k l)) x (value_of_list (skipn (S k) l))).
    2:{ rewrite (skipn_nth l k x Hx). cbn [value_of_list fold_right].
        unfold bind, call_car, call_cdr. now rewrite !env_fn_value by assumption. }
    destruct (bind_value E H db stmt (Z.of_nat k) x w) as [[e|] w'| |]; try reflexivity.
    replace (Z.of_nat k + 1) with (Z.of_nat (S k)) by lia.
    apply IH. lia.
Qed.

Lemma to_int_le z : 0 <= z -> to_int z <= z.
Proof.
  intros Hz. unfold to_int.
  pose proof (Z.mod_le (z + 2147483648) 4294967296). lia.
Qed.

Lemma to_int_turns n : (Z.to_nat (to_int (Z.of_nat n)) <= n)%nat.
Proof.
  pose proof (to_int_le (Z.of_nat n)). lia.
Qed.

Lemma bind_values_of_vector E H db stmt l w :
  pending w = None ->
  bind_values E H db stmt (Vector l) w
  = bind_values_loop E H (Z.to_nat (to_int (Z.of_nat (List.length l)))) db stmt true 0
      (Vector l) (log (Sqlite3_reset stmt) w).
Proof.
  intros Hp. unfold bind_values.
  unfold bind at 1. unfold sqlite3_reset at 1, native_code. next_step.
  unfold bind at 1. rewrite TYPEP_value by pending. next_step.
  change (String.eqb (type_name (Vector l)) "vector") with true.
  unfold bind at 1. rewrite vec_size_value by pending. reflexivity.
Qed.

Lemma bind_values_of_list E H db stmt l w :
  pending w = None -> Z.of_nat (List.length l) <= INTMAX_MAX ->
  bind_values E H db stmt (value_of_list l) w
  = bind_values_loop E H (Z.to_nat (to_int (Z.of_nat (List.length l)))) db stmt false 0
      (value_of_list l) (log (Sqlite3_reset stmt) w).
Proof.
  intros Hp Hlen. unfold bind_values.
  unfold bind at 1. unfold sqlite3_reset at 1, native_code. next_step.
  unfold bind at 1. rewrite TYPEP_value by pending. next_step.
  assert (Htype : String.eqb (type_name (value_of_list l)) "vector" = false)
    by (destruct l; reflexivity).
  rewrite Htype.
  assert (Hcall : call_length (value_of_list l) (log (Sqlite3_reset stmt) w)
                  = Ret (Integer (Z.of_nat (List.length l))) (log (Sqlite3_reset stmt) w)).
  { unfold call_length.
    assert (Hl : match value_of_list l with
                 | Vector l0 => inr (Integer (Z.of_nat (List.length l0)))
                 | Str s => inr (Integer (schars s))
                 | _ => match list_of_value (value_of_list l) with
                        | Some l0 => inr (Integer (Z.of_nat (List.length l0)))
                        | None => inl (wrong_type "sequencep" (value_of_list l))
                        end
                 end = (inr (Integer (Z.of_nat (List.length l))) : signal + emacs_value)).
    { rewrite list_of_value_of_list. destruct l; reflexivity. }
    rewrite Hl. apply env_fn_value. pending. }
  unfold bind at 1. unfold bind at 1. rewrite Hcall. next_step.
  rewrite XFIXNUM_value by (try pending; unfold INTMAX_MIN; lia).
  reflexivity.
Qed.

(** X21: a list of values and the vector of the same values are bound
    alike: [bind_values] makes the same calls, returns the same result and
    leaves the same world for both. *)
Theorem bind_values_treats_lists_as_vectors (E : sqlite3) (H : host)
    (db stmt : pointer) (l : list emacs_value) (w : world) :
  Z.of_nat (List.length l) <= INTMAX_MAX ->
  bind_values E H db stmt (value_of_list l) w = bind_values E H db stmt (Vector l) w.
Proof.
  intros Hlen. destruct (pending w) as [s|] eqn:Hp.
  - now rewrite !(bind_values_pending E H db stmt _ s).
  - rewrite bind_values_of_list, bind_values_of_vector by assumption.
    apply (bind_values_loop_list_vector E H db stmt _ 0 l).
    apply to_int_turns.
Qed.

(** The two values of [insert_args], as a list and as a vector. *)
Lemma list_vector_witness :
  bind_values (scripted quiet) plain_host (Some 0%nat) (Some 1%nat)
    (Cons (Integer 1) (Cons (text "x") Qnil)) open_world
  = bind_values (scripted quiet) plain_host (Some 0%nat) (Some 1%nat)
      (Vector [Integer 1; text "x"]) open_world.
Proof.
  apply (bind_values_treats_lists_as_vectors (scripted quiet) plain_host (Some 0%nat)
           (Some 1%nat) [Integer 1; text "x"] open_world).
  vm_compute. discriminate.
Defined.

(** ** Values without a case in the loop *)

(** X22: the loop of [bind_values] has cases for strings, integers, floats
    and the symbols nil, [t] and [false].  For every other value (another
    symbol, a cons, a vector, a user pointer) the turn returns the text
    ["invalid argument"] with no call to the engine and no signal, and the
    loop returns it at once, for a list and for a vector. *)
Theorem unsupported_value_is_rejected (E : sqlite3) (H : host) (db stmt : pointer)
    (v : emacs_value) (w : world) :
  pending w = None -> supported v = false ->
  (forall i, bind_value E H db stmt i v w = Ret (Some "invalid argument") w) /\
  (forall n i rest,
     bind_values_loop E H (S n) db stmt false i (Cons v rest) w
     = Ret (Some "invalid argument") w) /\
  (forall n k elts,
     nth_error elts k = Some v ->
     bind_values_loop E H (S n) db stmt true (Z.of_nat k) (Vector elts) w
     = Ret (Some "invalid argument") w).
Proof.
  intros Hp Hv.
  assert (Hone : forall i, bind_value E H db stmt i v w
                           = Ret (Some "invalid argument") w).
  { intros i. unfold bind_value.
    destruct v as [name|n|bits|s|x y|l|fin p]; try discriminate;
      cbn [supported] in Hv.
    - apply orb_false_elim in Hv as [Hv Hfalse]. apply orb_false_elim in Hv as [Hnil Ht].
      do 4 env_step. unfold bind at 1. unfold bind at 1.
      rewrite NILP_value by pending. next_step. cbn [eq_value Qnil Q]. rewrite Hnil.
      unfold bind at 1. rewrite EQ_value by pending. next_step.
      cbn [eq_value Q]. rewrite Ht.
      unfold bind at 1. rewrite EQ_value by pending. next_step.
      cbn [eq_value Q]. rewrite Hfalse. reflexivity.
    - do 7 env_step. reflexivity.
    - do 7 env_step. reflexivity.
    - do 7 env_step. reflexivity. }
  split; [exact Hone|]. split.
  - intros n i rest.
    rewrite (bind_values_loop_turn E H db stmt false n i (Cons v rest) v rest).
    + now rewrite Hone.
    + unfold bind, call_car, call_cdr. now rewrite !env_fn_value by assumption.
  - intros n k elts Hk.
    rewrite (bind_values_loop_turn E H db stmt true n (Z.of_nat k) (Vector elts) v
               (Vector elts)).
    + now rewrite Hone.
    + unfold bind. now rewrite (vec_get_value elts k v) by assumption.
Qed.

(** A keyword among the parameters. *)
Lemma unsupported_value_witness :
  bind_values_loop (scripted quiet) plain_host 2 (Some 0%nat) (Some 1%nat) true 0
    (Vector [Q ":null"; Integer 1]) open_world
  = Ret (Some "invalid argument") open_world.
Proof.
  destruct (unsupported_value_is_rejected (scripted quiet) plain_host (Some 0%nat)
              (Some 1%nat) (Q ":null") open_world eq_refl eq_refl) as (_ & _ & Hvec).
  exact (Hvec 1%nat 0%nat [Q ":null"; Integer 1] eq_refl).
Defined.

(** ** Integers outside the range of [intmax_t] *)

Lemma bind_value_overflow E H db stmt i n w :
  pending w = None -> ~ (INTMAX_MIN <= n <= INTMAX_MAX) ->
  bind_value E H db stmt i (Integer n) w
  = bound E db (Sqlite3_bind_int64 stmt (i + 1) 0) (raise (overflow n) w).
Proof.
  intros Hp Hn. unfold bind_value. do 3 env_step.
  unfold bind at 1. unfold bind at 1. unfold XFIXNUM, extract_integer.
  assert (Hrange : (INTMAX_MIN <=? n) && (n <=? INTMAX_MAX) = false).
  { destruct (Z.leb_spec INTMAX_MIN n); destruct (Z.leb_spec n INTMAX_MAX);
      try reflexivity. lia. }
  rewrite Hrange. rewrite env_fn_signal by assumption. next_step.
  reflexivity.
Qed.

(** X23: the loop of [bind_values] does not look at the pending exit.  For
    an integer outside the range of [intmax_t], [extract_integer] raises
    [overflow-error] and returns 0, which is bound; for the values after it
    no test of the loop succeeds but [NILP], and they are bound as NULL.
    When the engine accepts these calls [bind_values] reports no error, and
    [Fsqlite_execute] steps and finalizes the statement; the overflow is
    delivered when the function returns. *)
Theorem out_of_range_integer_is_bound_as_zero (E : sqlite3) (H : host) (w : world)
    (a d : nat) (sql : lisp_string) (n : Z) (rest : list emacs_value) :
  pending w = None -> open_connection w a d ->
  ~ (INTMAX_MIN <= n <= INTMAX_MAX) ->
  Z.of_nat (List.length rest) < INT_MAX ->
  let prep := execute_prepare (Some d) sql in
  let stmt := result_ptr E (effects (trace w)) prep in
  let binds := Sqlite3_bind_int64 stmt 1 0 :: bind_nulls stmt 1 (List.length rest) in
  result_code E (effects (trace w)) prep = SQLITE_OK ->
  accepted E (effects (trace w) ++ [prep; Sqlite3_reset stmt]) binds ->
  exists v w' last,
    Fsqlite_execute E H [sqlite_handle a; Str sql; Vector (Integer n :: rest)] w
    = Ret v w' /\
    pending w' = Some (overflow n) /\
    trace w' = trace w ++ prep :: Sqlite3_reset stmt :: binds
               ++ [Sqlite3_step stmt; Sqlite3_finalize stmt; last].
Proof.
  intros Hp Ho Hn Hlen prep stmt binds Hrc [Hfirst Hnulls].
  rewrite (Fsqlite_execute_open E H w a d sql [Vector (Integer n :: rest)] Hp Ho).
  change (acceptable_values [Vector (Integer n :: rest)]) with true.
  cbv zeta. fold prep. fold stmt. rewrite Hrc, Z.eqb_refl.
  unfold execute_statement, bind_parameters.
  change (eq_value (Vector (Integer n :: rest)) Qnil) with false. next_step.
  set (w1 := log (Sqlite3_reset stmt) (log prep w)).
  set (c := Sqlite3_bind_int64 stmt 1 0) in *.
  set (w2 := log c (raise (overflow n) w1)).
  set (w3 := logs (bind_nulls stmt 1 (List.length rest)) w2).
  assert (Heff1 : effects (trace w1) = effects (trace w) ++ [prep; Sqlite3_reset stmt]).
  { unfold w1. rewrite !effects_log_effect by reflexivity. now rewrite <- app_assoc. }
  assert (Hbind : bind_values E H (Some d) stmt (Vector (Integer n :: rest)) (log prep w)
                  = Ret None w3).
  { rewrite bind_values_of_vector by pending. fold w1.
    cbn [List.length]. rewrite to_int_small by (unfold INT_MAX in *; lia).
    rewrite Nat2Z.id.
    rewrite (bind_values_loop_turn E H (Some d) stmt true _ 0 _ (Integer n)
               (Vector (Integer n :: rest))).
    2:{ unfold bind. rewrite (vec_get_value _ 0 (Integer n)) by (auto; pending).
        reflexivity. }
    rewrite bind_value_overflow by (auto; pending).
    rewrite bound_cases. change (0 + 1) with 1. fold c.
    rewrite trace_raise, Heff1, Hfirst, Z.eqb_refl. fold w2.
    rewrite (bind_values_loop_pending E H (Some d) stmt _ _ _ _ (overflow n))
      by reflexivity.
    destruct (bind_nulls_binding stmt (List.length rest) 1) as [Hb Hno].
    apply bind_all_accepted; auto.
    unfold w2. rewrite effects_log_effect by reflexivity.
    now rewrite trace_raise, Heff1. }
  assert (Hp3 : pending w3 = Some (overflow n)).
  { unfold w3. now rewrite pending_logs. }
  assert (Ht3 : trace w3 = trace w ++ prep :: Sqlite3_reset stmt :: binds).
  { unfold w3, w2, w1, binds. rewrite trace_logs, trace_log, trace_raise, !trace_log.
    now rewrite <- !app_assoc. }
  unfold bind at 1. rewrite Hbind. next_step.
  unfold execute_step, bind. unfold_native. next_step.
  destruct (negb (_ =? SQLITE_OK) && negb (_ =? SQLITE_DONE)).
  - rewrite execute_exit_value, !pending_log, Hp3.
    eexists _, _, _. split; [reflexivity|].
    rewrite !pending_log, !trace_log, Ht3, <- !app_assoc. split; [exact Hp3|].
    reflexivity.
  - unfold make_int, make_integer, env_fn. rewrite !pending_log, Hp3.
    eexists _, _, _. split; [reflexivity|].
    rewrite !pending_log, !trace_log, Ht3, <- !app_assoc. split; [exact Hp3|].
    reflexivity.
Qed.

(** An insert of two parameters, the first of which is 2 to the power 70:
    the row (0, NULL) is inserted and the overflow is raised. *)
Lemma out_of_range_integer_witness :
  let big := Integer (2 ^ 70) in
  exists v w' last,
    Fsqlite_execute (scripted quiet) plain_host
      [sqlite_handle 0; text "insert into t values (?, ?)"; Vector [big; text "x"]]
      open_world = Ret v w' /\
    pending w' = Some (overflow (2 ^ 70)) /\
    trace w' = trace open_world
               ++ [Sqlite3_prepare_v2 (Some 0%nat) "insert into t values (?, ?)" (-1);
                   Sqlite3_reset (Some 1%nat);
                   Sqlite3_bind_int64 (Some 1%nat) 1 0;
                   Sqlite3_bind_null (Some 1%nat) 2;
                   Sqlite3_step (Some 1%nat); Sqlite3_finalize (Some 1%nat); last].
Proof.
  intros big.
  destruct (out_of_range_integer_is_bound_as_zero (scripted quiet) plain_host open_world
              0 0 (mk_string 27 "insert into t values (?, ?)" None) (2 ^ 70) [text "x"]
              eq_refl eq_refl) as (v & w' & last & Hrun & Hp & Ht).
  - unfold INTMAX_MIN, INTMAX_MAX. intros [_ Hhi]. vm_compute in Hhi. now apply Hhi.
  - vm_compute. reflexivity.
  - reflexivity.
  - repeat split.
  - exists v, w', last. split; [exact Hrun|]. split; [exact Hp | exact Ht].
Defined.

(** ** Failures of the prepare *)

(** X24: when the prepare of [Fsqlite_execute] fails and has left a
    statement, the function finalizes the statement and then calls
    [sqlite3_reset] on the statement it has just finalized, before it reads
    the message and raises; when the prepare has left no statement it makes
    neither call. *)
Theorem execute_resets_the_statement_it_finalized (E : sqlite3) (H : host)
    (w : world) (a d : nat) (sql : lisp_string) (rest : list emacs_value) :
  pending w = None -> open_connection w a d -> acceptable_values rest = true ->
  let prep := execute_prepare (Some d) sql in
  let stmt := result_ptr E (effects (trace w)) prep in
  result_code E (effects (trace w)) prep <> SQLITE_OK ->
  exists w',
    Fsqlite_execute E H (sqlite_handle a :: Str sql :: rest) w = Ret (Q "nil") w' /\
    pending w' <> None /\
    trace w' = trace w ++ prep
               :: match stmt with
                  | Some p => [Sqlite3_finalize (Some p); Sqlite3_reset (Some p)]
                  | None => []
                  end
               ++ [Sqlite3_errmsg (Some d)].
Proof.
  intros Hp Ho Hacc prep stmt Hrc.
  rewrite (Fsqlite_execute_open E H w a d sql rest Hp Ho), Hacc.
  cbv zeta. fold prep. fold stmt.
  destruct (Z.eqb_spec (result_code E (effects (trace w)) prep) SQLITE_OK);
    [contradiction|].
  unfold execute_prepare_failed, bind. unfold_native.
  destruct stmt as [p|]; cbn [is_null negb]; unfold ret; next_step;
    rewrite execute_exit_value, !pending_log, Hp;
    eexists; (split; [reflexivity|]);
    rewrite pending_raise, trace_raise, !trace_log, <- !app_assoc;
    (split; [discriminate | reflexivity]).
Qed.

(** A prepare that fails and leaves a statement. *)
Lemma execute_prepare_failure_witness :
  let E := scripted {| open_status := SQLITE_OK; prepare_status := SQLITE_ERROR;
                       prepare_stmt := Some 1%nat; bind_status := SQLITE_OK;
                       step_statuses := []; exec_status := SQLITE_OK;
                       message := "syntax error"; changed := 0;
                       column_labels := [] |} in
  exists w',
    Fsqlite_execute E plain_host [sqlite_handle 0; text "selec"] open_world
    = Ret (Q "nil") w' /\
    trace w' = trace open_world
               ++ [Sqlite3_prepare_v2 (Some 0%nat) "selec" (-1);
                   Sqlite3_finalize (Some 1%nat); Sqlite3_reset (Some 1%nat);
                   Sqlite3_errmsg (Some 0%nat)].
Proof.
  intros E.
  destruct (execute_resets_the_statement_it_finalized E plain_host open_world 0 0
              (mk_string 5 "selec" None) [] eq_refl eq_refl eq_refl)
    as (w' & Hrun & _ & Ht); [discriminate|].
  exists w'. split; [exact Hrun | exact Ht].
Defined.



(** ** Empty strings *)

(** X26: an empty string is bound as an empty text with a buffer of its
    own, not as NULL; and since an empty string carries no text property, an
    empty string meant as a Blob is bound as an empty text too. *)
Theorem empty_string_is_bound_as_empty_text (E : sqlite3) (H : host)
    (db stmt : pointer) (i : Z) (s : lisp_string) (w : world) :
  pending w = None -> schars s = 0 -> sdata s = "" ->
  bind_value E H db stmt i (Str s) w
  = bound E db (Sqlite3_bind_text stmt (i + 1) (Some NUL) 0) w /\
  bound_cell (Sqlite3_bind_text stmt (i + 1) (Some NUL) 0) = Some (Cell_text "").
Proof.
  intros Hp Hchars Hdata. split; [|reflexivity].
  rewrite bind_value_string by assumption. unfold bind at 1.
  unfold bind_string. env_step. env_step. rewrite Hchars.
  change (if 0 =? 0 then Qnil else match coding_system s with
                                  | Some cs => Q cs
                                  | None => Qnil
                                  end) with Qnil.
  env_step.
  unfold bind at 1. unfold ret at 1. next_step.
  env_step. rewrite Hdata.
  change (byte_length "" + 1) with 1. change (negb (1 =? 0)) with true. next_step.
  unfold bind at 1. unfold copy_string_contents at 1. rewrite Hp, Hdata.
  change (1 <? Z.of_nat (String.length "") + 1) with false. next_step.
  unfold bind at 1. unfold initialised at 1, ret at 1. next_step.
  reflexivity.
Qed.

(** The empty unibyte string tagged [binary]. *)
Lemma empty_string_witness :
  bind_value (scripted quiet) plain_host (Some 0%nat) (Some 1%nat) 0
    (Str (mk_string 0 "" (Some "binary"))) open_world
  = Ret None (log (Sqlite3_bind_text (Some 1%nat) 1 (Some NUL) 0) open_world).
Proof.
  destruct (empty_string_is_bound_as_empty_text (scripted quiet) plain_host
              (Some 0%nat) (Some 1%nat) 0 (mk_string 0 "" (Some "binary")) open_world
              eq_refl eq_refl eq_refl) as (Hbind & _).
  rewrite Hbind. reflexivity.
Defined.

(** ** [Fsqlite_transaction] on a value that is not an open connection *)

(** X27: [Fsqlite_transaction] reads the struct without a test of the
    pointer that the validation returned.  For every value that the
    validation rejects (a closed connection, a cursor, a value that is not a
    handle) it raises the signal of the validation and then dereferences
    NULL. *)
Theorem transaction_dereferences_a_rejected_handle (E : sqlite3) (v : emacs_value)
    (rest : list emacs_value) (w w' : world) :
  pending w = None -> sqlite_validation v w = Ret None w' ->
  Fsqlite_transaction E (v :: rest) w = Fault w' /\
  pending w' <> None /\ trace w' = trace w.
Proof.
  intros Hp Hv. split.
  - unfold Fsqlite_transaction. change (arg (v :: rest) 0) with v.
    unfold bind at 1. rewrite lisp_sqlite_check_cases, Hv by assumption.
    reflexivity.
  - unfold sqlite_validation in Hv.
    destruct v as [name|n|bits|s|x y|l|[[| |id]|] p];
      try (injection Hv as <-; split; [discriminate | reflexivity]).
    destruct (nth_error (sqlites w) p) as [[[q|]]|]; try discriminate.
    injection Hv as <-. split; [discriminate | reflexivity].
Qed.

(** nil where the connection is expected. *)
Lemma transaction_witness_nil :
  Fsqlite_transaction (scripted quiet) [Qnil] open_world
  = Fault (raise (wrong_type "sqlitep" Qnil) open_world).
Proof.
  exact (proj1 (transaction_dereferences_a_rejected_handle (scripted quiet) Qnil []
                  open_world _ eq_refl eq_refl)).
Defined.

(** ** Calls without undefined behaviour *)

Lemma safe_ret {A} (a : A) : safe (ret a).
Proof. intros w w'. discriminate. Qed.

Lemma safe_hang {A} : safe (fun w => @Hang A w).
Proof. intros w w'. discriminate. Qed.

Lemma safe_at_bind {A B} (m : M A) (k : A -> M B) w :
  safe_at m w -> (forall a w1, m w = Ret a w1 -> safe_at (k a) w1) ->
  safe_at (bind m k) w.
Proof.
  intros Hm Hk w'. unfold bind. destruct (m w) as [a w1|w1|w1] eqn:Hrun.
  - now apply Hk.
  - now contradiction (Hm w1).
  - discriminate.
Qed.

Lemma safe_bind {A B} (m : M A) (k : A -> M B) :
  safe m -> (forall a, safe (k a)) -> safe (bind m k).
Proof. intros Hm Hk w. apply safe_at_bind; [apply Hm | intros a w1 _; apply Hk]. Qed.

Lemma safe_env_fn {A} (failure : A) r : safe (env_fn failure r).
Proof.
  intros w w'. unfold env_fn. destruct (pending w); [discriminate|].
  destruct r; discriminate.
Qed.

Lemma safe_signal symbol data : safe (non_local_exit_signal symbol data).
Proof.
  intros w w'. unfold non_local_exit_signal. destruct (pending w); [discriminate|].
  destruct symbol; discriminate.
Qed.

Lemma safe_copy_string_contents value buf len : safe (copy_string_contents value buf len).
Proof.
  intros w w'. unfold copy_string_contents. destruct (pending w); [discriminate|].
  destruct value; try discriminate. destruct buf; [|discriminate].
  destruct (_ <? _); discriminate.
Qed.

Lemma safe_native_code E c : safe (native_code E c).
Proof. intros w w'. discriminate. Qed.

Lemma safe_native_alloc E c : safe (native_alloc E c).
Proof. intros w w'. discriminate. Qed.

Lemma safe_native_int E c : safe (native_int E c).
Proof. intros w w'. discriminate. Qed.

Lemma safe_native_text E c : safe (native_text E c).
Proof. intros w w'. discriminate. Qed.

Lemma safe_malloc_sqlite s : safe (malloc_sqlite s).
Proof. intros w w'. discriminate. Qed.

Lemma safe_malloc_statement s : safe (malloc_statement s).
Proof. intros w w'. discriminate. Qed.

Create HintDb safety.

#[export] Hint Resolve safe_ret safe_hang safe_env_fn safe_signal
  safe_copy_string_contents safe_native_code safe_native_alloc safe_native_int
  safe_native_text safe_malloc_sqlite safe_malloc_statement : safety.

(** The code that has no pointer to follow and no buffer to read is safe by
    its shape. *)
Ltac safety :=
  unfold_wrappers;
  repeat match goal with
    | |- safe (bind _ _) => apply safe_bind; [| intros ?]
    | |- safe (if ?b then _ else _) => destruct b
    | |- safe (let '(_, _) := ?p in _) => destruct p
    | |- safe (match ?x with _ => _ end) => destruct x
    | |- safe _ => solve [auto with safety]
    end.

(** The same for the code run from a given world. *)
Ltac by_shape :=
  match goal with
  | |- safe_at ?m ?w =>
      let Hs := fresh in assert (Hs : safe m) by safety; exact (Hs w)
  | |- ?m ?w <> Fault ?w' =>
      let Hs := fresh in assert (Hs : safe m) by safety; exact (Hs w w')
  end.

Section Safety.

Variable E : sqlite3.
Variable H : host.

Lemma safe_CHECK_STRING v : safe (CHECK_STRING v).
Proof. unfold CHECK_STRING. safety. Qed.

Lemma safe_user_ptr_check v : safe (user_ptr_check v).
Proof. unfold user_ptr_check. safety. Qed.

Lemma safe_lisp_sqlite_make db : safe (lisp_sqlite_make db).
Proof. unfold lisp_sqlite_make. safety. Qed.

Lemma safe_lisp_statement_make db stmt : safe (lisp_statement_make db stmt).
Proof. unfold lisp_statement_make. safety. Qed.

Lemma safe_bind_status_test db r : safe (bind_status_test E db r).
Proof. unfold bind_status_test. safety. Qed.

Lemma safe_execute_exit rc errmsg : safe (execute_exit rc errmsg).
Proof. unfold execute_exit. safety. Qed.

Lemma safe_select_exit errmsg : safe (select_exit errmsg).
Proof. unfold select_exit. safety. Qed.

Lemma safe_column_value stmt i : safe (column_value E stmt i).
Proof. unfold column_value. safety. Qed.

Lemma safe_row_to_value_loop n stmt :
  forall i values, safe (row_to_value_loop E n stmt i values).
Proof.
  pose proof safe_column_value.
  induction n as [|n IH]; intros i values; cbn [row_to_value_loop]; safety.
Qed.

Lemma safe_row_to_value stmt : safe (row_to_value E stmt).
Proof. unfold row_to_value. pose proof safe_row_to_value_loop. safety. Qed.

Lemma safe_column_names_loop n stmt :
  forall i columns, safe (column_names_loop E n stmt i columns).
Proof.
  induction n as [|n IH]; intros i columns; cbn [column_names_loop]; safety.
Qed.

Lemma safe_column_names stmt : safe (column_names E stmt).
Proof. unfold column_names. pose proof safe_column_names_loop. safety. Qed.

Lemma safe_select_loop fuel stmt : forall retval, safe (select_loop E fuel stmt retval).
Proof.
  pose proof safe_row_to_value.
  induction fuel as [|fuel IH]; intros retval; cbn [select_loop]; safety.
Qed.

Lemma safe_execute_step db stmt : safe (execute_step E db stmt).
Proof. pose proof safe_execute_exit. unfold execute_step. safety. Qed.

Lemma safe_execute_prepare_failed db stmt rc : safe (execute_prepare_failed E db stmt rc).
Proof. pose proof safe_execute_exit. unfold execute_prepare_failed. safety. Qed.

Lemma safe_select_prepare_failed stmt rc : safe (select_prepare_failed E H stmt rc).
Proof.
  pose proof safe_select_exit. unfold select_prepare_failed.
  apply safe_bind; [safety|]. intros _. apply safe_bind; [|intros msg; auto].
  intros w w'. discriminate.
Qed.

Lemma safe_select_rows fuel db stmt args : safe (select_rows E fuel db stmt args).
Proof.
  pose proof safe_lisp_statement_make. pose proof safe_select_loop.
  pose proof safe_column_names. unfold select_rows. safety.
Qed.

Lemma safe_Fsqlitep args : safe (Fsqlitep args).
Proof. pose proof safe_user_ptr_check. unfold Fsqlitep. safety. Qed.

End Safety.

(** *** The loop of [bind_values] reads the buffers that it has filled *)

(** A size that [copy_string_contents] has set tells that the value is a
    string and that no exit is pending. *)
Lemma copy_size_set value x size w w1 :
  copy_string_contents value false 0 w = Ret (x, size) w1 -> size <> 0 ->
  pending w = None /\ w1 = w /\
  exists s, value = Str s /\ size = byte_length (sdata s) + 1.
Proof.
  unfold copy_string_contents. destruct (pending w); [now intros [= _ <- _]|].
  destruct value; try now intros [= _ <- _].
  intros [= _ <- <-] _. repeat split. eauto.
Qed.

Lemma safe_bind_text E stmt i data n : safe (rc <- sqlite3_bind_text E stmt i data n ;;
                                           ret (inr rc : string + Z)).
Proof. safety. Qed.

Lemma safe_bind_blob E stmt i data n : safe (rc <- sqlite3_bind_blob E stmt i data n ;;
                                           ret (inr rc : string + Z)).
Proof. safety. Qed.

Lemma bind_string_safe E H stmt i s : sane (Str s) -> safe (bind_string E H stmt i (Str s)).
Proof.
  intros Hs w. unfold bind_string.
  apply safe_at_bind; [by_shape|]. intros zero w1 _.
  apply safe_at_bind; [by_shape|]. intros cs w2 _.
  apply safe_at_bind; [by_shape|]. intros untagged w3 _.
  apply safe_at_bind; [destruct untagged; by_shape|].
  intros [blob value] w4 Htag.
  assert (Hblob : blob = true -> value = Str s).
  { revert Htag. destruct untagged; cbn [negb]; [now intros [= <- _]|].
    unfold bind at 1. destruct (EQ cs (Q "binary") w3) as [[|] w'| |];
      try discriminate; [now intros [= _ <-]|].
    unfold bind. destruct (call_encode_coding_string H (Str s) cs w');
      try discriminate. now intros [= <- _]. }
  apply safe_at_bind; [apply safe_copy_string_contents|].
  intros [x size] w5 Hcopy.
  destruct (Z.eqb_spec size 0) as [Hz|Hz]; cbn [negb].
  - destruct blob; [apply safe_bind_blob | apply safe_bind_text].
  - destruct (copy_size_set value x size w4 w5 Hcopy Hz) as (Hp & -> & s' & -> & ->).
    destruct blob.
    + assert (s' = s) by (specialize (Hblob eq_refl); congruence). subst s'.
      intros w'. unfold bind at 1. rewrite call_length_string by assumption. next_step.
      unfold bind at 1. rewrite XFIXNUM_value by (auto; exact Hs). next_step.
      destruct (negb (_ =? _)).
      * by_shape.
      * unfold bind at 1. rewrite copy_string_contents_copy by assumption. next_step.
        unfold bind at 1. unfold initialised at 1, ret at 1. next_step.
        apply safe_bind_blob.
    + intros w'. unfold bind at 1. rewrite copy_string_contents_copy by assumption.
      next_step. unfold bind at 1. unfold initialised at 1, ret at 1. next_step.
      apply safe_bind_text.
Qed.

(** The test that sends a value to [bind_string] tells that it is a
    string. *)
Lemma string_test_passed v type w w1 w2 :
  TYPE_OF v w = Ret type w1 -> EQ type (Q "string") w1 = Ret true w2 ->
  exists s, v = Str s.
Proof.
  unfold TYPE_OF, type_of, EQ, eq, env_fn.
  destruct (pending w) eqn:Hp.
  - intros [= <- <-]. now rewrite Hp.
  - intros [= <- <-]. rewrite Hp. intros [= Heq].
    destruct v; try discriminate. eauto.
Qed.

Lemma bind_value_safe E H db stmt i v : sane v -> safe (bind_value E H db stmt i v).
Proof.
  intros Hv w. unfold bind_value.
  apply safe_at_bind; [by_shape|]. intros type w1 Htype.
  apply safe_at_bind; [by_shape|]. intros is_string w2 Hstring.
  apply safe_at_bind; [|intros r w3 _; apply safe_bind_status_test].
  destruct is_string.
  - destruct (string_test_passed v type w w1 w2 Htype Hstring) as (s & ->).
    now apply bind_string_safe.
  - by_shape.
Qed.

Lemma sane_vector_nth l :
  sane (Vector l) -> forall k x, nth_error l k = Some x -> sane x.
Proof.
  induction l as [|y l IH]; intros Hl k x; [now destruct k|].
  destruct Hl as [Hy Hl]. destruct k as [|k]; cbn [nth_error].
  - now intros [= <-].
  - now apply IH.
Qed.

Lemma env_fn_result {A} (failure : A) r a w w1 :
  env_fn failure r w = Ret a w1 -> a = failure \/ r = inr a.
Proof.
  unfold env_fn. destruct (pending w); [intros [= <- _]; now left|].
  destruct r; intros [= <- _]; [now left | now right].
Qed.

Lemma sane_vec_get values i x w w1 :
  sane values -> vec_get values i w = Ret x w1 -> sane x.
Proof.
  intros Hv Hget. apply env_fn_result in Hget as [->|Hget]; [exact I|].
  destruct values as [name|n|bits|s|a d|l|fin p]; try discriminate.
  destruct (i <? 0); [discriminate|].
  destruct (nth_error l (Z.to_nat i)) as [y|] eqn:Hy; [|discriminate].
  injection Hget as <-. exact (sane_vector_nth l Hv _ _ Hy).
Qed.

Lemma sane_car values x w w1 :
  sane values -> call_car values w = Ret x w1 -> sane x.
Proof.
  intros Hv Hcar. apply env_fn_result in Hcar as [->|Hcar]; [exact I|].
  destruct values as [name|n|bits|s|a d|l|fin p];
    try (destruct (eq_value _ Qnil); [injection Hcar as <-; exact I | discriminate]).
  injection Hcar as <-. apply Hv.
Qed.

Lemma sane_cdr values x w w1 :
  sane values -> call_cdr values w = Ret x w1 -> sane x.
Proof.
  intros Hv Hcdr. apply env_fn_result in Hcdr as [->|Hcdr]; [exact I|].
  destruct values as [name|n|bits|s|a d|l|fin p];
    try (destruct (eq_value _ Qnil); [injection Hcdr as <-; exact I | discriminate]).
  injection Hcdr as <-. apply Hv.
Qed.

(** The element that a turn of the loop takes, and the values that it
    leaves for the next turn. *)
Lemma loop_turn_sane (is_vector : bool) values i (x rest : emacs_value) w w1 :
  sane values ->
  (if is_vector
   then value <- vec_get values i ;; ret (value, values)
   else value <- call_car values ;; rest <- call_cdr values ;; ret (value, rest)) w
  = Ret (x, rest) w1 ->
  sane x /\ sane rest.
Proof.
  intros Hv. destruct is_vector.
  - unfold bind. destruct (vec_get values i w) as [y w2| |] eqn:Hget; try discriminate.
    intros [= <- <- _]. split; [|exact Hv]. exact (sane_vec_get _ _ _ _ _ Hv Hget).
  - unfold bind. destruct (call_car values w) as [y w2| |] eqn:Hcar; try discriminate.
    destruct (call_cdr values w2) as [z w3| |] eqn:Hcdr; try discriminate.
    intros [= <- <- _]. split.
    + exact (sane_car _ _ _ _ Hv Hcar).
    + exact (sane_cdr _ _ _ _ Hv Hcdr).
Qed.

Lemma bind_values_loop_safe E H db stmt :
  forall n is_vector i values,
    sane values -> safe (bind_values_loop E H n db stmt is_vector i values).
Proof.
  induction n as [|n IH]; intros is_vector i values Hv w; cbn [bind_values_loop].
  - apply safe_ret.
  - apply safe_at_bind; [destruct is_vector; by_shape|].
    intros [x rest] w1 Hturn.
    destruct (loop_turn_sane is_vector values i x rest w w1 Hv Hturn) as [Hx Hrest].
    apply safe_at_bind; [now apply bind_value_safe|].
    intros [e|] w2 _; [apply safe_ret | now apply IH].
Qed.

Lemma bind_values_safe E H db stmt values :
  sane values -> safe (bind_values E H db stmt values).
Proof.
  intros Hv. unfold bind_values.
  apply safe_bind; [safety|]. intros _.
  apply safe_bind; [unfold TYPEP; safety|]. intros is_vector.
  apply safe_bind; [destruct is_vector; safety|]. intros len.
  now apply bind_values_loop_safe.
Qed.

Lemma bind_parameters_safe E H db stmt rest :
  sane (arg (Qnil :: Qnil :: rest) 2) -> safe (bind_parameters E H db stmt rest).
Proof.
  intros Hv. unfold bind_parameters. destruct rest as [|v rest]; [apply safe_ret|].
  destruct (eq_value v Qnil); [apply safe_ret | now apply bind_values_safe].
Qed.

(** *** The functions follow a pointer only after the validation *)

Lemma lisp_sqlite_check_allocated v w :
  pending w = None -> allocated w v ->
  (exists a d, v = sqlite_handle a /\ open_connection w a d) \/
  (exists s, lisp_sqlite_check v w = Ret None (raise s w)).
Proof.
  intros Hp Ha. rewrite lisp_sqlite_check_cases by assumption.
  unfold sqlite_validation.
  destruct v as [name|n|bits|s|x y|l|[[| |id]|] p]; try (right; eauto; fail).
  cbn [allocated] in Ha. apply nth_error_Some in Ha.
  destruct (nth_error (sqlites w) p) as [[[d|]]|] eqn:Hs; [| |contradiction].
  - left. now exists p, d.
  - right. eauto.
Qed.

Lemma lisp_statement_check_allocated v w :
  pending w = None -> allocated w v ->
  (exists a db p eof, v = statement_handle a /\ open_statement w a db p eof) \/
  (exists s, lisp_statement_check v w = Ret None (raise s w)).
Proof.
  intros Hp Ha. rewrite lisp_statement_check_cases by assumption.
  unfold statement_validation.
  destruct v as [name|n|bits|s|x y|l|[[| |id]|] p]; try (right; eauto; fail).
  cbn [allocated] in Ha. apply nth_error_Some in Ha.
  destruct (nth_error (statements w) p) as [[db [q|] eof]|] eqn:Hs; [| |contradiction].
  - left. now exists p, db, q, eof.
  - right. eauto.
Qed.

Section Calls.

Variable E : sqlite3.
Variable H : host.

Lemma Fsqlite_close_safe v rest w :
  pending w = None -> allocated w v -> safe_at (Fsqlite_close E (v :: rest)) w.
Proof.
  intros Hp Ha w'.
  destruct (lisp_sqlite_check_allocated v w Hp Ha) as [(a & d & -> & Ho)|(s & Hs)].
  - now rewrite (Fsqlite_close_open E w a d rest Hp Ho).
  - unfold Fsqlite_close, bind. change (arg (v :: rest) 0) with v. now rewrite Hs.
Qed.

Lemma execute_statement_safe db stmt rest :
  sane (arg (Qnil :: Qnil :: rest) 2) -> safe (execute_statement E H db stmt rest).
Proof.
  intros Hv. unfold execute_statement.
  apply safe_bind; [now apply bind_parameters_safe|].
  intros [e|]; [apply safe_execute_exit | apply safe_execute_step].
Qed.

Lemma Fsqlite_execute_safe v x rest w :
  pending w = None -> allocated w v -> sane (arg (v :: x :: rest) 2) ->
  safe_at (Fsqlite_execute E H (v :: x :: rest)) w.
Proof.
  intros Hp Ha Hv w'.
  destruct (lisp_sqlite_check_allocated v w Hp Ha) as [(a & d & -> & Ho)|(s & Hs)].
  - destruct x as [name|n|bits|sql|y z|l|fin p].
    4:{ rewrite (Fsqlite_execute_open E H w a d sql rest Hp Ho).
        destruct (acceptable_values rest); [|discriminate].
        cbv zeta. destruct (_ =? SQLITE_OK).
        - now apply execute_statement_safe.
        - apply safe_execute_prepare_failed. }
    all: unfold Fsqlite_execute;
      match goal with
      | |- context [arg (?h :: ?x :: ?r) 1] =>
          change (arg (h :: x :: r) 0) with h;
          change (arg (h :: x :: r) 1) with x
      end;
      unfold bind at 1; rewrite (lisp_sqlite_check_open w a d) by assumption;
      next_step; cbn [is_null]; unfold bind at 1;
      rewrite CHECK_STRING_other by (auto; discriminate); discriminate.
  - unfold Fsqlite_execute, bind. change (arg (v :: x :: rest) 0) with v.
    now rewrite Hs.
Qed.

Lemma select_statement_safe fuel db stmt args :
  sane (arg args 2) -> safe (select_statement E H fuel db stmt args).
Proof.
  intros Hv. unfold select_statement, select_bind.
  apply safe_bind.
  - apply safe_bind.
    + apply bind_parameters_safe.
      destruct args as [|h [|x rest]]; try exact I. exact Hv.
    + intros [e|]; safety.
  - intros [e|]; [apply safe_select_exit | apply safe_select_rows].
Qed.

Lemma Fsqlite_select_safe fuel v x rest w :
  pending w = None -> allocated w v -> sane (arg (v :: x :: rest) 2) ->
  safe_at (Fsqlite_select E H fuel (v :: x :: rest)) w.
Proof.
  intros Hp Ha Hv w'.
  destruct (lisp_sqlite_check_allocated v w Hp Ha) as [(a & d & -> & Ho)|(s & Hs)].
  - destruct x as [name|n|bits|sql|y z|l|fin p].
    4:{ rewrite (Fsqlite_select_open E H fuel w a d sql rest Hp Ho).
        cbv zeta. destruct (_ =? SQLITE_OK).
        - now apply select_statement_safe.
        - apply safe_select_prepare_failed. }
    all: unfold Fsqlite_select;
      match goal with
      | |- context [arg (?h :: ?x :: ?r) 1] =>
          change (arg (h :: x :: r) 0) with h;
          change (arg (h :: x :: r) 1) with x
      end;
      unfold bind at 1; rewrite (lisp_sqlite_check_open w a d) by assumption;
      next_step; cbn [is_null]; unfold bind at 1;
      rewrite CHECK_STRING_other by (auto; discriminate); discriminate.
  - unfold Fsqlite_select, bind. change (arg (v :: x :: rest) 0) with v.
    now rewrite Hs.
Qed.

Lemma Fsqlite_commit_safe v rest w :
  pending w = None -> allocated w v -> safe_at (Fsqlite_commit E (v :: rest)) w.
Proof.
  intros Hp Ha w'.
  destruct (lisp_sqlite_check_allocated v w Hp Ha) as [(a & d & -> & Ho)|(s & Hs)].
  - destruct (Fsqlite_exec_open E w a d rest Hp Ho) as (_ & -> & _). discriminate.
  - unfold Fsqlite_commit, bind. change (arg (v :: rest) 0) with v. now rewrite Hs.
Qed.

Lemma Fsqlite_rollback_safe v rest w :
  pending w = None -> allocated w v -> safe_at (Fsqlite_rollback E (v :: rest)) w.
Proof.
  intros Hp Ha w'.
  destruct (lisp_sqlite_check_allocated v w Hp Ha) as [(a & d & -> & Ho)|(s & Hs)].
  - destruct (Fsqlite_exec_open E w a d rest Hp Ho) as (_ & _ & ->). discriminate.
  - unfold Fsqlite_rollback, bind. change (arg (v :: rest) 0) with v. now rewrite Hs.
Qed.

Lemma Fsqlite_pragma_safe v x rest s w :
  pending w = None -> allocated w v ->
  concat H (text "PRAGMA ") x = inr (Str s) ->
  safe_at (Fsqlite_pragma E H (v :: x :: rest)) w.
Proof.
  intros Hp Ha Hcat w'.
  destruct (lisp_sqlite_check_allocated v w Hp Ha) as [(a & d & -> & Ho)|(s0 & Hs)].
  - rewrite (Fsqlite_pragma_open E H w a d x s rest Hp Ho Hcat). discriminate.
  - unfold Fsqlite_pragma, bind. change (arg (v :: x :: rest) 0) with v. now rewrite Hs.
Qed.

Lemma Fsqlite_next_safe v rest w :
  pending w = None -> allocated w v -> safe_at (Fsqlite_next E (v :: rest)) w.
Proof.
  intros Hp Ha.
  destruct (lisp_statement_check_allocated v w Hp Ha)
    as [(a & db & p & eof & -> & Ho)|(s & Hs)].
  - unfold Fsqlite_next. change (arg (statement_handle a :: rest) 0)
      with (statement_handle a).
    intros w'. unfold bind at 1.
    rewrite (lisp_statement_check_open w a db p eof) by assumption.
    next_step. cbn [is_null].
    unfold bind at 1. rewrite (load_statement_value a _ w Ho). next_step.
    unfold bind at 1. unfold sqlite3_step at 1, native_code. next_step.
    cbn [st_stmt st_db].
    destruct (negb (_ =? SQLITE_ROW) && negb (_ =? SQLITE_OK) && negb (_ =? SQLITE_DONE));
      [by_shape|].
    destruct (_ =? SQLITE_DONE); [|apply safe_row_to_value].
    unfold bind, store_st_eof. cbn [statements log].
    unfold open_statement in Ho. rewrite Ho. discriminate.
  - intros w'. unfold Fsqlite_next, bind. change (arg (v :: rest) 0) with v.
    now rewrite Hs.
Qed.

Lemma Fsqlite_columns_safe v rest w :
  pending w = None -> allocated w v -> safe_at (Fsqlite_columns E (v :: rest)) w.
Proof.
  intros Hp Ha w'.
  destruct (lisp_statement_check_allocated v w Hp Ha)
    as [(a & db & p & eof & -> & Ho)|(s & Hs)].
  - unfold Fsqlite_columns. change (arg (statement_handle a :: rest) 0)
      with (statement_handle a).
    unfold bind at 1.
    rewrite (lisp_statement_check_open w a db p eof) by assumption.
    next_step. cbn [is_null].
    unfold bind at 1. rewrite (load_statement_value a _ w Ho). next_step.
    apply safe_column_names.
  - unfold Fsqlite_columns, bind. change (arg (v :: rest) 0) with v. now rewrite Hs.
Qed.

Lemma Fsqlite_more_p_safe v rest w :
  pending w = None -> allocated w v -> safe_at (Fsqlite_more_p (v :: rest)) w.
Proof.
  intros Hp Ha w'.
  destruct (lisp_statement_check_allocated v w Hp Ha)
    as [(a & db & p & eof & -> & Ho)|(s & Hs)].
  - unfold Fsqlite_more_p. change (arg (statement_handle a :: rest) 0)
      with (statement_handle a).
    unfold bind at 1.
    rewrite (lisp_statement_check_open w a db p eof) by assumption.
    next_step. cbn [is_null].
    unfold bind at 1. rewrite (load_statement_value a _ w Ho). next_step.
    cbn [st_eof]. destruct eof; discriminate.
  - unfold Fsqlite_more_p, bind. change (arg (v :: rest) 0) with v. now rewrite Hs.
Qed.

Lemma Fsqlite_finalize_safe v rest w :
  pending w = None -> allocated w v -> safe_at (Fsqlite_finalize E (v :: rest)) w.
Proof.
  intros Hp Ha w'.
  destruct (lisp_statement_check_allocated v w Hp Ha)
    as [(a & db & p & eof & -> & Ho)|(s & Hs)].
  - now rewrite (Fsqlite_finalize_open E w a db p eof rest Hp Ho).
  - unfold Fsqlite_finalize, bind. change (arg (v :: rest) 0) with v. now rewrite Hs.
Qed.

Lemma opened_safe c w w' : opened E c w <> Fault w'.
Proof. unfold opened. destruct (_ =? SQLITE_OK); discriminate. Qed.

Lemma Fsqlite_open_safe args w :
  pending w = None -> (List.length args <= 1)%nat ->
  valid_call H sqlite_open args w -> safe_at (Fsqlite_open E H args) w.
Proof.
  intros Hp Hlen Hvalid w'. cbn [valid_call] in Hvalid.
  destruct (anonymous args) eqn:Ha.
  - rewrite Fsqlite_open_anonymous by assumption.
    apply Z.ltb_lt in Hvalid. rewrite Hvalid. cbv zeta.
    destruct (_ =? SQLITE_OK); [|discriminate].
    now rewrite lisp_sqlite_make_value by pending.
  - destruct args as [|v [|x rest]]; [discriminate | | cbn [List.length] in Hlen; lia].
    cbn [anonymous] in Ha. change (arg [v] 0) with v in Hvalid.
    destruct Hvalid as (s & Hname).
    rewrite Fsqlite_open_named by assumption.
    unfold bind, call_expand_file_name. rewrite Hname.
    rewrite env_fn_value by assumption. rewrite open_file_string by assumption.
    apply opened_safe.
Qed.

Lemma subr_function_safe fuel f args w :
  pending w = None ->
  (min_arity f <= List.length args <= max_arity f)%nat ->
  valid_call H f args w ->
  safe_at (subr_function E H fuel f args) w.
Proof.
  intros Hp Harity Hvalid.
  destruct f; cbn [min_arity max_arity subr_function valid_call] in *.
  - apply Fsqlite_open_safe; auto. lia.
  - destruct args as [|v rest]; [cbn in Harity; lia|]. now apply Fsqlite_close_safe.
  - destruct args as [|v [|x rest]]; try (cbn in Harity; lia).
    destruct Hvalid. now apply Fsqlite_execute_safe.
  - destruct args as [|v [|x rest]]; try (cbn in Harity; lia).
    destruct Hvalid. now apply Fsqlite_select_safe.
  - destruct args as [|v rest]; [cbn in Harity; lia|].
    destruct Hvalid as (a & d & Hv & Ho). change (arg (v :: rest) 0) with v in Hv.
    subst v. intros w'.
    destruct (Fsqlite_exec_open E w a d rest Hp Ho) as (-> & _). discriminate.
  - destruct args as [|v rest]; [cbn in Harity; lia|]. now apply Fsqlite_commit_safe.
  - destruct args as [|v rest]; [cbn in Harity; lia|]. now apply Fsqlite_rollback_safe.
  - destruct args as [|v [|x rest]]; try (cbn in Harity; lia).
    destruct Hvalid as (Ha & s & Hcat). now apply Fsqlite_pragma_safe with s.
  - destruct args as [|v rest]; [cbn in Harity; lia|]. now apply Fsqlite_next_safe.
  - destruct args as [|v rest]; [cbn in Harity; lia|]. now apply Fsqlite_columns_safe.
  - destruct args as [|v rest]; [cbn in Harity; lia|]. now apply Fsqlite_more_p_safe.
  - destruct args as [|v rest]; [cbn in Harity; lia|]. now apply Fsqlite_finalize_safe.
  - apply safe_Fsqlitep.
  - intros w'. discriminate.
Qed.

End Calls.


